(** * ai-code-summary: a shallow embedding of the chunker, the batch
    drivers and the file manager, with the properties of its specification.

    Sources embedded here:
    - [src/simple_code_summarizer.py]  (module [Simple])
    - [src/local_code_summarizer.py]   (module [Local])
    - [src/ai_code_summary/files/file_manager.py] (module [FileManager])

    Conventions of the embedding.
    - A Python [str] is a Rocq [string]; one [ascii] stands for one
      character (a code point below 256), so [String.length] is Python's
      [len].  The box-drawing literals of the tree renderer and the pictograms
      of the console messages are kept as the bytes of their UTF-8 encoding;
      they are only ever concatenated and compared, never measured, sliced,
      stripped or lower-cased.
    - A Python [int] is a [Z].
    - Code that can raise runs in the exception monad [exc]; [try]/[except]
      is [try_except] with the predicate of the classes the clause names.
    - [print] writes to the console and can raise (an encoding error, a
      closed stream); it is a function of the outside world, and every call
      the sources make is where the source has it.  The pause between backend
      calls ([time.sleep]) computes nothing and cannot fail, and is left out;
      so are the calls of [loguru]'s [logger], whose sinks catch their own
      errors.
    - The outside world (files on disk, the console, the GPU telemetry, the
      generation backend, the pathspec library) is passed in explicitly as
      functions or records.  It is a snapshot: the same request gets the
      same answer throughout a run. *)

From Stdlib Require Import ZArith QArith String Ascii List Lia.
From stdpp Require Import base list strings gmap pretty sorting.

Local Open Scope Z_scope.
Set Warnings "-register-all".

(** ** Python runtime *)
Module Py.

(** The exception classes the sources name or can meet.  Every class
    below is a subclass of [Exception]; [BackendError] stands for whatever
    the generation backend raises. *)
Inductive exn_class :=
| OSError | PermissionError | ValueError | UnicodeDecodeError
| UnicodeEncodeError | TypeError | MemoryError | BackendError.

Global Instance exn_class_eq_dec : EqDecision exn_class.
Proof. solve_decision. Defined.

(** [issubclass(c, C)]: [PermissionError] is an [OSError], the two Unicode
    errors are [ValueError]s. *)
Definition issubclass (c C : exn_class) : bool :=
  bool_decide (c = C)
  || match c, C with
     | PermissionError, OSError => true
     | UnicodeDecodeError, ValueError => true
     | UnicodeEncodeError, ValueError => true
     | _, _ => false
     end.

(** An exception value: its class and [str(e)]. *)
Record exn := Exn { exn_cls : exn_class; exn_str : string }.

(** [isinstance(e, C)], the test of [except C]. *)
Definition isinstance (e : exn) (C : exn_class) : bool :=
  issubclass (exn_cls e) C.

Inductive exc (A : Type) : Type :=
| Ok (a : A)
| Raise (e : exn).
Global Arguments Ok {A} a.
Global Arguments Raise {A} e.

Global Instance exc_ret : MRet exc := λ A a, Ok a.
Global Instance exc_bind : MBind exc := λ A B f m,
  match m with Ok a => f a | Raise e => Raise e end.

(** [try: body except <classes> as e: handler e] *)
Definition try_except {A} (body : exc A) (catches : exn → bool)
    (handler : exn → exc A) : exc A :=
  match body with
  | Ok a => Ok a
  | Raise e => if catches e then handler e else Raise e
  end.

(** [except Exception] *)
Definition any_Exception (e : exn) : bool := true.

(** [len(s)] *)
Definition len (s : string) : Z := Z.of_nat (String.length s).

(** [sep.join(l)] *)
Fixpoint join (sep : string) (l : list string) : string :=
  match l with
  | [] => ""
  | [x] => x
  | x :: l' => x +:+ sep +:+ join sep l'
  end.

(** Bounds of a slice [s[i:j]]: a negative index counts from the end, and
    both are clamped to [0 .. len]. *)
Definition clamp (n i : Z) : Z :=
  if i <? 0 then Z.max (i + n) 0 else Z.min i n.

(** [s[i:j]] *)
Definition slice (s : string) (i j : Z) : string :=
  let lo := clamp (len s) i in
  let hi := clamp (len s) j in
  substring (Z.to_nat lo) (Z.to_nat (hi - lo)) s.

(** [len(range(start, stop, step))] for a non-zero step. *)
Definition range_len (start stop step : Z) : Z :=
  if 0 <? step then
    if start <? stop then (stop - start - 1) / step + 1 else 0
  else
    if stop <? start then (start - stop - 1) / (- step) + 1 else 0.

(** [list(range(start, stop, step))]; a zero step raises [ValueError]. *)
Definition range (start stop step : Z) : exc (list Z) :=
  if step =? 0 then Raise (Exn ValueError "range() arg 3 must not be zero")
  else Ok ((λ k : nat, start + Z.of_nat k * step)
             <$> seq 0 (Z.to_nat (range_len start stop step))).

(** [list(enumerate(l, start))] *)
Definition enumerate {A} (start : Z) (l : list A) : list (Z * A) :=
  imap (λ k x, (start + Z.of_nat k, x)) l.

(** [c.isspace()] for a code point below 256: tab to carriage return, the
    four separators, the space, next-line and the no-break space. *)
Definition isspace (c : ascii) : bool :=
  let n := N_of_ascii c in
  ((9 <=? n) && (n <=? 13) || (28 <=? n) && (n <=? 32)
   || (n =? 133) || (n =? 160))%N.

Fixpoint lstrip (s : string) : string :=
  match s with
  | String c s' => if isspace c then lstrip s' else s
  | EmptyString => EmptyString
  end.

(** [s.strip()] *)
Definition strip (s : string) : string :=
  String.rev (lstrip (String.rev (lstrip s))).

(** Truth value of a string: non-empty. *)
Definition truthy (s : string) : bool :=
  match s with EmptyString => false | _ => true end.

(** [c.lower()] for a code point below 256: [A]-[Z], and the accented
    capitals U+00C0 to U+00DE but for the multiplication sign. *)
Definition lower_char (c : ascii) : ascii :=
  let n := N_of_ascii c in
  if ((65 <=? n) && (n <=? 90)
      || (192 <=? n) && (n <=? 222) && negb (n =? 215))%N
  then ascii_of_N (n + 32) else c.

(** [s.lower()] *)
Fixpoint lower (s : string) : string :=
  match s with
  | String c s' => String (lower_char c) (lower s')
  | EmptyString => EmptyString
  end.

(** [s.startswith(p)] *)
Definition startswith (s p : string) : bool := String.prefix p s.

(** A [dict] with string keys: insertion-ordered, one entry per key. *)
Definition dict (V : Type) : Type := list (string * V).

(** [d[k]], as [d.get(k)] *)
Fixpoint dict_get {V} (d : dict V) (k : string) : option V :=
  match d with
  | [] => None
  | (k', v) :: d' => if decide (k' = k) then Some v else dict_get d' k
  end.

(** [d[k] = v]: a present key keeps its position, a new one goes last. *)
Fixpoint dict_set {V} (d : dict V) (k : string) (v : V) : dict V :=
  match d with
  | [] => [(k, v)]
  | (k', v') :: d' =>
      if decide (k' = k) then (k', v) :: d' else (k', v') :: dict_set d' k v
  end.

Definition dict_keys {V} (d : dict V) : list string := fst <$> d.

(** The newline character, as a string. *)
Definition nl : string := String "010"%char "".

(** A loop [for x in l: s = body(s, x)] whose body may raise. *)
Fixpoint for_loop {S A} (body : S → A → exc S) (s : S) (l : list A) : exc S :=
  match l with
  | [] => Ok s
  | x :: l' => s' ← body s x; for_loop body s' l'
  end.

(** A [pathlib] path on POSIX: its root (empty for a relative path, ["/"]
    or ["//"] for an absolute one) and the components after the root. *)
Record Path := MkPath { root : string; names : list string }.

Global Instance Path_eq_dec : EqDecision Path.
Proof. solve_decision. Defined.

(** [p.parts] *)
Definition parts (p : Path) : list string :=
  if decide (root p = "") then names p else root p :: names p.

(** The root followed by the components joined with slashes; empty for
    [Path(".")]. *)
Definition format_parsed_parts (p : Path) : string :=
  root p +:+ join "/" (names p).

(** [str(p)] *)
Definition str (p : Path) : string :=
  if decide (format_parsed_parts p = "") then "." else format_parsed_parts p.

(** [p.name]: the final component; empty for a bare root and for
    [Path(".")]. *)
Definition name (p : Path) : string := default "" (last (names p)).

(** Position of the last occurrence of [c] in [s] ([s.rfind(c)]), if any. *)
Fixpoint rfind (c : ascii) (s : string) : option nat :=
  match s with
  | EmptyString => None
  | String c' s' =>
      match rfind c s' with
      | Some i => Some (S i)
      | None => if decide (c' = c) then Some 0%nat else None
      end
  end.

(** [p.suffix]: the last dot of the name and what follows it, unless the
    dot is the first or the last character of the name. *)
Definition suffix (p : Path) : string :=
  let n := name p in
  match rfind "."%char n with
  | Some i =>
      if ((0 <? i) && (i <? String.length n - 1))%nat
      then substring i (String.length n - i) n
      else ""
  | None => ""
  end.

(** [p / child] for a single component [child], the name of a directory
    entry. *)
Definition path_join (p : Path) (child : string) : Path :=
  MkPath (root p) (names p ++ [child]).

(** [p / name] for the name of a path, which is empty for [Path(".")]:
    joining the empty string gives [p] back. *)
Definition path_join_name (p : Path) (name : string) : Path :=
  if decide (name = "") then p else path_join p name.

Fixpoint strip_prefix (base ps : list string) : option (list string) :=
  match base, ps with
  | [], _ => Some ps
  | b :: base', x :: ps' =>
      if decide (b = x) then strip_prefix base' ps' else None
  | _ :: _, [] => None
  end.

(** The components of [p] below [base], when [p] is [base] or lies under
    it: the two have the same root, so an absolute path is never below a
    relative one, not even below [Path(".")]. *)
Definition below (p base : Path) : option (list string) :=
  if decide (root p = root base) then strip_prefix (names base) (names p)
  else None.

(** [p.relative_to(base)]; raises [ValueError] when [p] is not under
    [base].  The message shows the [repr] of both path strings, which is
    the string between single quotes when it holds no quote, backslash or
    control character. *)
Definition relative_to (p base : Path) : exc Path :=
  match below p base with
  | Some rest => Ok (MkPath "" rest)
  | None =>
      Raise (Exn ValueError
               ("'" +:+ str p +:+ "' is not in the subpath of '"
                  +:+ format_parsed_parts base
                  +:+ "' OR one path is relative and the other is absolute."))
  end.

End Py.
Import Py.

(** ** The chunking step, written identically in both summarizers

    [[code_content[i:i+chunk_size]
       for i in range(0, len(code_content), chunk_size)]] *)
Definition chunks (code_content : string) (chunk_size : Z) : exc (list string) :=
  idx ← range 0 (len code_content) chunk_size;
  Ok ((λ i, slice code_content i (i + chunk_size)) <$> (idx : list Z)).

(** Characters of a string as a list, for the proofs about slices. *)
Definition chars (s : string) : list ascii := list_ascii_of_string s.


(** ** The outside world of the two summarizers *)

(** A value of the [options] dictionary passed to the backend. *)
Inductive opt_value :=
| OInt (n : Z)
| OFloat (q : Q).

(** What the summarizers print of the dictionary [monitor_gpu] returns:
    the texts of [f"{gpu_info['memory_percent']:.1f}"] and of
    [f"{gpu_info['temp']}"]. *)
Record gpu_info := GpuInfo { memory_percent_1f : string; temp : string }.

Record world := World {
  (** [ollama.generate(model=, prompt=, options=)['response']] *)
  generate : string → string → list (string * opt_value) → exc string;
  (** [open(path, 'r', encoding='utf-8', errors='ignore').read()] *)
  open_read : string → exc string;
  (** [open(path, 'w', encoding='utf-8').write(text)] *)
  open_write : string → string → exc unit;
  (** [print(text)] *)
  print : string → exc unit;
  (** [self.monitor_gpu()]: the dictionary of the first GPU, or [None] when
      there is none or the telemetry library raises *)
  monitor_gpu : option gpu_info;
}.

(** What one iteration of a batch loop does with its file: the content is
    blank and nothing is recorded, a summary is recorded, or an exception
    reaches the [except] clause. *)
Inductive outcome :=
| Skipped
| Summarized (summary : string)
| Failed (e : exn).

(** The console takes every line. *)
Definition console_ok (w : world) : Prop := ∀ text, print w text = Ok tt.

(** The console takes the two lines the batch loops print outside their
    [try] body, whatever file they are about: the progress line before the
    [try] and the error line of the [except] clause. *)
Definition loop_lines_ok (w : world) : Prop :=
  ∀ text,
    String.prefix (nl +:+ "📝 Processing ") text = true
    ∨ String.prefix "❌ Error processing " text = true →
    print w text = Ok tt.

(** ** src/simple_code_summarizer.py *)
Module Simple.
Section with_world.

Variable w : world.
(** [self.model_name] *)
Variable model_name : string.

(** [enumerate(chunk_summaries)] rendered as ["Section i+1: summary"] and
    appended to the merge request. *)
Definition final_prompt (file_path : string) (chunk_summaries : list string) : string :=
  "Create a comprehensive summary from these sections of " +:+ file_path
    +:+ ":" +:+ nl +:+ nl
    +:+ join (nl +:+ nl)
          (imap (λ i summary,
                   "Section " +:+ pretty (Z.of_nat i + 1) +:+ ": " +:+ summary)
                chunk_summaries).

Definition summarize_large_code (code_content file_path : string)
    (chunk_size : Z) : exc string :=
  chunks ← chunks code_content chunk_size;
  _ ← print w ("📄 Processing large file " +:+ file_path +:+ " in "
                 +:+ pretty (Z.of_nat (length (chunks : list string)))
                 +:+ " chunks...");
  chunk_summaries ←
    mapM (λ ic : Z * string,
            _ ← print w ("  Processing chunk " +:+ pretty ic.1 +:+ "/"
                           +:+ pretty (Z.of_nat (length chunks)));
            generate w model_name
              ("Summarize this code section from " +:+ file_path +:+ ":"
                 +:+ nl +:+ nl +:+ ic.2)
              [("temperature", OFloat (2 # 10)); ("num_ctx", OInt 4096)])
         (enumerate 1 chunks);
  _ ← print w "  Creating final summary...";
  generate w model_name (final_prompt file_path chunk_summaries)
    [("temperature", OFloat (2 # 10)); ("num_ctx", OInt 4096)].

Definition prompt (code_content file_path : string) : string :=
  join nl
    [ "Analyze this code and provide a comprehensive summary:";
      "";
      "File: " +:+ file_path;
      "Code:";
      code_content;
      "";
      "Provide:";
      "1. **Purpose**: Main functionality";
      "2. **Key Components**: Important classes/functions  ";
      "3. **Technologies**: Languages and frameworks used";
      "4. **Architecture**: Design patterns";
      "5. **Dependencies**: Required libraries";
      "";
      "Keep it concise but thorough." ].

Definition summarize_code (code_content file_path : string) : exc string :=
  if 4000 <? len code_content then
    summarize_large_code code_content file_path 3000
  else
    try_except
      (_ ← print w ("🔄 Analyzing "
                      +:+ (if truthy file_path then file_path else "code")
                      +:+ "...");
       generate w model_name (prompt code_content file_path)
         [("temperature", OFloat (2 # 10)); ("top_p", OFloat (9 # 10));
          ("num_ctx", OInt 4096)])
      any_Exception
      (λ e, _ ← print w ("❌ Error generating summary: " +:+ exn_str e);
            Raise e).

(** The body of the [try] in the directory loop of [main]: the new value
    of [results].  The list is only appended to by the last statement, so
    an exception leaves it as it was. *)
Definition main_try (results : list string) (file_path : Path) : exc (list string) :=
  content ← open_read w (str file_path);
  if truthy (strip content) then
    summary ← summarize_code content (str file_path);
    Ok (results ++ ["## " +:+ name file_path +:+ nl +:+ nl +:+ summary +:+ nl])
  else Ok results.

(** One iteration of [for i, file_path in enumerate(files, 1)], where
    [n] is [len(files)]: the progress line, printed before the [try], then
    the [try] with its [except Exception] clause. *)
Definition main_step (n : Z) (results : list string) (i : Z)
    (file_path : Path) : exc (list string) :=
  _ ← print w (nl +:+ "📝 Processing " +:+ pretty i +:+ "/" +:+ pretty n
                 +:+ ": " +:+ name file_path);
  try_except (main_try results file_path) any_Exception
    (λ e, _ ← print w ("❌ Error processing " +:+ str file_path +:+ ": "
                         +:+ exn_str e);
          Ok (results ++ ["## " +:+ name file_path +:+ nl +:+ nl
                            +:+ "Error: " +:+ exn_str e +:+ nl])).

(** The directory branch of [main], from [results = []] to the end of the
    loop. *)
Definition main_results (files : list Path) : exc (list string) :=
  for_loop (λ results '(i, file_path),
              main_step (Z.of_nat (length files)) results i file_path)
           [] (enumerate 1 files).

(** [final_output] *)
Definition final_output (results : list string) : string := join nl results.

(** The outcome of the [try] body for the file whose path string is
    [file]. *)
Definition outcome_of (file : string) : outcome :=
  match open_read w file with
  | Raise e => Failed e
  | Ok content =>
      if truthy (strip content) then
        match summarize_code content file with
        | Ok summary => Summarized summary
        | Raise e => Failed e
        end
      else Skipped
  end.


End with_world.
End Simple.

(** ** src/local_code_summarizer.py *)
Module Local.
Section with_world.

Variable w : world.
Variable model_name : string.

Definition final_prompt (file_path : string) (chunk_summaries : list string) : string :=
  "Create a comprehensive summary from these sections of " +:+ file_path
    +:+ ":" +:+ nl +:+ nl
    +:+ join (nl +:+ nl)
          (imap (λ i summary,
                   "Section " +:+ pretty (Z.of_nat i + 1) +:+ ": " +:+ summary)
                chunk_summaries).

Definition summarize_large_code (code_content file_path : string)
    (chunk_size : Z) : exc string :=
  chunks ← chunks code_content chunk_size;
  _ ← print w ("📄 Processing " +:+ file_path +:+ " in "
                 +:+ pretty (Z.of_nat (length (chunks : list string)))
                 +:+ " chunks...");
  chunk_summaries ←
    mapM (λ ic : Z * string,
            _ ← print w ("Processing chunk " +:+ pretty ic.1 +:+ "/"
                           +:+ pretty (Z.of_nat (length chunks)));
            generate w model_name
              ("Summarize this code section from " +:+ file_path +:+ ":"
                 +:+ nl +:+ nl +:+ ic.2)
              [("num_gpu", OInt 1); ("temperature", OFloat (2 # 10))])
         (enumerate 1 chunks);
  generate w model_name (final_prompt file_path chunk_summaries)
    [("num_gpu", OInt 1)].

Definition prompt (code_content file_path : string) : string :=
  join nl
    [ "Analyze this code and provide a comprehensive summary:";
      "";
      "File: " +:+ file_path;
      "Code:";
      code_content;
      "";
      "Provide:";
      "1. **Purpose**: Main functionality";
      "2. **Key Components**: Important classes/functions  ";
      "3. **Technologies**: Languages and frameworks used";
      "4. **Architecture**: Design patterns";
      "5. **Complexity**: Low/Medium/High";
      "6. **Dependencies**: Required libraries";
      "";
      "Keep it concise but thorough." ].

(** [max_tokens] defaults to 4000. *)
Definition summarize_code (code_content file_path : string)
    (max_tokens : Z) : exc string :=
  if max_tokens <? len code_content then
    summarize_large_code code_content file_path 3000
  else
    try_except
      (_ ← match monitor_gpu w with
           | Some gpu_info =>
               print w ("🔧 GPU: " +:+ memory_percent_1f gpu_info
                          +:+ "% VRAM, " +:+ temp gpu_info +:+ "°C")
           | None => Ok tt
           end;
       generate w model_name (prompt code_content file_path)
         [("temperature", OFloat (2 # 10)); ("top_p", OFloat (9 # 10));
          ("num_ctx", OInt 4096); ("num_gpu", OInt 1); ("num_thread", OInt 6)])
      any_Exception
      (λ e, _ ← print w ("❌ Error generating summary: " +:+ exn_str e);
            Raise e).

(** The progress report at the end of the [try] body of
    [batch_summarize]. *)
Definition gpu_status : exc unit :=
  match monitor_gpu w with
  | Some gpu_info =>
      print w ("GPU Status: " +:+ memory_percent_1f gpu_info
                 +:+ "% VRAM used")
  | None => Ok tt
  end.

(** The body of the [try] in [batch_summarize]: the value of [results]
    when the body ends, and how it ends.  The mapping is assigned to before
    the progress report, so an exception of the report finds the summary
    already stored. *)
Definition batch_try (results : dict string) (file_path : Path)
    : dict string * exc unit :=
  match open_read w (str file_path) with
  | Raise e => (results, Raise e)
  | Ok content =>
      if truthy (strip content) then
        match summarize_code content (str file_path) 4000 with
        | Raise e => (results, Raise e)
        | Ok summary =>
            (dict_set results (str file_path) summary, gpu_status)
        end
      else (results, gpu_status)
  end.

(** One iteration of [for i, file_path in enumerate(file_paths, 1)], where
    [n] is [len(file_paths)]: the progress line, printed before the [try],
    then the [try] with its [except Exception] clause. *)
Definition batch_step (n : Z) (results : dict string) (i : Z)
    (file_path : Path) : exc (dict string) :=
  _ ← print w (nl +:+ "📝 Processing " +:+ pretty i +:+ "/" +:+ pretty n
                 +:+ ": " +:+ str file_path);
  let '(results, r) := batch_try results file_path in
  match r with
  | Ok _ => Ok results
  | Raise e =>
      _ ← print w ("❌ Error processing " +:+ str file_path +:+ ": "
                     +:+ exn_str e);
      Ok (dict_set results (str file_path) ("Error: " +:+ exn_str e))
  end.

(** The text written to [output_file]. *)
Definition report (results : dict string) : string :=
  join "" ((λ '(file_path, summary),
              "# " +:+ file_path +:+ nl +:+ nl +:+ summary +:+ nl +:+ nl
                +:+ "---" +:+ nl +:+ nl) <$> results).

Definition batch_summarize (file_paths : list Path)
    (output_file : option string) : exc (dict string) :=
  results ←
    for_loop (λ results '(i, file_path),
                batch_step (Z.of_nat (length file_paths)) results i file_path)
             [] (enumerate 1 file_paths);
  _ ← match output_file with
      | Some f =>
          if truthy f then
            _ ← open_write w f (report results);
            print w ("💾 Results saved to " +:+ f)
          else Ok tt
      | None => Ok tt
      end;
  Ok (results : dict string).

(** The outcome of the [try] body for the file whose path string is
    [file]: reading, summarizing and the progress report can each end it
    with an exception. *)
Definition outcome_of (file : string) : outcome :=
  match open_read w file with
  | Raise e => Failed e
  | Ok content =>
      if truthy (strip content) then
        match summarize_code content file 4000 with
        | Raise e => Failed e
        | Ok summary =>
            match gpu_status with
            | Ok _ => Summarized summary
            | Raise e => Failed e
            end
        end
      else
        match gpu_status with
        | Ok _ => Skipped
        | Raise e => Failed e
        end
  end.

(** The payload stored in the mapping for an outcome, if any. *)
Definition payload_of (o : outcome) : option string :=
  match o with
  | Skipped => None
  | Summarized summary => Some summary
  | Failed e => Some ("Error: " +:+ exn_str e)
  end.

(** What an iteration of the loop amounts to: the payload of the file's
    outcome is stored, or the mapping is left alone. *)
Definition record (results : dict string) (file_path : Path) : dict string :=
  match payload_of (outcome_of (str file_path)) with
  | Some v => dict_set results (str file_path) v
  | None => results
  end.


End with_world.
End Local.

(** ** src/ai_code_summary/files/file_manager.py *)
Module FileManager.

(** *** The directory tree on disk *)

(** A system call that fails: the [OSError] it raises is a
    [PermissionError] when [denied], and [msg] is its text. *)
Record os_failure := OsFailure { denied : bool; msg : string }.

Definition os_error (f : os_failure) : exn :=
  Exn (if denied f then PermissionError else OSError) (msg f).

(** What [stat()] does for an entry that is not a directory: it answers,
    with the size among other things; it raises an [OSError] that
    [is_dir()] and [exists()] take for "nothing there" (a dangling link, a
    file that has just gone); or it raises another [OSError], which they
    raise in turn (a link to a name that is too long, a link into a
    directory that cannot be searched). *)
Inductive stat_result :=
| St_size (st_size : Z)
| St_missing
| St_error (f : os_failure).

(** An entry that is not a directory, with what [stat()] does for it; a
    directory, with its entries in the order the operating system lists
    them; or a directory whose listing fails.  Links to directories and
    cycles are not modelled. *)
Inductive node :=
| File (name : string) (st : stat_result)
| Dir (name : string) (entries : list node)
| NoAccessDir (name : string) (f : os_failure).

Definition node_name (n : node) : string :=
  match n with
  | File name _ | Dir name _ | NoAccessDir name _ => name
  end.

(** Whether the entry is a directory: what [is_dir()] answers when it
    answers, and what [os.walk] takes the entry for, which reads an
    [OSError] of [entry.is_dir()] as "not a directory". *)
Definition is_dir (n : node) : bool :=
  match n with File _ _ => false | _ => true end.

(** The exception [item.is_dir()] and [path.exists()] raise for an entry,
    if any. *)
Definition stat_error (n : node) : option exn :=
  match n with
  | File _ (St_error f) => Some (os_error f)
  | _ => None
  end.

(** What the file manager needs from the operating system besides the
    directory tree. *)
Record os_env := OsEnv {
  (** [file_path.open("rb")] followed by [f.read()] *)
  open_rb : Path → exc (list Byte.byte);
  (** [bytes.decode("utf-8", errors="ignore")]: total, it never raises *)
  decode_utf8_ignore : list Byte.byte → string;
  (** the exception [output_file.open("w", encoding="utf-8")] raises, if any *)
  open_w_error : Path → option exn;
  (** the exception [f.write(content)] or leaving the [with] block raises
      for the opened file, if any *)
  write_error : Path → string → option exn;
}.

(** *** The registry and the file filter *)

Definition _CODE_EXTENSIONS : gset string :=
  {[ ".c"; ".cpp"; ".cs"; ".css"; ".default"; ".html"; ".java"; ".js";
     ".jsx"; ".md"; ".py"; ".toml"; ".ts"; ".tsx"; ".yml"; "Dockerfile" ]}.

Definition _is_code_file (file : Path) : bool :=
  bool_decide (suffix file ∈ _CODE_EXTENSIONS)
  || bool_decide (name file = "Dockerfile").

(** [os.walk(top)], top-down: one triple [(root, dirs, files)] per readable
    directory; a directory that cannot be listed, or a path that is not a
    directory, yields nothing. *)
Fixpoint os_walk (top : Path) (n : node) : list (Path * list string * list string) :=
  match n with
  | Dir _ entries =>
      (top,
       node_name <$> filter (λ e, is_dir e) entries,
       node_name <$> filter (λ e, ¬ is_dir e) entries)
      :: flat_map (λ child,
                     if is_dir child
                     then os_walk (path_join top (node_name child)) child
                     else [])
                  entries
  | File _ _ | NoAccessDir _ _ => []
  end.

(** The tests of the last comprehension of [get_code_files], in order;
    [relative_to] may raise. *)
Fixpoint filter_spec (match_file : Path → bool) (base_dir : Path)
    (code_files : list Path) : exc (list Path) :=
  match code_files with
  | [] => Ok []
  | file :: rest =>
      rel ← relative_to file base_dir;
      kept ← filter_spec match_file base_dir rest;
      Ok (if match_file rel then kept else file :: (kept : list Path))
  end.

(** [[Path(root) / file for root, _, files in os.walk(base_dir)
       for file in files]] *)
Definition all_files (top : Path) (n : node) : list Path :=
  flat_map (λ '(root, _, files), path_join root <$> files) (os_walk top n).

(** [directory] is the tree found at [base_dir = Path(directory)], and
    [match_file] is [spec.match_file]. *)
Definition get_code_files (base_dir : Path) (directory : node)
    (match_file : Path → bool) : exc (list Path) :=
  let all_files := all_files base_dir directory in
  let code_files := filter (λ file, _is_code_file file) all_files in
  filter_spec match_file base_dir code_files.

(** *** Reading and staging *)
Section with_env.

Variable env : os_env.

Definition read_file (file_path : Path) (tree : string) (append_tree : bool)
    : exc (Path * string) :=
  content ←
    try_except
      (raw ← open_rb env file_path;
       let content := decode_utf8_ignore env raw in
       Ok (if append_tree
           then str file_path +:+ nl +:+ tree +:+ nl +:+ content
           else content))
      (λ e, isinstance e OSError || isinstance e UnicodeDecodeError)
      (λ e, Ok "");
  Ok (file_path, content : string).

(** The staging directory: the text of every file written, by path
    string. *)
Definition _write_file (file_info : Path * string) (base_dir output_dir : Path)
    (staged : gmap string string) : exc (gmap string string) :=
  let '(file_path, content) := file_info in
  relative_path ← relative_to file_path base_dir;
  let output_file := path_join_name output_dir (name relative_path) in
  match open_w_error env output_file with
  | Some e => Raise e
  | None =>
      match write_error env output_file content with
      | Some e => Raise e
      | None => Ok (<[str output_file := content]> staged)
      end
  end.

(** Opening and reading a file fails with the errors the [except] clause
    of [read_file] names, [OSError] and [UnicodeDecodeError] and their
    subclasses, and with nothing else. *)
Definition io_errors_only : Prop :=
  ∀ p e, open_rb env p = Raise e →
         isinstance e OSError || isinstance e UnicodeDecodeError = true.

(** No write to the staging directory fails, neither when the file is
    opened nor when the text is written. *)
Definition writes_succeed : Prop :=
  ∀ p content, open_w_error env p = None ∧ write_error env p content = None.

(** The content [read_file] hands on for a file when [append_tree] is
    left at its default. *)
Definition staged_text (tree : string) (file_path : Path) : string :=
  match open_rb env file_path with
  | Ok raw =>
      str file_path +:+ nl +:+ tree +:+ nl +:+ decode_utf8_ignore env raw
  | Raise _ => ""
  end.

(** The path string a file is staged at: the output directory and the
    name of the file's path relative to [base_dir]. *)
Definition staged_at (base_dir output_dir file_path : Path) : string :=
  str (path_join_name output_dir
         (name (MkPath "" (default [] (below file_path base_dir))))).

Definition write_files_to_tmp_directory (directory : Path) (tree_on_disk : node)
    (match_file : Path → bool) (base_dir output_temp_code_dir : Path)
    (tree : string) (staged : gmap string string) : exc (gmap string string) :=
  code_files ← get_code_files directory tree_on_disk match_file;
  file_contents ← mapM (λ file_path, read_file file_path tree true)
                       (code_files : list Path);
  for_loop (λ staged file_info,
              _write_file file_info base_dir output_temp_code_dir staged)
           staged (file_contents : list (Path * string)).

End with_env.

(** *** The tree renderer *)

(** A value of the [structure] dictionary:
    [{'type': ..., 'size': ..., 'children': {...}}]. *)
Inductive data :=
| Data (type : string) (size : Z) (children : list (string * data)).

Definition data_type (d : data) : string := let 'Data t _ _ := d in t.
Definition data_size (d : data) : Z := let 'Data _ s _ := d in s.
Definition data_children (d : data) : dict data := let 'Data _ _ c := d in c.

Definition _should_include (show_hidden : bool) (name : string) : bool :=
  show_hidden || negb (startswith name ".").

(** [(not x.is_dir(), x.name.lower())], when [is_dir()] answers. *)
Definition sort_key (n : node) : bool * string :=
  (negb (is_dir n), lower (node_name n)).

(** Order of the sort keys: tuples compare component by component, [False]
    before [True], strings by code point. *)
Definition key_le (a b : bool * string) : bool :=
  match a.1, b.1 with
  | false, true => true
  | true, false => false
  | _, _ => String.leb a.2 b.2
  end.

Fixpoint insert_by {A} (key : A → bool * string) (x : A) (l : list A) : list A :=
  match l with
  | [] => [x]
  | y :: l' =>
      if key_le (key x) (key y) then x :: y :: l'
      else y :: insert_by key x l'
  end.

(** [l.sort(key=key)] for a key that answers: a stable sort. *)
Definition sort_by {A} (key : A → bool * string) (l : list A) : list A :=
  foldr (insert_by key) [] l.

(** [items.sort(key=lambda x: (not x.is_dir(), x.name.lower()))]: the key
    of every item is computed first, in list order, and an [is_dir()] that
    raises ends the sort before anything is moved. *)
Definition sort_items (items : list (node * dict data))
    : exc (list (node * dict data)) :=
  _ ← mapM (λ p : node * dict data,
              match stat_error p.1 with
              | Some e => Raise e
              | None => Ok (sort_key p.1)
              end) items;
  Ok (sort_by (λ p, sort_key p.1) items).

(** [max_depth is not None and current_depth >= max_depth] *)
Definition depth_reached (max_depth : option Z) (current_depth : Z) : bool :=
  match max_depth with
  | Some m => m <=? current_depth
  | None => false
  end.

(** The body of the inner [try] of [_scan_directory] for one item, given
    the scan of the item when it is a directory.  An [OSError] of
    [is_dir()] or of [stat()] is caught there, and the loop goes on with
    the next item. *)
Definition scan_item (structure : dict data) (item : node) (sub : dict data)
    : dict data :=
  match item with
  | File name (St_size st_size) =>
      dict_set structure name (Data "file" st_size [])
  | File _ St_missing | File _ (St_error _) => structure
  | Dir name _ | NoAccessDir name _ =>
      dict_set structure name (Data "directory" 0 sub)
  end.

(** [_scan_directory].  The scan of each entry is paired with the entry
    before the entries are filtered and sorted, so that the recursion is on
    the entries of [path]; the scan reads the tree only, so the result is the
    one of scanning each directory when the loop reaches it.  An [OSError]
    of [iterdir()] or of the sort is caught by the outer [except] clause,
    with [structure] still empty. *)
Fixpoint _scan_directory (max_depth : option Z) (show_hidden : bool)
    (path : node) (current_depth : Z) : dict data :=
  if depth_reached max_depth current_depth then []
  else
    match path with
    | Dir _ entries =>
        let scanned :=
          (λ item, (item, _scan_directory max_depth show_hidden item
                            (current_depth + 1))) <$> entries in
        let items :=
          filter (λ p, _should_include show_hidden (node_name p.1)) scanned in
        match sort_items items with
        | Ok items =>
            foldl (λ structure '(item, sub), scan_item structure item sub)
                  [] items
        | Raise _ => []
        end
    | File _ _ | NoAccessDir _ _ => []
    end.

(** A float is the dyadic rational [mant / 2^expo] it denotes.  Conversion
    from an integer rounds to 53 significant bits (to nearest, ties to
    even); division by [1024.0] and comparison with [1024.0] are exact. *)
Record float := Float { mant : Z; expo : Z }.

(** [float(n)] *)
Definition float_of_int (n : Z) : float :=
  let k := Z.log2 (Z.abs n) - 52 in
  if k <=? 0 then Float n 0
  else
    let q := n / 2 ^ k in
    let r := n mod 2 ^ k in
    let half := 2 ^ (k - 1) in
    let q' := if r <? half then q
              else if half <? r then q + 1
              else if Z.even q then q else q + 1 in
    Float (q' * 2 ^ k) 0.

(** [x >= 1024.0] *)
Definition ge_1024 (x : float) : bool := 2 ^ (expo x + 10) <=? mant x.

(** [x / 1024.0] *)
Definition div_1024 (x : float) : float := Float (mant x) (expo x + 10).

(** [int(x)]: truncation towards zero. *)
Definition int_of_float (x : float) : Z := Z.quot (mant x) (2 ^ expo x).

(** [f"{x:.1f}"] for [x >= 0]: the value rounded to one decimal, ties to
    even. *)
Definition format_1f (x : float) : string :=
  let den := 2 ^ expo x in
  let t := 10 * mant x in
  let q := t / den in
  let r := t mod den in
  let tenths := if 2 * r <? den then q
                else if den <? 2 * r then q + 1
                else if Z.even q then q else q + 1 in
  pretty (tenths / 10) +:+ "." +:+ pretty (tenths mod 10).

Definition size_names : list string := ["B"; "KB"; "MB"; "GB"; "TB"].

(** The [while] loop of [_format_size]; every iteration increments [i], so
    [len(size_names) - 1] iterations are all it can make from [i = 0]. *)
Fixpoint scale (fuel : nat) (size : float) (i : Z) : float * Z :=
  match fuel with
  | O => (size, i)
  | S fuel' =>
      if ge_1024 size && (i <? Z.of_nat (length size_names) - 1)
      then scale fuel' (div_1024 size) (i + 1)
      else (size, i)
  end.

Definition _format_size (size_bytes : Z) : string :=
  if size_bytes =? 0 then "0 B"
  else
    let '(size, i) := scale 4 (float_of_int size_bytes) 0 in
    let unit := default "" (size_names !! Z.to_nat i) in
    if i =? 0 then pretty (int_of_float size) +:+ " " +:+ unit
    else format_1f size +:+ " " +:+ unit.

(** [line_prefix] as built at the top of the loop body of [_format_tree]. *)
Definition line_prefix (is_last_list : list bool) (is_last : bool) : string :=
  foldl (λ acc (is_ancestor_last : bool),
           acc +:+ (if is_ancestor_last then "    " else "│   "))
        "" is_last_list
  +:+ (if is_last then "└── " else "├── ").

(** [for i, (name, data) in enumerate(items)] with
    [is_last = i == len(items) - 1]. *)
Fixpoint for_items {A B} (body : string → A → bool → list B)
    (items : list (string * A)) : list B :=
  match items with
  | [] => []
  | (name, x) :: rest => body name x (bool_decide (rest = [])) ++ for_items body rest
  end.

(** The loop body of [_format_tree]: the lines for one item. *)
Fixpoint format_item (name : string) (d : data) (is_last : bool)
    (prefix : string) (is_last_list : list bool) : list string :=
  match d with
  | Data type size children =>
      if decide (type = "directory") then
        (line_prefix is_last_list is_last +:+ name +:+ "/")
        :: for_items (λ name' d' is_last',
                        format_item name' d' is_last'
                          (prefix +:+ (if is_last then "    " else "│   "))
                          (is_last_list ++ [is_last]))
                     children
      else
        let size_info :=
          if 0 <? size then " [" +:+ _format_size size +:+ "]" else "" in
        [line_prefix is_last_list is_last +:+ name +:+ size_info]
  end.

Definition _format_tree (structure : dict data) (prefix : string)
    (is_last_list : list bool) : list string :=
  for_items (λ name d is_last, format_item name d is_last prefix is_last_list)
            structure.

(** What [count_items] adds for one value of the dictionary. *)
Fixpoint count_items_below (d : data) : Z :=
  match d with
  | Data type _ children =>
      if decide (type = "directory") then
        foldl (λ count '(_, item_data), count + count_items_below item_data)
              (Z.of_nat (length children)) children
      else 0
  end.

Definition count_items (struct : dict data) : Z :=
  foldl (λ count '(_, item_data), count + count_items_below item_data)
        (Z.of_nat (length struct)) struct.

(** What [count_types] adds to [(dirs, files)] for one value. *)
Fixpoint count_types_of (d : data) : Z * Z :=
  match d with
  | Data type _ children =>
      if decide (type = "directory") then
        let '(sub_dirs, sub_files) :=
          foldl (λ '(dirs, files) '(_, item_data),
                   let '(a, b) := count_types_of item_data in
                   (dirs + a, files + b))
                (0, 0) children in
        (1 + sub_dirs, sub_files)
      else (0, 1)
  end.

Definition count_types (struct : dict data) : Z * Z :=
  foldl (λ '(dirs, files) '(_, item_data),
           let '(a, b) := count_types_of item_data in
           (dirs + a, files + b))
        (0, 0) struct.


(** [get_tree].  [resolved] is what [Path(folder_path).resolve()] denotes on
    disk, [None] when nothing is there.  An exception of [exists()] is
    caught by the [except Exception] clause, which returns its text. *)
Definition get_tree (folder_path : string) (resolved : option node)
    (show_hidden : bool) (max_depth : option Z) : string :=
  match resolved with
  | None | Some (File _ St_missing) =>
      "Error: Path '" +:+ folder_path +:+ "' does not exist."
  | Some (File _ (St_error f)) => "Error: " +:+ msg f
  | Some (File _ (St_size _)) =>
      "Error: Path '" +:+ folder_path +:+ "' is not a directory."
  | Some path =>
      let structure := _scan_directory max_depth show_hidden path 0 in
      match structure with
      | [] => node_name path +:+ "/" +:+ nl +:+ "└── (empty directory)"
      | _ =>
          let total_items := count_items structure in
          let '(dir_count, file_count) := count_types structure in
          let result :=
            [ node_name path +:+ "/";
              "├── Total items: " +:+ pretty total_items;
              "├── Directories: " +:+ pretty dir_count;
              "└── Files: " +:+ pretty file_count;
              "" ] in
          join nl (result ++ _format_tree structure "" [])
      end
  end.

(** *** Vocabulary for the statements about the rendered tree *)

(** The entries of a structure in the order they are rendered, each with
    its nesting depth; the entries of the root have depth 1.  Children are
    listed under directories only, as the renderer and the counters visit
    them. *)
Fixpoint entries_of (depth : nat) (name : string) (d : data)
    : list (nat * string * data) :=
  match d with
  | Data type _ children =>
      (depth, name, d)
      :: (if decide (type = "directory")
          then flat_map (λ '(name', d'), entries_of (S depth) name' d') children
          else [])
  end.

Definition listing (depth : nat) (structure : dict data)
    : list (nat * string * data) :=
  flat_map (λ '(name, d), entries_of depth name d) structure.

Definition entry_depth (e : nat * string * data) : nat := e.1.1.
Definition entry_data (e : nat * string * data) : data := e.2.

Definition is_directory (d : data) : bool :=
  bool_decide (data_type d = "directory").

(** The line the renderer writes for one entry, after its indentation. *)
Definition entry_label (name : string) (d : data) : string :=
  if is_directory d then name +:+ "/"
  else name +:+ (if 0 <? data_size d
                 then " [" +:+ _format_size (data_size d) +:+ "]"
                 else "").

(** [renders line e]: [line] is the line of entry [e], indented for the
    depth of [e]. *)
Definition renders (line : string) (e : nat * string * data) : Prop :=
  ∃ is_last_list is_last,
    S (length is_last_list) = entry_depth e
    ∧ line = line_prefix is_last_list is_last
               +:+ entry_label e.1.2 (entry_data e).

(** The shape of a value of the structure: a directory has size 0, a file
    has no children. *)
Definition entry_ok (d : data) : Prop :=
  (data_type d = "directory" ∧ data_size d = 0)
  ∨ (data_type d = "file" ∧ data_children d = []).

(** What a scan holds from depth [k] on: entries no deeper than the limit,
    directories of size 0 and files without children. *)
Definition scanned_ok (max_depth : option Z) (k : nat)
    (e : nat * string * data) : Prop :=
  (k ≤ entry_depth e)%nat
  ∧ (∀ D, max_depth = Some D → Z.of_nat (entry_depth e) ≤ D)
  ∧ entry_ok (entry_data e).

(** The number of directory entries and of file entries of a listing. *)
Definition dirs_in (l : list (nat * string * data)) : Z :=
  Z.of_nat (length (filter (λ e, is_directory (entry_data e)) l)).
Definition files_in (l : list (nat * string * data)) : Z :=
  Z.of_nat (length (filter (λ e, ¬ is_directory (entry_data e)) l)).


(** The tree with everything below nesting depth [d] removed. *)
Fixpoint prune (d : Z) (n : node) : node :=
  match n with
  | Dir name entries =>
      Dir name (if d <=? 0 then [] else prune (d - 1) <$> entries)
  | File _ _ | NoAccessDir _ _ => n
  end.

(** Pruning the entry of a scanned pair.  It keeps names, kinds and sizes,
    which is all that filtering, sorting and recording an item look at. *)
Definition pruned (k : Z) (p : node * dict data) : node * dict data :=
  (prune k p.1, p.2).

(** *** Vocabulary for the statements about the directory tree *)

(** [resolves root rel n]: following the components [rel] down from the
    directory [root] leads to the entry [n]. *)
Inductive resolves : node → list string → node → Prop :=
| resolves_entry nm entries child :
    child ∈ entries →
    resolves (Dir nm entries) [node_name child] child
| resolves_below nm entries child rel n :
    child ∈ entries →
    resolves child rel n →
    resolves (Dir nm entries) (node_name child :: rel) n.

(** A tree as a file system has it: the entries of a directory have
    distinct names. *)
Inductive wf : node → Prop :=
| wf_File nm st : wf (File nm st)
| wf_NoAccessDir nm f : wf (NoAccessDir nm f)
| wf_Dir nm entries :
    NoDup (node_name <$> entries) → Forall wf entries → wf (Dir nm entries).

End FileManager.

(** ** Concrete worlds for the examples *)

(** A disk with one readable file, [/r/a.py], holding the single character
    [C]; every other path fails to open.  Its text is ASCII, on which the
    UTF-8 codec is the identity.  Every write succeeds. *)
Definition demo_env : FileManager.os_env :=
  {| FileManager.open_rb := λ p,
       if decide (str p = "/r/a.py") then Ok (String.list_byte_of_string "C")
       else Raise (Exn OSError "[Errno 2] No such file or directory");
     FileManager.decode_utf8_ignore := λ raw,
       String.string_of_list_byte
         (List.filter (λ b, (Byte.to_N b <? 128)%N) raw);
     FileManager.open_w_error := λ _, None;
     FileManager.write_error := λ _ _, None |}.

Definition demo_file : Path := MkPath "/" ["r"; "a.py"].

(** A batch of three files: [a.py] cannot be read, [b.py] holds
    [print(1)], [c.py] holds blanks only; the backend always answers, the
    console takes every line and there is no GPU. *)
Definition demo_world : world :=
  {| generate := λ _ _ _, Ok "a summary";
     open_read := λ file,
       if decide (file = "a.py")
       then Raise (Exn OSError "[Errno 13] Permission denied: 'a.py'")
       else if decide (file = "c.py") then Ok "   " else Ok "print(1)";
     open_write := λ _ _, Ok tt;
     print := λ _, Ok tt;
     monitor_gpu := None |}.

Definition demo_paths : list Path :=
  [MkPath "" ["a.py"]; MkPath "" ["b.py"]; MkPath "" ["c.py"]].


(** The world of [demo_world] in a directory that cannot be written. *)
Definition readonly_world : world :=
  {| generate := generate demo_world;
     open_read := open_read demo_world;
     open_write := λ f _,
       Raise (Exn PermissionError
                ("[Errno 13] Permission denied: '" +:+ f +:+ "'"));
     print := print demo_world;
     monitor_gpu := None |}.

(** The content of the end-to-end example: 5000 times the character [x]. *)
Definition x5000 : string :=
  string_of_list_ascii (replicate 5000 "x"%char).

(** The tree of the rendering example, with a nested directory added. *)
Definition demo_tree : FileManager.node :=
  FileManager.Dir "proj"
    [ FileManager.File "x.txt" (FileManager.St_size 2048);
      FileManager.Dir "docs" [];
      FileManager.Dir "src"
        [FileManager.File "main.py" (FileManager.St_size 1536);
         FileManager.File "Dockerfile" (FileManager.St_size 0)] ].


(** A backend that answers the single-shot analysis request and refuses
    every other request; it tells the two paths of [summarize_code] apart. *)
Definition probe_world : world :=
  {| generate := λ _ prompt _,
       if String.prefix "Analyze" prompt then Ok "ok"
       else Raise (Exn BackendError "refused");
     open_read := λ _, Ok "";
     open_write := λ _ _, Ok tt;
     print := λ _, Ok tt;
     monitor_gpu := None |}.

(** ** File discovery in the directory branch of both [main]s

    [path.glob] and [path.rglob] as [pathlib] has them in Python 3.11, for
    the patterns [f"*{ext}"] of [main]. *)
Module Discovery.
Import FileManager.

(** The [extensions] set of [main], the same in both summarizers.  Python
    iterates a set in an order of its own, so the statements about the
    loops over it take the order as a list that is a permutation of this
    one. *)
Definition extensions : list string :=
  [".py"; ".java"; ".js"; ".cpp"; ".c"; ".h"; ".cs"; ".go"; ".rs"; ".php";
   ".ts"; ".jsx"; ".tsx"].

(** [name.endswith(ext)]: what the pattern [f"*{ext}"] asks of a name when
    [ext] holds no wildcard character. *)
Definition endswith (s ext : string) : bool :=
  bool_decide (chars ext `suffix_of` chars s).

(** The selector of the pattern [f"*{ext}"] on one directory: the entries,
    files and directories alike, whose name matches, in listing order.  A
    [PermissionError] of the listing is swallowed, another [OSError] is
    not. *)
Definition select_wildcard (path : Path) (n : node) (ext : string)
    : exc (list Path) :=
  match n with
  | Dir _ entries =>
      Ok ((λ e, path_join path (node_name e))
            <$> filter (λ e, endswith (node_name e) ext) entries)
  | NoAccessDir _ f => if denied f then Ok [] else Raise (os_error f)
  | File _ _ => Ok []
  end.

(** [select_from] asks [is_dir()] of the path it starts from, outside any
    [try]. *)
Definition starts_from (n : node) (search : exc (list Path)) : exc (list Path) :=
  match stat_error n with
  | Some e => Raise e
  | None => if is_dir n then search else Ok []
  end.

(** [path.glob(f"*{ext}")] *)
Definition glob (path : Path) (n : node) (ext : string) : exc (list Path) :=
  starts_from n (select_wildcard path n ext).

(** The directories [_iterate_directories] yields from [parent_path] down,
    [parent_path] first, then those below each subdirectory in turn; and
    the exception that ends the iteration, if any.  For each entry the
    generator asks [entry.is_dir()]: a [PermissionError] ends the directory
    at hand silently, another [OSError] that is not ignored leaves the
    generator. *)
Fixpoint iterate_directories (parent_path : Path) (n : node)
    : list (Path * node) * option exn :=
  match n with
  | Dir _ entries =>
      let fix go (entries : list node) : list (Path * node) * option exn :=
        match entries with
        | [] => ([], None)
        | entry :: rest =>
            match entry with
            | File _ (St_error f) =>
                if denied f then ([], None) else ([], Some (os_error f))
            | File _ _ => go rest
            | Dir _ _ | NoAccessDir _ _ =>
                let '(found, err) :=
                  iterate_directories
                    (path_join parent_path (node_name entry)) entry in
                match err with
                | Some e => (found, Some e)
                | None => let '(more, err') := go rest in (found ++ more, err')
                end
            end
        end in
      let '(found, err) := go entries in ((parent_path, n) :: found, err)
  | NoAccessDir _ f =>
      ([(parent_path, n)], if denied f then None else Some (os_error f))
  | File _ _ => ([(parent_path, n)], None)
  end.

(** The paths of a list, each at its first occurrence: what the set
    [yielded] of the recursive selector lets through. *)
Definition first_occurrences (l : list Path) : list Path :=
  foldl (λ seen p, if decide (p ∈ seen) then seen else seen ++ [p]) [] l.

(** [path.rglob(f"*{ext}")], consumed to its end: the matches of the
    directory itself, then those of each directory below it, in the order
    [_iterate_directories] yields them. *)
Definition rglob (path : Path) (n : node) (ext : string) : exc (list Path) :=
  starts_from n
    (let '(dirs, err) := iterate_directories path n in
     found ← mapM (λ d : Path * node, select_wildcard d.1 d.2 ext) dirs;
     match err with
     | Some e => Raise e
     | None => Ok (first_occurrences (concat (found : list (list Path))))
     end).

(** [files] at the end of the loop over [extensions], which visits them
    in the order [exts]; an exception of [glob] or [rglob] leaves [main]. *)
Definition discover (recursive : bool) (path : Path) (n : node)
    (exts : list string) : exc (list Path) :=
  found ← mapM (λ ext, if recursive then rglob path n ext
                       else glob path n ext) exts;
  Ok (concat (found : list (list Path))).

(** The relative paths of the entries for which [P] holds, in the order a
    top-down walk meets them: the entries of a directory first, then its
    subdirectories one after the other. *)
Fixpoint rels (P : node → bool) (n : node) : list (list string) :=
  match n with
  | Dir _ entries =>
      ((λ e, [node_name e]) <$> filter (λ e, P e) entries)
      ++ (entries ≫= λ child,
            if is_dir child
            then (λ rel, node_name child :: rel) <$> rels P child
            else [])
  | File _ _ | NoAccessDir _ _ => []
  end.

(** A tree on which [rglob] meets no error it does not swallow without
    loss: [stat()] raises for no entry, unless it is an error [is_dir()]
    ignores, and a directory that cannot be listed refuses with
    [PermissionError]. *)
Fixpoint searchable (n : node) : bool :=
  match n with
  | File _ (St_error _) => false
  | File _ _ => true
  | NoAccessDir _ f => denied f
  | Dir _ entries => forallb searchable entries
  end.

End Discovery.

(** ** Further vocabulary for the corpus writer and the tree renderer *)

(** [p / rel[0] / rel[1] / ...]: the path [rel] leads to from [p]. *)
Definition descend (p : Path) (rel : list string) : Path :=
  MkPath (root p) (names p ++ rel).

(** The path [_write_file] opens for a file: [output_dir /
    relative_path.name]. *)
Definition staging_path (base_dir output_dir file_path : Path) : Path :=
  path_join_name output_dir
    (name (MkPath "" (default [] (below file_path base_dir)))).


(** The disk of [demo_env] with a staging directory that runs out of space
    when the text of [/tmp/out/Dockerfile] is written: the file is opened,
    and the write fails. *)
Definition full_disk_env : FileManager.os_env :=
  {| FileManager.open_rb := FileManager.open_rb demo_env;
     FileManager.decode_utf8_ignore := FileManager.decode_utf8_ignore demo_env;
     FileManager.open_w_error := λ _, None;
     FileManager.write_error := λ p _,
       if decide (str p = "/tmp/out/Dockerfile")
       then Some (Exn OSError "[Errno 28] No space left on device")
       else None |}.


(** The disk of [demo_env] as [open] sees it: a path that holds a null
    character is refused with [ValueError] before the disk is asked. *)
Definition null_byte_env : FileManager.os_env :=
  {| FileManager.open_rb := λ p,
       if existsb (λ c, (N_of_ascii c =? 0)%N) (chars (str p))
       then Raise (Exn ValueError "embedded null byte")
       else FileManager.open_rb demo_env p;
     FileManager.decode_utf8_ignore := FileManager.decode_utf8_ignore demo_env;
     FileManager.open_w_error := λ _, None;
     FileManager.write_error := λ _ _, None |}.

(** The path of a file whose name holds a null character. *)
Definition null_byte_path : Path :=
  MkPath "" [String "a" (String "000" ".py")].


(** The tree without its hidden entries, at every depth. *)
Fixpoint drop_hidden (n : FileManager.node) : FileManager.node :=
  match n with
  | FileManager.Dir name entries =>
      FileManager.Dir name
        (filter (λ e, negb (startswith (FileManager.node_name e) "."))
                (drop_hidden <$> entries))
  | FileManager.File _ _ | FileManager.NoAccessDir _ _ => n
  end.

(** The tree with every directory that cannot be listed taken for an empty
    one. *)
Fixpoint as_empty (n : FileManager.node) : FileManager.node :=
  match n with
  | FileManager.Dir name entries => FileManager.Dir name (as_empty <$> entries)
  | FileManager.NoAccessDir name _ => FileManager.Dir name []
  | FileManager.File _ _ => n
  end.

(** A change of the entry of a scanned pair. *)
Definition on_item (h : FileManager.node → FileManager.node)
    (p : FileManager.node * dict FileManager.data)
    : FileManager.node * dict FileManager.data :=
  (h p.1, p.2).

(** Whether [stat()] answers for an entry. *)
Definition stat_ok (e : FileManager.node) : bool :=
  match e with
  | FileManager.File _ (FileManager.St_size _) => true
  | FileManager.File _ _ => false
  | _ => true
  end.

(** Whether [is_dir()] raises for an entry. *)
Definition stat_raises (e : FileManager.node) : bool :=
  bool_decide (is_Some (FileManager.stat_error e)).

(** What the loop of [_scan_directory] records for an item, if
    anything. *)
Definition entry_of (item : FileManager.node) (sub : dict FileManager.data)
    : option (string * FileManager.data) :=
  match item with
  | FileManager.File name (FileManager.St_size st_size) =>
      Some (name, FileManager.Data "file" st_size [])
  | FileManager.File _ _ => None
  | FileManager.Dir name _ | FileManager.NoAccessDir name _ =>
      Some (name, FileManager.Data "directory" 0 sub)
  end.

(** The sort key as read off a recorded entry: files after directories,
    then the lower-cased name. *)
Definition entry_key (p : string * FileManager.data) : bool * string :=
  (negb (FileManager.is_directory p.2), lower p.1).

(** * Properties *)

(** ** Python runtime: slices and ranges *)
Section slices.

Lemma chars_inj s t : chars s = chars t → s = t.
Proof.
  intros H. rewrite <- (string_of_list_ascii_of_string s),
    <- (string_of_list_ascii_of_string t). unfold chars in H. by rewrite H.
Qed.

Lemma chars_app s t : chars (s +:+ t) = chars s ++ chars t.
Proof. induction s as [|c s IH]; simpl; [done|]. by rewrite <- IH. Qed.

Lemma chars_length s : length (chars s) = String.length s.
Proof. induction s; simpl; auto. Qed.

Lemma chars_substring n m s :
  chars (substring n m s) = take m (drop n (chars s)).
Proof.
  revert n m. induction s as [|c s IH]; intros [|n] [|m]; simpl; try done.
  by rewrite (IH 0%nat m), drop_0.
Qed.

Lemma chars_slice s i j :
  0 ≤ i → 0 ≤ j →
  chars (slice s i j)
  = take (Z.to_nat j - Z.to_nat i) (drop (Z.to_nat i) (chars s)).
Proof.
  intros Hi Hj. unfold slice, clamp, len. rewrite chars_substring.
  pose proof (chars_length s) as Hlen.
  destruct (Z.ltb_spec i 0), (Z.ltb_spec j 0); try lia.
  destruct (Z.le_gt_cases i (Z.of_nat (String.length s))) as [Hin|Hin].
  - rewrite (Z.min_l i) by lia.
    destruct (Z.le_gt_cases j (Z.of_nat (String.length s))) as [Hjn|Hjn].
    + rewrite (Z.min_l j) by lia. f_equal. lia.
    + rewrite (Z.min_r j) by lia.
      rewrite !take_ge; [done | |]; rewrite length_drop; lia.
  - rewrite (Z.min_r i) by lia.
    rewrite !drop_ge, !take_nil by lia. done.
Qed.

Lemma len_slice s i j :
  0 ≤ i → 0 ≤ j →
  len (slice s i j) = Z.max 0 (Z.min j (len s) - Z.min i (len s)).
Proof.
  intros Hi Hj. unfold len at 1. rewrite <- chars_length, chars_slice by done.
  rewrite length_take, length_drop, chars_length. unfold len. lia.
Qed.

Lemma join_cons sep x y l : join sep (x :: y :: l) = x +:+ sep +:+ join sep (y :: l).
Proof. done. Qed.

Lemma chars_join_empty l : chars (join "" l) = concat (chars <$> l).
Proof.
  induction l as [|x l IH]; [done|]. destruct l as [|y l].
  - simpl. by rewrite app_nil_r.
  - rewrite join_cons, !chars_app, fmap_cons, concat_cons, IH. done.
Qed.

(** Consecutive windows of width [w] tile a list. *)
Lemma windows_tile {A} (w m : nat) (l : list A) :
  (length l ≤ m * w)%nat →
  concat ((λ k, take w (drop (k * w) l)) <$> seq 0 m) = l.
Proof.
  revert l. induction m as [|m IH]; intros l Hl.
  - destruct l; simpl in *; [done | lia].
  - rewrite <- cons_seq, fmap_cons, concat_cons, <- fmap_S_seq, <- list_fmap_compose.
    change (0 * w)%nat with 0%nat. rewrite drop_0.
    transitivity (take w l ++ drop w l); [|apply take_drop]. f_equal.
    transitivity (concat ((λ k, take w (drop (k * w) (drop w l))) <$> seq 0 m)).
    + f_equal. apply list_fmap_ext. intros _ k _. simpl.
      by rewrite drop_drop.
    + apply IH. rewrite length_drop; simpl in Hl; lia.
Qed.

End slices.

(** ** Chunking *)
Section chunking.

(** With a positive width the range is [0, W, 2W, ...] below [len]. *)
Lemma range_len_pos n W :
  0 ≤ n → 1 ≤ W → range_len 0 n W = (n + W - 1) / W.
Proof.
  intros Hn HW. unfold range_len.
  destruct (Z.ltb_spec 0 W); [|lia].
  destruct (Z.ltb_spec 0 n).
  - replace (n + W - 1) with ((n - 0 - 1) + 1 * W) by lia.
    rewrite Z.div_add by lia. done.
  - assert (n = 0) as -> by lia. rewrite Z.div_small; lia.
Qed.

Lemma chunks_eq content W :
  1 ≤ W →
  chunks content W
  = Ok ((λ k : nat, slice content (Z.of_nat k * W) (Z.of_nat k * W + W))
          <$> seq 0 (Z.to_nat ((len content + W - 1) / W))).
Proof.
  intros HW. unfold chunks, range.
  destruct (Z.eqb_spec W 0); [lia|]. simpl.
  rewrite range_len_pos by (unfold len; lia).
  f_equal. rewrite <- list_fmap_compose. done.
Qed.

Lemma chars_chunk content W (k : nat) :
  1 ≤ W →
  chars (slice content (Z.of_nat k * W) (Z.of_nat k * W + W))
  = take (Z.to_nat W) (drop (k * Z.to_nat W) (chars content)).
Proof.
  intros HW. rewrite chars_slice by lia.
  f_equal; [|f_equal]; lia.
Qed.

Lemma len_chunk content W (k : nat) :
  1 ≤ W →
  len (slice content (Z.of_nat k * W) (Z.of_nat k * W + W))
  = Z.max 0 (Z.min W (len content - Z.of_nat k * W)).
Proof.
  intros HW. unfold len at 1. rewrite <- chars_length, chars_chunk by done.
  rewrite length_take, length_drop, chars_length. unfold len. lia.
Qed.

End chunking.

(** What the chunking step produces for a positive width: chunk [k] is
    the slice [content[k*W : k*W+W]], it is never empty, and only the last
    one can be shorter than [W]. *)
Lemma chunks_pieces (content : string) (W : Z) :
  1 ≤ W →
  ∃ cs : list string,
    chunks content W = Ok cs
    ∧ chars (join "" cs) = chars content
    ∧ Z.of_nat (length cs) = (len content + W - 1) / W
    ∧ ∀ (k : nat) (c : string), cs !! k = Some c →
        c = slice content (Z.of_nat k * W) (Z.of_nat k * W + W)
        ∧ 1 ≤ len c ≤ W
        ∧ ((S k < length cs)%nat → len c = W).
Proof.
  intros HW. eexists. split; [by apply chunks_eq|].
  assert (Hn : 0 ≤ len content) by (unfold len; lia).
  set (m := (len content + W - 1) / W).
  assert (Hm : m * W ≤ len content + W - 1 < m * W + W).
  { unfold m. pose proof (Z.div_mod (len content + W - 1) W ltac:(lia)).
    pose proof (Z.mod_pos_bound (len content + W - 1) W ltac:(lia)). lia. }
  assert (Hm0 : 0 ≤ m) by (apply Z.div_pos; lia).
  split; [|split].
  - rewrite chars_join_empty, <- list_fmap_compose.
    erewrite list_fmap_ext; [apply (windows_tile (Z.to_nat W))|].
    + rewrite chars_length. unfold len in Hm. nia.
    + intros _ k _. simpl. by apply chars_chunk.
  - rewrite length_fmap, length_seq. lia.
  - intros k c Hk. rewrite length_fmap, length_seq.
    apply list_lookup_fmap_Some in Hk as (j & -> & Hj).
    apply lookup_seq in Hj as [-> Hlt]. simpl.
    split; [done|]. rewrite len_chunk by done. split; nia.
Qed.

(** C1. For every content and every width [W >= 1] the chunking step
    succeeds, and joining its chunks in index order gives back the content.
    Chunk [k] is the slice [content[k*W : k*W+W]]: every chunk but the last
    has exactly [W] characters and the last has between 1 and [W], so the
    chunks neither overlap nor leave a gap. *)
Theorem chunks_roundtrip (content : string) (W : Z) :
  1 ≤ W →
  ∃ cs : list string,
    chunks content W = Ok cs
    ∧ join "" cs = content
    ∧ ∀ (k : nat) (c : string), cs !! k = Some c →
        c = slice content (Z.of_nat k * W) (Z.of_nat k * W + W)
        ∧ 1 ≤ len c ≤ W
        ∧ ((S k < length cs)%nat → len c = W).
Proof.
  intros HW. destruct (chunks_pieces content W HW) as (cs & Hcs & Hjoin & _ & Hk).
  exists cs. split; [done|]. split; [by apply chars_inj | done].
Qed.

(** The round trip on a concrete input: ten characters, width four. *)
Lemma chunks_roundtrip_witness :
  1 ≤ 4 ∧
  ∃ cs : list string,
    chunks "0123456789" 4 = Ok cs
    ∧ join "" cs = "0123456789"
    ∧ ∀ (k : nat) (c : string), cs !! k = Some c →
        c = slice "0123456789" (Z.of_nat k * 4) (Z.of_nat k * 4 + 4)
        ∧ 1 ≤ len c ≤ 4
        ∧ ((S k < length cs)%nat → len c = 4).
Proof.
  split; [lia|]. apply (chunks_roundtrip "0123456789" 4). lia.
Defined.


(** ** Threshold and chunk width *)
Section threshold.

Lemma mapM_imap_ext {A B C} (f : B → exc C) (g : A → exc C)
    (h : nat → A → B) (l : list A) :
  (∀ k x, f (h k x) = g x) → mapM f (imap h l) = mapM g l.
Proof.
  revert h. induction l as [|x l IH]; intros h Hfg; simpl; [done|].
  rewrite Hfg. destruct (g x); simpl; [|done].
  rewrite (IH (h ∘ S)); [done|]. intros k y. apply Hfg.
Qed.

(** On a console that takes every line the chunked path is the chunking
    step, one request per chunk in order, and the merge request. *)
Lemma simple_large_code_quiet w model content file_path W :
  console_ok w →
  Simple.summarize_large_code w model content file_path W
  = (cs ← chunks content W;
     summaries ←
       mapM (λ chunk,
               generate w model
                 ("Summarize this code section from " +:+ file_path +:+ ":"
                    +:+ nl +:+ nl +:+ chunk)
                 [("temperature", OFloat (2 # 10)); ("num_ctx", OInt 4096)])
            (cs : list string);
     generate w model (Simple.final_prompt file_path summaries)
       [("temperature", OFloat (2 # 10)); ("num_ctx", OInt 4096)]).
Proof.
  intros Hout. unfold Simple.summarize_large_code.
  destruct (chunks content W) as [cs|e]; simpl; [|done].
  unfold enumerate.
  rewrite (mapM_imap_ext _
             (λ chunk, generate w model
                ("Summarize this code section from " +:+ file_path +:+ ":"
                   +:+ nl +:+ nl +:+ chunk)
                [("temperature", OFloat (2 # 10)); ("num_ctx", OInt 4096)]))
    by (intros k x; simpl; by rewrite Hout).
  rewrite !Hout. simpl. by destruct (mapM _ cs).
Qed.

Lemma local_large_code_quiet w model content file_path W :
  console_ok w →
  Local.summarize_large_code w model content file_path W
  = (cs ← chunks content W;
     summaries ←
       mapM (λ chunk,
               generate w model
                 ("Summarize this code section from " +:+ file_path +:+ ":"
                    +:+ nl +:+ nl +:+ chunk)
                 [("num_gpu", OInt 1); ("temperature", OFloat (2 # 10))])
            (cs : list string);
     generate w model (Local.final_prompt file_path summaries)
       [("num_gpu", OInt 1)]).
Proof.
  intros Hout. unfold Local.summarize_large_code.
  destruct (chunks content W) as [cs|e]; simpl; [|done].
  unfold enumerate.
  rewrite (mapM_imap_ext _
             (λ chunk, generate w model
                ("Summarize this code section from " +:+ file_path +:+ ":"
                   +:+ nl +:+ nl +:+ chunk)
                [("num_gpu", OInt 1); ("temperature", OFloat (2 # 10))]))
    by (intros k x; simpl; by rewrite Hout).
  by rewrite !Hout.
Qed.

Lemma probe_console : console_ok probe_world.
Proof. by intros text. Qed.

Lemma probe_simple_direct content file_path :
  generate probe_world "m" (Simple.prompt content file_path)
    [("temperature", OFloat (2 # 10)); ("top_p", OFloat (9 # 10));
     ("num_ctx", OInt 4096)] = Ok "ok".
Proof. reflexivity. Qed.

Lemma probe_simple_large content file_path :
  Simple.summarize_large_code probe_world "m" content file_path 3000 ≠ Ok "ok".
Proof.
  rewrite simple_large_code_quiet by apply probe_console.
  rewrite chunks_eq by lia. simpl.
  destruct (seq 0 _) as [|k ks]; simpl; discriminate.
Qed.

Lemma probe_local_direct content file_path :
  generate probe_world "m" (Local.prompt content file_path)
    [("temperature", OFloat (2 # 10)); ("top_p", OFloat (9 # 10));
     ("num_ctx", OInt 4096); ("num_gpu", OInt 1); ("num_thread", OInt 6)]
  = Ok "ok".
Proof. reflexivity. Qed.

Lemma probe_local_large content file_path :
  Local.summarize_large_code probe_world "m" content file_path 3000 ≠ Ok "ok".
Proof.
  rewrite local_large_code_quiet by apply probe_console.
  rewrite chunks_eq by lia. simpl.
  destruct (seq 0 _) as [|k ks]; simpl; discriminate.
Qed.

Lemma chunks_5000 content :
  len content = 5000 →
  chunks content 3000 = Ok [slice content 0 3000; slice content 3000 6000].
Proof. intros H. rewrite chunks_eq by lia. rewrite H. reflexivity. Qed.

End threshold.

(** C3. [summarize_code] behaves as [summarize_large_code] with chunk width
    3000, whatever the backend and the console do, exactly when the content
    is longer than the threshold: the constant 4000 in the simple
    summarizer, the parameter [max_tokens] (default 4000) in the local one.
    The chunked path cuts the content into slices of 3000 characters, the
    last one possibly shorter, and works on these pieces: on a console that
    takes every line, [summarize_large_code] asks the backend about each
    slice in turn, through a request that ends with the slice, and then for
    the merge of the answers.  5000 characters give exactly two chunks, of
    3000 and 2000 characters. *)
Theorem chunked_path_iff_over_threshold (content file_path : string) (max_tokens : Z) :
  ((∀ w model, Simple.summarize_code w model content file_path
               = Simple.summarize_large_code w model content file_path 3000)
   ↔ 4000 < len content)
  ∧ ((∀ w model, Local.summarize_code w model content file_path max_tokens
                 = Local.summarize_large_code w model content file_path 3000)
     ↔ max_tokens < len content)
  ∧ (∃ cs : list string,
        chunks content 3000 = Ok cs
        ∧ Z.of_nat (length cs) = (len content + 2999) / 3000
        ∧ (∀ (k : nat) (c : string), cs !! k = Some c →
             c = slice content (Z.of_nat k * 3000) (Z.of_nat k * 3000 + 3000)
             ∧ 1 ≤ len c ≤ 3000
             ∧ ((S k < length cs)%nat → len c = 3000))
        ∧ (∀ w model, console_ok w →
             Simple.summarize_large_code w model content file_path 3000
             = (summaries ←
                  mapM (λ chunk,
                          generate w model
                            ("Summarize this code section from " +:+ file_path
                               +:+ ":" +:+ nl +:+ nl +:+ chunk)
                            [("temperature", OFloat (2 # 10));
                             ("num_ctx", OInt 4096)])
                       cs;
                generate w model (Simple.final_prompt file_path summaries)
                  [("temperature", OFloat (2 # 10)); ("num_ctx", OInt 4096)])
             ∧ Local.summarize_large_code w model content file_path 3000
               = (summaries ←
                    mapM (λ chunk,
                            generate w model
                              ("Summarize this code section from " +:+ file_path
                                 +:+ ":" +:+ nl +:+ nl +:+ chunk)
                              [("num_gpu", OInt 1);
                               ("temperature", OFloat (2 # 10))])
                         cs;
                  generate w model (Local.final_prompt file_path summaries)
                    [("num_gpu", OInt 1)])))
  ∧ (len content = 5000 →
     ∃ c1 c2, chunks content 3000 = Ok [c1; c2] ∧ len c1 = 3000 ∧ len c2 = 2000).
Proof.
  split; [|split; [|split]].
  - split.
    + intros H. destruct (Z.lt_ge_cases 4000 (len content)) as [|Hle]; [done|].
      exfalso. specialize (H probe_world "m").
      unfold Simple.summarize_code in H.
      destruct (Z.ltb_spec 4000 (len content)); [lia|].
      change (print probe_world _) with (Ok tt : exc unit) in H.
      cbn [mbind exc_bind] in H. rewrite probe_simple_direct in H.
      by eapply probe_simple_large.
    + intros H w model. unfold Simple.summarize_code.
      destruct (Z.ltb_spec 4000 (len content)); [done | lia].
  - split.
    + intros H. destruct (Z.lt_ge_cases max_tokens (len content)) as [|Hle]; [done|].
      exfalso. specialize (H probe_world "m").
      unfold Local.summarize_code in H.
      destruct (Z.ltb_spec max_tokens (len content)); [lia|].
      change (monitor_gpu probe_world) with (@None gpu_info) in H.
      cbn [mbind exc_bind] in H. rewrite probe_local_direct in H.
      by eapply probe_local_large.
    + intros H w model. unfold Local.summarize_code.
      destruct (Z.ltb_spec max_tokens (len content)); [done | lia].
  - destruct (chunks_pieces content 3000 ltac:(lia)) as (cs & Hcs & _ & Hlen & Hk).
    exists cs. replace (len content + 2999) with (len content + 3000 - 1) by lia.
    split; [done|]. split; [done|]. split; [done|].
    intros w model Hout.
    rewrite simple_large_code_quiet, local_large_code_quiet by done.
    by rewrite Hcs.
  - intros H. eexists _, _. split; [by apply chunks_5000|].
    rewrite !len_slice by lia. lia.
Qed.

(** ** Dictionaries *)
Section dicts.
Context {V : Type}.
Implicit Types (d : dict V) (k : string) (v : V).


Lemma dict_set_fresh d k v :
  k ∉ dict_keys d → dict_set d k v = d ++ [(k, v)].
Proof.
  induction d as [|[k0 v0] d IH]; simpl; [done|].
  intros Hk. apply not_elem_of_cons in Hk as [Hne Hk].
  case_decide; [congruence|]. by rewrite IH.
Qed.

Lemma dict_keys_set d k v :
  dict_keys (dict_set d k v)
  = if decide (k ∈ dict_keys d) then dict_keys d else dict_keys d ++ [k].
Proof.
  induction d as [|[k0 v0] d IH]; simpl; [done|].
  destruct (decide (k0 = k)) as [->|Hk0]; simpl.
  - rewrite decide_True by apply list_elem_of_here. done.
  - unfold dict_keys in *. simpl. rewrite IH.
    destruct (decide (k ∈ fst <$> d)) as [Hin|Hin].
    + rewrite decide_True by (by apply list_elem_of_further). done.
    + rewrite decide_False; [done|].
      intros [?|?]%elem_of_cons; [congruence | done].
Qed.

Lemma dict_get_None d k : dict_get d k = None ↔ k ∉ dict_keys d.
Proof.
  induction d as [|[k0 v0] d IH]; simpl.
  - split; [intros _; apply not_elem_of_nil | done].
  - case_decide; subst.
    + split; [done|]. intros []. apply list_elem_of_here.
    + rewrite IH. unfold dict_keys. simpl. rewrite not_elem_of_cons.
      split; [intros ?; split; [congruence | done] | by intros [_ ?]].
Qed.

Lemma dict_keys_set_NoDup d k v :
  NoDup (dict_keys d) → NoDup (dict_keys (dict_set d k v)).
Proof.
  intros Hd. rewrite dict_keys_set. case_decide as Hk; [done|].
  apply NoDup_app. split; [done|]. split.
  - intros x Hx ->%list_elem_of_singleton. done.
  - apply NoDup_singleton.
Qed.

End dicts.


(** ** The batch loops *)
Section batch.
Variable w : world.
Variable model : string.

Lemma for_loop_total {St A} (body : St → A → exc St) (f : St → A → St) s l :
  (∀ s x, body s x = Ok (f s x)) → for_loop body s l = Ok (foldl f s l).
Proof.
  intros Hbody. revert s. induction l as [|x l IH]; intros s; simpl; [done|].
  rewrite Hbody. simpl. apply IH.
Qed.

Lemma for_loop_imap_total {St A B} (body : St → B → exc St) (f : St → A → St)
    (h : nat → A → B) s l :
  (∀ s k x, body s (h k x) = Ok (f s x)) →
  for_loop body s (imap h l) = Ok (foldl f s l).
Proof.
  intros Hbody. revert h s Hbody.
  induction l as [|x l IH]; intros h s Hbody; simpl; [done|].
  rewrite Hbody. simpl. apply (IH (h ∘ S)). intros s' k y. apply Hbody.
Qed.

Lemma prefix_app a b : String.prefix a (a +:+ b) = true.
Proof.
  induction a as [|c a IH]; [by destruct b|].
  change (String.prefix (String c a) (String c a +:+ b))
    with (if Ascii.ascii_dec c c then String.prefix a (a +:+ b) else false).
  by destruct (Ascii.ascii_dec c c).
Qed.

Lemma progress_line_ok (n i : Z) text :
  loop_lines_ok w →
  print w (nl +:+ "📝 Processing " +:+ pretty i +:+ "/" +:+ pretty n
             +:+ ": " +:+ text) = Ok tt.
Proof.
  intros Hout. apply Hout. left.
  exact (prefix_app (nl +:+ "📝 Processing ") _).
Qed.

Lemma error_line_ok text :
  loop_lines_ok w → print w ("❌ Error processing " +:+ text) = Ok tt.
Proof. intros Hout. apply Hout. right. apply prefix_app. Qed.

Lemma dict_set_set {V} (d : dict V) k v v' :
  dict_set (dict_set d k v) k v' = dict_set d k v'.
Proof.
  induction d as [|[k0 v0] d IH]; simpl.
  - by rewrite decide_True.
  - destruct (decide (k0 = k)); simpl.
    + by rewrite decide_True.
    + rewrite decide_False by done. by rewrite IH.
Qed.

Lemma batch_step_eq n results i file_path :
  loop_lines_ok w →
  Local.batch_step w model n results i file_path
  = Ok (Local.record w model results file_path).
Proof.
  intros Hout.
  unfold Local.batch_step, Local.batch_try, Local.record, Local.outcome_of.
  rewrite progress_line_ok by done. cbn [mbind exc_bind].
  destruct (open_read w (str file_path)) as [content|e]; simpl.
  - destruct (truthy (strip content)); simpl.
    + destruct (Local.summarize_code _ _ _ _ _) as [summary|e]; simpl.
      * destruct (Local.gpu_status w) as [[]|e]; simpl; [done|].
        by rewrite error_line_ok, dict_set_set by done.
      * by rewrite error_line_ok by done.
    + destruct (Local.gpu_status w) as [[]|e]; simpl; [done|].
      by rewrite error_line_ok by done.
  - by rewrite error_line_ok by done.
Qed.

Lemma batch_loop_eq file_paths :
  loop_lines_ok w →
  for_loop (λ results '(i, file_path),
              Local.batch_step w model (Z.of_nat (length file_paths))
                results i file_path)
           [] (enumerate 1 file_paths)
  = Ok (foldl (Local.record w model) [] file_paths).
Proof.
  intros Hout. unfold enumerate. apply for_loop_imap_total.
  intros s k x. by apply batch_step_eq.
Qed.






End batch.



(** ** The file filter *)
Section file_filter.
Import FileManager.

Lemma node_ind' (P : node → Prop) :
  (∀ nm st, P (File nm st)) →
  (∀ nm f, P (NoAccessDir nm f)) →
  (∀ nm entries, Forall P entries → P (Dir nm entries)) →
  ∀ n, P n.
Proof.
  intros HF HN HD. fix IH 1. intros [nm st|nm entries|nm f].
  - apply HF.
  - apply HD. induction entries as [|e entries IHe]; constructor.
    + apply IH.
    + apply IHe.
  - apply HN.
Qed.

Lemma strip_prefix_app base rel : strip_prefix base (base ++ rel) = Some rel.
Proof.
  induction base as [|b base IH]; simpl; [by destruct rel|].
  by rewrite decide_True.
Qed.

Lemma below_descend base rel : below (descend base rel) base = Some rel.
Proof.
  unfold below, descend. simpl. rewrite decide_True by done.
  apply strip_prefix_app.
Qed.

Lemma relative_to_under base rel :
  relative_to (descend base rel) base = Ok (MkPath "" rel).
Proof. unfold relative_to. by rewrite below_descend. Qed.

Lemma descend_inj base : Inj (=) (=) (descend base).
Proof. intros rel rel' [= H]. by apply app_inv_head in H. Qed.

Lemma descend_join top nm rel :
  descend (path_join top nm) rel = descend top (nm :: rel).
Proof. unfold descend, path_join. simpl. by rewrite <- app_assoc. Qed.

Lemma descend_one top nm : path_join top nm = descend top [nm].
Proof. done. Qed.

Lemma all_files_Dir top nm entries :
  all_files top (Dir nm entries)
  = (path_join top <$> (node_name <$> filter (λ e, ¬ is_dir e) entries))
    ++ flat_map (λ child,
                   if is_dir child
                   then all_files (path_join top (node_name child)) child
                   else [])
                entries.
Proof.
  unfold all_files. simpl. f_equal.
  induction entries as [|e entries IH]; simpl; [done|].
  rewrite flat_map_app, IH. by destruct (is_dir e).
Qed.

Lemma resolves_from_dir n rel m : resolves n rel m → is_dir n = true.
Proof. by destruct 1. Qed.

Lemma elem_of_all_files top n file :
  file ∈ all_files top n
  ↔ ∃ rel nm sz, file = descend top rel ∧ resolves n rel (File nm sz).
Proof.
  revert top file. induction n as [nm sz|nm f|nm entries IH] using node_ind';
    intros top file.
  - split; [by intros ?%elem_of_nil|]. intros (?&?&?&_&H). inversion H.
  - split; [by intros ?%elem_of_nil|]. intros (?&?&?&_&H). inversion H.
  - rewrite all_files_Dir, elem_of_app. split.
    + intros [H|H].
      * apply list_elem_of_fmap in H as (x & -> & H).
        apply list_elem_of_fmap in H as (child & -> & H).
        apply list_elem_of_filter in H as [Hdir Hin].
        destruct child as [cn sz| |]; simpl in Hdir; try done.
        exists [cn], cn, sz. split; [done|].
        by apply (resolves_entry nm entries (File cn sz)).
      * apply list_elem_of_In, in_flat_map in H as (child & Hin & H).
        apply list_elem_of_In in Hin, H.
        destruct (is_dir child) eqn:Hdir; [|by apply elem_of_nil in H].
        rewrite Forall_forall in IH.
        apply (IH child Hin) in H as (rel & cn & sz & -> & Hres).
        exists (node_name child :: rel), cn, sz. split.
        -- apply descend_join.
        -- by apply resolves_below.
    + intros (rel & cn & sz & -> & Hres).
      inversion Hres as [? ? child Hin|? ? child rel' ? Hin Hres']; subst.
      * left. apply list_elem_of_fmap. exists cn.
        split; [done|]. apply list_elem_of_fmap. exists (File cn sz).
        split; [done|]. apply list_elem_of_filter. split; [|done]. simpl. tauto.
      * right. apply list_elem_of_In, in_flat_map. exists child.
        split; [by apply list_elem_of_In|]. apply list_elem_of_In.
        rewrite (resolves_from_dir _ _ _ Hres').
        rewrite Forall_forall in IH. apply (IH child Hin).
        exists rel', cn, sz. split; [|done]. symmetry. apply descend_join.
Qed.

Lemma filter_spec_under match_file base_dir files :
  Forall (λ f, ∃ rel, f = descend base_dir rel) files →
  ∃ kept,
    filter_spec match_file base_dir files = Ok kept
    ∧ ∀ f, f ∈ kept
           ↔ f ∈ files
             ∧ ∃ rel, f = descend base_dir rel
                      ∧ match_file (MkPath "" rel) = false.
Proof.
  induction 1 as [|f files [rel ->] _ (kept & Hkept & IH)]; simpl.
  - exists []. split; [done|]. intros f. split; [by intros ?%elem_of_nil|].
    by intros [?%elem_of_nil _].
  - rewrite relative_to_under, Hkept. simpl.
    destruct (match_file (MkPath "" rel)) eqn:Hm; eexists; (split; [done|]);
      intros f; rewrite ?elem_of_cons, IH.
    + split; [intros [Hin Hrel]; split; [by right | done]|].
      intros [[->|Hin] (rel' & Heq & Hm')]; [|eauto].
      apply descend_inj in Heq as ->. congruence.
    + split.
      * intros [->|[Hin Hrel]]; [split; [by left | eauto] | split; [by right | done]].
      * intros [[->|Hin] Hrel]; [by left | right; by split].
Qed.

Lemma NoDup_fmap_eq {A B} (f : A → B) (l : list A) x y :
  NoDup (f <$> l) → x ∈ l → y ∈ l → f x = f y → x = y.
Proof.
  induction l as [|a l IH]; [by intros _ ?%elem_of_nil|].
  rewrite fmap_cons, NoDup_cons. intros [Ha Hl] Hx Hy Hxy.
  apply elem_of_cons in Hx as [->|Hx], Hy as [->|Hy]; try done.
  - destruct Ha. rewrite Hxy. by apply list_elem_of_fmap_2.
  - destruct Ha. rewrite <- Hxy. by apply list_elem_of_fmap_2.
  - by apply IH.
Qed.

(** In a well-formed tree a relative path names at most one entry. *)
Lemma resolves_functional n rel m1 m2 :
  wf n → resolves n rel m1 → resolves n rel m2 → m1 = m2.
Proof.
  intros Hwf H1. revert m2 Hwf.
  induction H1 as [nm entries c1 Hc1|nm entries c1 rel m1 Hc1 H1 IH];
    intros m2 Hwf H2; inversion Hwf as [| |? ? Hnd Hall]; subst;
    inversion H2 as [? ? c2 Hc2 Hname|? ? c2 rel2 ? Hc2 H2' Hname]; subst.
  - by apply (NoDup_fmap_eq node_name entries).
  - inversion H2'.
  - inversion H1.
  - assert (c2 = c1) as -> by by apply (NoDup_fmap_eq node_name entries).
    apply IH; [|done]. rewrite Forall_forall in Hall. by apply Hall.
Qed.

End file_filter.

(** C4. The file filter succeeds and returns exactly the paths
    [base_dir / rel] such that [rel] leads to a regular file of the tree,
    the file's suffix is in the registry or its name is ["Dockerfile"], and
    [rel] does not match the ignore spec.  In a tree whose directories have
    distinct entry names, nothing a returned path leads to is a directory. *)
Theorem get_code_files_spec (base_dir : Path) (directory : FileManager.node)
    (match_file : Path → bool) :
  ∃ files,
    FileManager.get_code_files base_dir directory match_file = Ok files
    ∧ (∀ file, file ∈ files
         ↔ ∃ rel,
             file = descend base_dir rel
             ∧ (∃ nm sz, FileManager.resolves directory rel (FileManager.File nm sz))
             ∧ (suffix file ∈ FileManager._CODE_EXTENSIONS
                ∨ name file = "Dockerfile")
             ∧ match_file (MkPath "" rel) = false)
    ∧ (FileManager.wf directory →
       ∀ file rel n,
         file ∈ files →
         file = descend base_dir rel →
         FileManager.resolves directory rel n →
         FileManager.is_dir n = false).
Proof.
  unfold FileManager.get_code_files.
  destruct (filter_spec_under match_file base_dir
              (filter (λ file, FileManager._is_code_file file)
                 (FileManager.all_files base_dir directory)))
    as (kept & Hkept & Hiff).
  { apply Forall_forall. intros f [_ Hf]%list_elem_of_filter.
    apply elem_of_all_files in Hf as (rel & _ & _ & -> & _). eauto. }
  assert (Hfiles : ∀ file, file ∈ kept
         ↔ ∃ rel,
             file = descend base_dir rel
             ∧ (∃ nm sz, FileManager.resolves directory rel (FileManager.File nm sz))
             ∧ (suffix file ∈ FileManager._CODE_EXTENSIONS
                ∨ name file = "Dockerfile")
             ∧ match_file (MkPath "" rel) = false).
  { intros file. rewrite Hiff, list_elem_of_filter, elem_of_all_files.
    unfold FileManager._is_code_file.
    rewrite orb_True, !bool_decide_spec. split.
    - intros [[Hcode (rel & nm & sz & -> & Hres)] (rel' & Heq & Hm)].
      apply descend_inj in Heq as ->. exists rel'. eauto 10.
    - intros (rel & -> & (nm & sz & Hres) & Hcode & Hm). eauto 10. }
  exists kept. split; [done|]. split; [done|].
  intros Hwf file rel n Hin -> Hres.
  apply Hfiles in Hin as (rel' & Heq & (nm & sz & Hres') & _).
  apply descend_inj in Heq as ->.
  by rewrite (resolves_functional _ _ _ _ Hwf Hres Hres').
Qed.

(** ** Reading and staging files *)
Section staging.
Import FileManager.
Variable env : os_env.

Lemma read_file_eq file_path tree :
  io_errors_only env →
  read_file env file_path tree true = Ok (file_path, staged_text env tree file_path).
Proof.
  intros Hio. unfold read_file, staged_text.
  destruct (open_rb env file_path) as [raw|e] eqn:Hopen; simpl; [done|].
  by rewrite (Hio _ _ Hopen).
Qed.

Lemma write_file_eq file_path content base_dir output_dir staged rel :
  below file_path base_dir = Some rel →
  _write_file env (file_path, content) base_dir output_dir staged
  = match open_w_error env (staging_path base_dir output_dir file_path) with
    | Some e => Raise e
    | None =>
        match write_error env (staging_path base_dir output_dir file_path)
                content with
        | Some e => Raise e
        | None =>
            Ok (<[staged_at base_dir output_dir file_path := content]> staged)
        end
    end.
Proof.
  intros Hbelow. unfold _write_file, staged_at, staging_path, relative_to.
  by rewrite Hbelow.
Qed.

Lemma mapM_total {A B} (f : A → exc B) (g : A → B) (l : list A) :
  (∀ x, x ∈ l → f x = Ok (g x)) → mapM f l = Ok (g <$> l).
Proof.
  induction l as [|x l IH]; intros Hf; simpl; [done|].
  rewrite Hf by apply list_elem_of_here. simpl.
  rewrite IH; [done|]. intros y Hy. by apply Hf, list_elem_of_further.
Qed.

Lemma for_loop_total_on {St A} (body : St → A → exc St) (f : St → A → St) s l :
  (∀ s x, x ∈ l → body s x = Ok (f s x)) → for_loop body s l = Ok (foldl f s l).
Proof.
  revert s. induction l as [|x l IH]; intros s Hbody; simpl; [done|].
  rewrite Hbody by apply list_elem_of_here. simpl.
  apply IH. intros s' y Hy. by apply Hbody, list_elem_of_further.
Qed.

(** After a run of writes, a path holds what the last write to it put
    there. *)
Lemma foldl_insert_last {A} (k v : A → string) (l : list A)
    (staged : gmap string string) (key : string) :
  foldl (λ st x, <[k x := v x]> st) staged l !! key
  = match last (filter (λ x, k x = key) l) with
    | Some x => Some (v x)
    | None => staged !! key
    end.
Proof.
  induction l as [|x l IH] using rev_ind; [done|].
  rewrite foldl_app, filter_app. simpl.
  destruct (decide (k x = key)) as [<-|Hne].
  - rewrite filter_cons_True, filter_nil, last_snoc by done.
    apply lookup_insert_eq.
  - rewrite filter_cons_False, filter_nil, app_nil_r by done.
    by rewrite lookup_insert_ne.
Qed.

Lemma get_code_files_under base_dir directory match_file :
  ∃ files,
    get_code_files base_dir directory match_file = Ok files
    ∧ Forall (λ f, ∃ rel, f = descend base_dir rel ∧ rel ≠ []) files.
Proof.
  unfold get_code_files.
  destruct (filter_spec_under match_file base_dir
              (filter (λ file, _is_code_file file) (all_files base_dir directory)))
    as (kept & Hkept & Hiff).
  { apply Forall_forall. intros f [_ Hf]%list_elem_of_filter.
    apply elem_of_all_files in Hf as (rel & _ & _ & -> & _). eauto. }
  exists kept. split; [done|]. apply Forall_forall. intros f Hf.
  apply Hiff in Hf as [[_ Hf]%list_elem_of_filter _].
  apply elem_of_all_files in Hf as (rel & nm & sz & -> & Hres).
  exists rel. split; [done|]. by destruct Hres.
Qed.


Lemma descend_descend base d rel :
  descend (descend base d) rel = descend base (d ++ rel).
Proof. unfold descend. simpl. by rewrite <- app_assoc. Qed.

End staging.

(** C10, as stated, fails: the [except] clause of [read_file] names
    [OSError] and [UnicodeDecodeError] only, so any other exception of
    opening or reading the file leaves [read_file].  For a path with a null
    character in it, [open] raises [ValueError], and so does [read_file]. *)
Lemma read_file_null_byte_counterexample :
  FileManager.open_rb null_byte_env null_byte_path
  = Raise (Exn ValueError "embedded null byte")
  ∧ FileManager.read_file null_byte_env null_byte_path "T" true
    = Raise (Exn ValueError "embedded null byte").
Proof. split; reflexivity. Qed.

(** C10, amended. [read_file] raises exactly when opening or reading the
    file raises an exception that is neither an [OSError] nor a
    [UnicodeDecodeError] (nor of a subclass of theirs), and then it raises
    that exception.  On an [OSError] or a decode error it returns
    [(file_path, "")]: the path and tree prefix is not there even when
    [append_tree] is true.  On a successful read it returns the decoded
    text, with the prefix in front exactly when [append_tree] is true. *)
Theorem read_file_catches_io_errors_only (env : FileManager.os_env) (file_path : Path)
    (tree : string) (append_tree : bool) :
  FileManager.read_file env file_path tree append_tree
  = match FileManager.open_rb env file_path with
    | Ok raw =>
        Ok (file_path,
            if append_tree
            then str file_path +:+ nl +:+ tree +:+ nl
                   +:+ FileManager.decode_utf8_ignore env raw
            else FileManager.decode_utf8_ignore env raw)
    | Raise e =>
        if isinstance e OSError || isinstance e UnicodeDecodeError
        then Ok (file_path, "")
        else Raise e
    end.
Proof.
  unfold FileManager.read_file.
  destruct (FileManager.open_rb env file_path) as [raw|e]; simpl; [done|].
  by destruct (isinstance e OSError || isinstance e UnicodeDecodeError).
Qed.

(** C9, as stated, fails: between the tree text and the file content
    [read_file] puts one line break, not a blank line.  For the file
    [/r/a.py] holding [C] and the tree text [T] the content is the three
    lines [/r/a.py], [T], [C]. *)
Lemma read_file_blank_line_counterexample :
  FileManager.read_file demo_env demo_file "T" true
  = Ok (demo_file, "/r/a.py" +:+ nl +:+ "T" +:+ nl +:+ "C")
  ∧ FileManager.read_file demo_env demo_file "T" true
    ≠ Ok (demo_file, "/r/a.py" +:+ nl +:+ "T" +:+ nl +:+ nl +:+ "C").
Proof. split; [reflexivity | discriminate]. Qed.

(** C9, amended. When a file is read successfully (and [append_tree] is
    left at its default) the content handed to the writer is the path
    string, a line break, the tree text, a single line break, and the
    decoded file content, in that order; the writer stages exactly that
    text. *)
Theorem staged_content_layout (env : FileManager.os_env) (file_path : Path)
    (tree : string) (raw : list Byte.byte) (base_dir output_dir : Path)
    (staged staged' : gmap string string) :
  FileManager.open_rb env file_path = Ok raw →
  ∃ content,
    FileManager.read_file env file_path tree true = Ok (file_path, content)
    ∧ content = str file_path +:+ nl +:+ tree +:+ nl
                  +:+ FileManager.decode_utf8_ignore env raw
    ∧ (FileManager._write_file env (file_path, content) base_dir output_dir staged
       = Ok staged' →
       staged' !! FileManager.staged_at base_dir output_dir file_path
       = Some content).
Proof.
  intros Hopen. eexists. split; [|split; [reflexivity|]].
  - unfold FileManager.read_file. rewrite Hopen. reflexivity.
  - unfold FileManager._write_file, FileManager.staged_at, relative_to.
    destruct (below _ _) as [rel|]; simpl; [|done].
    destruct (FileManager.open_w_error _ _); [done|].
    destruct (FileManager.write_error _ _ _); [done|].
    intros [= <-]. apply lookup_insert_eq.
Qed.



(** ** Human-readable sizes *)
Section sizes.
Import FileManager.

(** Integers below [2^53] convert to floats exactly. *)
Lemma float_of_int_exact n : 0 ≤ n < 2 ^ 53 → float_of_int n = Float n 0.
Proof.
  intros [H0 H53]. unfold float_of_int.
  assert (Z.log2 (Z.abs n) - 52 ≤ 0) as Hk.
  { rewrite Z.abs_eq by done. destruct (decide (n = 0)) as [->|]; [done|].
    assert (Z.log2 n < 53); [|lia]. apply Z.log2_lt_pow2; lia. }
  by destruct (Z.leb_spec (Z.log2 (Z.abs n) - 52) 0); [|lia].
Qed.

(** Conversion never takes an integer from [2^40] up below [2^40]. *)
Lemma float_of_int_large n :
  2 ^ 40 ≤ n →
  ∃ m, float_of_int n = Float m 0 ∧ 2 ^ 40 ≤ m.
Proof.
  intros Hn. unfold float_of_int. rewrite Z.abs_eq by lia.
  set (k := Z.log2 n - 52).
  destruct (Z.leb_spec k 0) as [|Hk]; [by eexists|].
  assert (Hpow : 0 < 2 ^ k) by (apply Z.pow_pos_nonneg; lia).
  assert (Hq : 2 ^ 52 ≤ n / 2 ^ k).
  { apply Z.div_le_lower_bound; [done|].
    rewrite <- Z.pow_add_r by lia. replace (k + 52) with (Z.log2 n) by lia.
    apply Z.log2_spec. lia. }
  eexists. split; [reflexivity|].
  assert (Hq' : 2 ^ 52 ≤
    (if n mod 2 ^ k <? 2 ^ (k - 1) then n / 2 ^ k
     else if 2 ^ (k - 1) <? n mod 2 ^ k then n / 2 ^ k + 1
     else if Z.even (n / 2 ^ k) then n / 2 ^ k else n / 2 ^ k + 1)).
  { repeat case_match; lia. }
  assert (2 ^ 40 ≤ 2 ^ 52) by (apply Z.pow_le_mono_r; lia).
  nia.
Qed.

(** The loop needs no more than its four iterations. *)
Lemma scale_fuel_enough (fuel : nat) x i :
  0 ≤ i ≤ 4 → (Z.to_nat (4 - i) ≤ fuel)%nat →
  scale fuel x i = scale (Z.to_nat (4 - i)) x i.
Proof.
  revert x i. induction fuel as [|fuel IH]; intros x i Hi Hfuel.
  - by replace (Z.to_nat (4 - i)) with 0%nat by lia.
  - destruct (decide (i = 4)) as [->|Hne].
    + simpl. by rewrite andb_false_r.
    + replace (Z.to_nat (4 - i)) with (S (Z.to_nat (4 - (i + 1)))) by lia.
      simpl. destruct (ge_1024 x && _); [|done]. apply IH; lia.
Qed.

Lemma scale_below x i fuel :
  ge_1024 x = false → scale fuel x i = (x, i).
Proof. intros H. destruct fuel; simpl; by rewrite ?H. Qed.

Lemma scale_step x i fuel :
  ge_1024 x = true → 0 ≤ i < 4 →
  scale (S fuel) x i = scale fuel (div_1024 x) (i + 1).
Proof.
  intros H Hi. simpl. rewrite H. simpl.
  by destruct (Z.ltb_spec i (Z.of_nat 5 - 1)); [|lia].
Qed.

Lemma ge_1024_spec m e : 0 ≤ e → ge_1024 (Float m e) = true ↔ 2 ^ e * 1024 ≤ m.
Proof.
  intros He. unfold ge_1024. simpl. rewrite Z.leb_le, Z.pow_add_r by lia.
  by change (2 ^ 10) with 1024.
Qed.

(** Where the loop stops for an exactly represented size. *)
Lemma scale_unit (n : Z) (i : nat) :
  (i ≤ 4)%nat → 1024 ^ Z.of_nat i ≤ n →
  (n < 1024 ^ (Z.of_nat i + 1) ∨ i = 4%nat) →
  scale 4 (Float n 0) 0 = (Float n (10 * Z.of_nat i), Z.of_nat i).
Proof.
  intros Hi Hlo Hhi.
  assert (Hge : ∀ e, 0 ≤ e → 2 ^ e * 1024 ≤ n → ge_1024 (Float n e) = true)
    by (intros; by apply ge_1024_spec).
  assert (Hlt : ∀ e, 0 ≤ e → n < 2 ^ e * 1024 → ge_1024 (Float n e) = false).
  { intros e He Hn. apply not_true_is_false. rewrite ge_1024_spec by done. lia. }
  destruct i as [|[|[|[|[|i]]]]]; try lia; simpl in Hlo, Hhi.
  - apply scale_below, Hlt; lia.
  - rewrite scale_step by (try apply Hge; lia).
    apply scale_below, Hlt; simpl; lia.
  - rewrite !scale_step by (try apply Hge; simpl; lia).
    apply scale_below, Hlt; simpl; lia.
  - rewrite !scale_step by (try apply Hge; simpl; lia).
    apply scale_below, Hlt; simpl; lia.
  - rewrite !scale_step by (try apply Hge; simpl; lia). done.
Qed.

(** [format_1f] prints the nearest number of tenths: an integer part, a
    point and one digit. *)
Lemma format_1f_spec m e :
  0 ≤ e →
  ∃ tenths,
    format_1f (Float m e)
    = pretty (tenths / 10) +:+ "." +:+ pretty (tenths mod 10)
    ∧ 0 ≤ tenths mod 10 ≤ 9
    ∧ Z.abs (2 * (tenths * 2 ^ e - 10 * m)) ≤ 2 ^ e.
Proof.
  intros He. unfold format_1f. simpl.
  assert (Hden : 0 < 2 ^ e) by (apply Z.pow_pos_nonneg; lia).
  pose proof (Z.div_mod (10 * m) (2 ^ e) ltac:(lia)) as Hdm.
  pose proof (Z.mod_pos_bound (10 * m) (2 ^ e) Hden) as Hr.
  eexists. split; [reflexivity|]. split.
  - pose proof (Z.mod_pos_bound
      (if 2 * ((10 * m) mod 2 ^ e) <? 2 ^ e then 10 * m / 2 ^ e
       else if 2 ^ e <? 2 * ((10 * m) mod 2 ^ e) then 10 * m / 2 ^ e + 1
       else if Z.even (10 * m / 2 ^ e) then 10 * m / 2 ^ e
       else 10 * m / 2 ^ e + 1) 10 ltac:(lia)). lia.
  - destruct (Z.ltb_spec (2 * ((10 * m) mod 2 ^ e)) (2 ^ e)); [nia|].
    destruct (Z.ltb_spec (2 ^ e) (2 * ((10 * m) mod 2 ^ e))); [nia|].
    destruct (Z.even _); nia.
Qed.

Lemma format_size_scaled size m (i : nat) unit :
  size ≠ 0 → float_of_int size = Float m 0 →
  scale 4 (Float m 0) 0 = (Float m (10 * Z.of_nat i), Z.of_nat i) →
  (1 ≤ i)%nat → size_names !! i = Some unit →
  _format_size size = format_1f (Float m (10 * Z.of_nat i)) +:+ " " +:+ unit.
Proof.
  intros Hne Hfl Hsc Hi Hunit. unfold _format_size.
  destruct (Z.eqb_spec size 0); [done|]. rewrite Hfl, Hsc.
  rewrite Nat2Z.id, Hunit. simpl.
  by destruct (Z.eqb_spec (Z.of_nat i) 0); [lia|].
Qed.

End sizes.

(** C7, as stated, fails for empty files: the renderer gives a file of
    zero bytes no size suffix at all, so ["0 B"] is never shown.  The tree
    [proj/] with the one empty file [x.txt] is scanned to a file entry of
    size 0, whose line is the bare name. *)
Lemma zero_byte_file_counterexample :
  FileManager._scan_directory None false
    (FileManager.Dir "proj" [FileManager.File "x.txt" (FileManager.St_size 0)]) 0
  = [("x.txt", FileManager.Data "file" 0 [])]
  ∧ FileManager._format_tree [("x.txt", FileManager.Data "file" 0 [])] "" []
    = ["└── x.txt"]
  ∧ FileManager._format_tree [("x.txt", FileManager.Data "file" 0 [])] "" []
    ≠ ["└── x.txt [0 B]"].
Proof. split; [|split]; [reflexivity | reflexivity | discriminate]. Qed.

(** C7, amended. The line of a file entry ends with a size suffix
    [" [" size "]"] exactly when the size is positive; a file of zero bytes
    is rendered as its bare name (the size formatter maps 0 to ["0 B"], but
    the renderer does not call it then).  Below 1024 bytes the size is
    printed as an integer followed by ["B"].  From [1024^i] up, and below
    [1024^(i+1)] unless the unit is already ["TB"], it is printed in unit
    [i] of B/KB/MB/GB/TB as the size (converted to a float) divided by
    [1024^i] and rounded to the nearest tenth: an integer part, a point and
    one digit.  A file [x.txt] of 2048 bytes is rendered as
    ["x.txt [2.0 KB]"]. *)
Theorem file_line_size_suffix (name : string) (size : Z)
    (children : list (string * FileManager.data)) (is_last : bool)
    (prefix : string) (is_last_list : list bool) :
  FileManager.format_item name (FileManager.Data "file" size children)
    is_last prefix is_last_list
  = [FileManager.line_prefix is_last_list is_last +:+ name
       +:+ (if 0 <? size then " [" +:+ FileManager._format_size size +:+ "]"
            else "")]
  ∧ FileManager._format_size 0 = "0 B"
  ∧ (0 < size < 1024 → FileManager._format_size size = pretty size +:+ " B")
  ∧ (∀ (i : nat) (unit : string),
       (1 ≤ i)%nat → FileManager.size_names !! i = Some unit →
       1024 ^ Z.of_nat i ≤ size →
       size < 1024 ^ (Z.of_nat i + 1) ∨ i = 4%nat →
       ∃ m tenths,
         FileManager.float_of_int size = FileManager.Float m 0
         ∧ (size < 2 ^ 53 → m = size)
         ∧ FileManager._format_size size
           = (pretty (tenths / 10) +:+ "." +:+ pretty (tenths mod 10))
               +:+ " " +:+ unit
         ∧ 0 ≤ tenths mod 10 ≤ 9
         ∧ Z.abs (2 * (tenths * 1024 ^ Z.of_nat i - 10 * m)) ≤ 1024 ^ Z.of_nat i)
  ∧ FileManager.format_item "x.txt" (FileManager.Data "file" 2048 []) true "" []
    = ["└── x.txt [2.0 KB]"].
Proof.
  split; [reflexivity|]. split; [reflexivity|]. split; [|split; [|reflexivity]].
  - intros Hsize. unfold FileManager._format_size.
    destruct (Z.eqb_spec size 0); [lia|].
    rewrite float_of_int_exact by lia.
    rewrite (scale_unit size 0) by (simpl; lia). simpl.
    unfold FileManager.int_of_float. simpl. by rewrite Z.quot_1_r.
  - intros i unit Hi Hunit Hlo Hhi.
    assert (Hi4 : (i ≤ 4)%nat).
    { apply lookup_lt_Some in Hunit. simpl in Hunit. lia. }
    assert (H1024 : 1024 ^ Z.of_nat i = 2 ^ (10 * Z.of_nat i)).
    { rewrite Z.pow_mul_r by lia. done. }
    assert (Hpos : 1024 ≤ size).
    { assert (1024 ^ 1 ≤ 1024 ^ Z.of_nat i) by (apply Z.pow_le_mono_r; lia). lia. }
    assert (Hfl : ∃ m, FileManager.float_of_int size = FileManager.Float m 0
                       ∧ (size < 2 ^ 53 → m = size)
                       ∧ 1024 ^ Z.of_nat i ≤ m
                       ∧ (m < 1024 ^ (Z.of_nat i + 1) ∨ i = 4%nat)).
    { destruct (Z.lt_ge_cases size (2 ^ 53)) as [Hlt|Hge].
      - exists size. by rewrite float_of_int_exact by lia.
      - assert (i = 4%nat) as ->.
        { destruct Hhi as [Hhi|]; [|done]. exfalso.
          assert (1024 ^ (Z.of_nat i + 1) ≤ 1024 ^ 5)
            by (apply Z.pow_le_mono_r; lia).
          assert (1024 ^ 5 ≤ 2 ^ 53) by done. lia. }
        destruct (float_of_int_large size) as (m & Hm & Hm40).
        { assert (2 ^ 40 ≤ 2 ^ 53) by done. lia. }
        exists m. split; [done|]. split; [lia|]. split; [|by right].
        by change (1024 ^ Z.of_nat 4) with (2 ^ 40). }
    destruct Hfl as (m & Hfl & Hexact & Hmlo & Hmhi).
    destruct (format_1f_spec m (10 * Z.of_nat i) ltac:(lia))
      as (tenths & Hfmt & Hdigit & Hnear).
    exists m, tenths. split; [done|]. split; [done|].
    split; [|by rewrite H1024].
    rewrite (format_size_scaled size m i unit); try done; try lia.
    + by rewrite Hfmt.
    + by apply scale_unit.
Qed.

(** ** The rendered tree *)
Section tree.
Import FileManager.

Lemma data_ind' (P : data → Prop) :
  (∀ type size children,
      Forall (λ p, P p.2) children → P (Data type size children)) →
  ∀ d, P d.
Proof.
  intros HD. fix IH 1. intros [type size children]. apply HD.
  induction children as [|[name d] children IHc]; constructor.
  - apply IH.
  - apply IHc.
Qed.

Lemma format_item_directory name size children is_last prefix is_last_list :
  format_item name (Data "directory" size children) is_last prefix is_last_list
  = (line_prefix is_last_list is_last +:+ name +:+ "/")
    :: _format_tree children
         (prefix +:+ (if is_last then "    " else "│   "))
         (is_last_list ++ [is_last]).
Proof. reflexivity. Qed.

Lemma str_app_assoc (a b c : string) : (a +:+ b) +:+ c = a +:+ b +:+ c.
Proof. apply chars_inj. by rewrite !chars_app, app_assoc. Qed.

Lemma format_item_listing d :
  ∀ name is_last prefix is_last_list,
    Forall2 renders (format_item name d is_last prefix is_last_list)
            (entries_of (S (length is_last_list)) name d).
Proof.
  induction d as [type size children IH] using data_ind'.
  intros name is_last prefix is_last_list. simpl.
  destruct (decide (type = "directory")) as [->|Hty].
  - constructor.
    { by exists is_last_list, is_last. }
    set (p' := prefix +:+ _). clearbody p'.
    replace (S (S (length is_last_list)))
      with (S (length (is_last_list ++ [is_last])))
      by (rewrite length_app; simpl; lia).
    generalize (is_last_list ++ [is_last]). intros ill.
    induction IH as [|[n c] rest Hc _ IHrest]; simpl; [constructor|].
    apply Forall2_app; [apply Hc | apply IHrest].
  - constructor; [|constructor].
    exists is_last_list, is_last. split; [done|].
    unfold entry_label, is_directory. simpl.
    by rewrite bool_decide_eq_false_2 by done.
Qed.

Lemma format_tree_listing structure prefix is_last_list :
  Forall2 renders (_format_tree structure prefix is_last_list)
          (listing (S (length is_last_list)) structure).
Proof.
  unfold _format_tree, listing.
  induction structure as [|[n c] rest IH]; simpl; [constructor|].
  apply Forall2_app; [apply format_item_listing | apply IH].
Qed.

Lemma dirs_in_app l1 l2 : dirs_in (l1 ++ l2) = dirs_in l1 + dirs_in l2.
Proof. unfold dirs_in. rewrite filter_app, length_app. lia. Qed.

Lemma files_in_app l1 l2 : files_in (l1 ++ l2) = files_in l1 + files_in l2.
Proof. unfold files_in. rewrite filter_app, length_app. lia. Qed.

Lemma foldl_count_items (children : dict data) (k : nat) (c0 : Z) :
  Forall (λ p, ∀ name k,
            1 + count_items_below p.2
            = Z.of_nat (length (entries_of k name p.2))) children →
  foldl (λ count '(_, item_data), count + count_items_below item_data)
        c0 children
  = c0 + Z.of_nat (length (listing k children)) - Z.of_nat (length children).
Proof.
  intros H. revert c0. unfold listing.
  induction H as [|[n c] rest Hc _ IH]; intros c0; simpl; [lia|].
  rewrite IH, length_app. specialize (Hc n k). simpl in Hc. lia.
Qed.

Lemma count_items_below_listing d :
  ∀ name k, 1 + count_items_below d = Z.of_nat (length (entries_of k name d)).
Proof.
  induction d as [type size children IH] using data_ind'. intros name k.
  simpl. destruct (decide (type = "directory")); [|done].
  rewrite (foldl_count_items children (S k)) by done.
  unfold listing. simpl. lia.
Qed.

Lemma count_items_listing structure k :
  count_items structure = Z.of_nat (length (listing k structure)).
Proof.
  unfold count_items. rewrite (foldl_count_items structure k); [lia|].
  apply Forall_forall. intros p _. apply count_items_below_listing.
Qed.

Lemma foldl_count_types (children : dict data) (k : nat) (a0 b0 : Z) :
  Forall (λ p, ∀ name k,
            count_types_of p.2
            = (dirs_in (entries_of k name p.2),
               files_in (entries_of k name p.2))) children →
  foldl (λ '(dirs, files) '(_, item_data),
           let '(a, b) := count_types_of item_data in
           (dirs + a, files + b))
        (a0, b0) children
  = (a0 + dirs_in (listing k children), b0 + files_in (listing k children)).
Proof.
  intros H. revert a0 b0. unfold listing.
  induction H as [|[n c] rest Hc _ IH]; intros a0 b0; simpl.
  - f_equal; unfold dirs_in, files_in; simpl; lia.
  - specialize (Hc n k). simpl in Hc.
    rewrite Hc, IH, dirs_in_app, files_in_app. f_equal; lia.
Qed.

Lemma count_types_of_listing d :
  ∀ name k,
    count_types_of d
    = (dirs_in (entries_of k name d), files_in (entries_of k name d)).
Proof.
  induction d as [type size children IH] using data_ind'. intros name k.
  simpl. destruct (decide (type = "directory")) as [->|Hty].
  - rewrite (foldl_count_types children (S k)) by done.
    unfold dirs_in, files_in, listing.
    rewrite filter_cons_True by done.
    rewrite filter_cons_False by (intros H; by apply H).
    simpl. f_equal; lia.
  - assert (Hnd : ¬ is_directory (entry_data (k, name, Data type size children))).
    { unfold is_directory, entry_data. simpl.
      by intros ?%bool_decide_unpack. }
    unfold dirs_in, files_in.
    by rewrite filter_cons_False, filter_cons_True by done.
Qed.

Lemma count_types_listing structure k :
  count_types structure
  = (dirs_in (listing k structure), files_in (listing k structure)).
Proof.
  unfold count_types. rewrite (foldl_count_types structure k).
  - f_equal; lia.
  - apply Forall_forall. intros p _. apply count_types_of_listing.
Qed.

Lemma dirs_files_total l : dirs_in l + files_in l = Z.of_nat (length l).
Proof.
  unfold dirs_in, files_in. induction l as [|e l IH]; [done|].
  destruct (decide (is_directory (entry_data e))).
  - rewrite filter_cons_True, filter_cons_False by tauto. simpl length. lia.
  - rewrite filter_cons_False, filter_cons_True by tauto. simpl length. lia.
Qed.

Lemma elem_of_insert_by {A} (key : A → bool * string) x y (l : list A) :
  x ∈ insert_by key y l ↔ x = y ∨ x ∈ l.
Proof.
  induction l as [|z l IH]; simpl.
  - rewrite list_elem_of_singleton, elem_of_nil. tauto.
  - destruct (key_le _ _); rewrite !elem_of_cons, ?IH; tauto.
Qed.

Lemma elem_of_sort_by {A} (key : A → bool * string) x (l : list A) :
  x ∈ sort_by key l ↔ x ∈ l.
Proof.
  unfold sort_by. induction l as [|y l IH]; simpl; [done|].
  rewrite elem_of_insert_by, IH, elem_of_cons. tauto.
Qed.

Lemma dict_set_Forall {V} (P : string * V → Prop) (d : dict V) k v :
  Forall P d → P (k, v) → Forall P (dict_set d k v).
Proof.
  intros Hd Hv. induction Hd as [|[k0 v0] d H0 Hd IH]; simpl.
  - by constructor.
  - case_decide; subst; constructor; auto.
Qed.

Lemma foldl_scan_item_Forall (P : string * data → Prop)
    (items : list (node * dict data)) (structure : dict data) :
  Forall P structure →
  (∀ item sub structure,
      (item, sub) ∈ items → Forall P structure →
      Forall P (scan_item structure item sub)) →
  Forall P (foldl (λ structure '(item, sub), scan_item structure item sub)
                  structure items).
Proof.
  revert structure. induction items as [|[item sub] items IH];
    intros structure Hs Hstep; simpl; [done|].
  apply IH.
  - apply Hstep; [apply list_elem_of_here | done].
  - intros item' sub' st Hin. apply Hstep. by apply list_elem_of_further.
Qed.

Lemma Forall_listing (R : nat * string * data → Prop) k structure :
  Forall R (listing k structure)
  ↔ Forall (λ p, Forall R (entries_of k p.1 p.2)) structure.
Proof.
  unfold listing. induction structure as [|[n d] rest IH]; simpl.
  - split; constructor.
  - rewrite Forall_app, Forall_cons, IH. done.
Qed.

Lemma scanned_ok_weaken max_depth k e :
  scanned_ok max_depth (S k) e → scanned_ok max_depth k e.
Proof. intros (? & ? & ?). split; [lia | done]. Qed.

Lemma mapM_fmap {A B C} (f : B → exc C) (g : A → B) (l : list A) :
  mapM f (g <$> l) = mapM (λ x, f (g x)) l.
Proof.
  induction l as [|x l IH]; [done|]. rewrite fmap_cons. cbn [mapM].
  by rewrite IH.
Qed.

Lemma mapM_ext {A B} (f g : A → exc B) (l : list A) :
  (∀ x, f x = g x) → mapM f l = mapM g l.
Proof. intros H. induction l as [|x l IH]; [done|]. simpl. by rewrite H, IH. Qed.

(** The sort succeeds exactly when [is_dir()] answers for every item. *)
Lemma sort_items_None items :
  Forall (λ p, stat_error p.1 = None) items →
  sort_items items = Ok (sort_by (λ p, sort_key p.1) items).
Proof.
  intros Hall. unfold sort_items.
  rewrite (mapM_total _ (λ p, sort_key p.1)); [done|].
  intros p Hp. rewrite Forall_forall in Hall. by rewrite (Hall p Hp).
Qed.

Lemma sort_items_Exists items :
  Exists (λ p, is_Some (stat_error p.1)) items →
  ∃ e, sort_items items = Raise e.
Proof.
  unfold sort_items. induction 1 as [p items [e He]|p items _ [e IH]]; simpl.
  - rewrite He. simpl. eauto.
  - destruct (stat_error p.1) as [e'|]; simpl; [eauto|].
    destruct (mapM _ items); simpl in *; [done | eauto].
Qed.

Lemma sort_items_cases items :
  (Forall (λ p, stat_error p.1 = None) items
   ∧ sort_items items = Ok (sort_by (λ p, sort_key p.1) items))
  ∨ (Exists (λ p, is_Some (stat_error p.1)) items
     ∧ ∃ e, sort_items items = Raise e).
Proof.
  destruct (decide (Forall (λ p, stat_error p.1 = None) items)) as [Hall|Hex].
  - left. split; [done | by apply sort_items_None].
  - right. apply not_Forall_Exists in Hex; [|apply _].
    assert (Hex' : Exists (λ p, is_Some (stat_error p.1)) items).
    { eapply Exists_impl; [exact Hex|]. intros p Hp. simpl in Hp.
      destruct (stat_error p.1); [by eexists | done]. }
    split; [done | by apply sort_items_Exists].
Qed.

(** What [_scan_directory] does with the items of a directory. *)
Lemma scan_Dir max_depth show_hidden nm entries current_depth :
  depth_reached max_depth current_depth = false →
  let items :=
    filter (λ p, _should_include show_hidden (node_name p.1))
      ((λ item, (item, _scan_directory max_depth show_hidden item
                         (current_depth + 1))) <$> entries) in
  (Forall (λ p, stat_error p.1 = None) items
   ∧ _scan_directory max_depth show_hidden (Dir nm entries) current_depth
     = foldl (λ structure '(item, sub), scan_item structure item sub) []
             (sort_by (λ p, sort_key p.1) items))
  ∨ (Exists (λ p, is_Some (stat_error p.1)) items
     ∧ _scan_directory max_depth show_hidden (Dir nm entries) current_depth
       = []).
Proof.
  intros Hdepth items. cbn [_scan_directory]. rewrite Hdepth. fold items.
  destruct (sort_items_cases items) as [[Hall ->]|[Hex [e ->]]]; auto.
Qed.

Lemma scan_listing max_depth show_hidden path :
  ∀ (current_depth : Z) (k : nat),
    Z.of_nat k = current_depth + 1 →
    Forall (scanned_ok max_depth k)
           (listing k (_scan_directory max_depth show_hidden path current_depth)).
Proof.
  induction path as [nm sz|nm f|nm entries IH] using node_ind';
    intros cd k Hk.
  - simpl. destruct (depth_reached _ _); constructor.
  - simpl. destruct (depth_reached _ _); constructor.
  - destruct (depth_reached max_depth cd) eqn:Hreached.
    { cbn [_scan_directory]. rewrite Hreached. constructor. }
    assert (Hdepth : ∀ D, max_depth = Some D → Z.of_nat k ≤ D).
    { intros D ->. simpl in Hreached. apply Z.leb_gt in Hreached. lia. }
    destruct (scan_Dir max_depth show_hidden nm entries cd Hreached)
      as [[_ ->]|[_ ->]]; [|constructor].
    apply Forall_listing, foldl_scan_item_Forall; [constructor|].
    intros item sub structure Hin Hst.
    apply elem_of_sort_by, list_elem_of_filter in Hin as [_ Hin].
    apply list_elem_of_fmap in Hin as (item' & [= <- ->] & Hin).
    rewrite Forall_forall in IH. specialize (IH item Hin (cd + 1) (S k)).
    assert (Hdir : ∀ name,
      Forall (scanned_ok max_depth k)
        (entries_of k name
           (Data "directory" 0
              (_scan_directory max_depth show_hidden item (cd + 1))))).
    { intros name. simpl. constructor.
      - split; [done|]. split; [done|]. by left.
      - eapply Forall_impl; [apply IH; lia|]. apply scanned_ok_weaken. }
    destruct item as [name [sz| |f]|name sub|name f]; simpl.
    + apply dict_set_Forall; [done|]. simpl. constructor; [|constructor].
      split; [done|]. split; [done|]. by right.
    + done.
    + done.
    + apply dict_set_Forall; [done|]. apply Hdir.
    + apply dict_set_Forall; [done|]. apply Hdir.
Qed.

(** A change of the entries that keeps names, kinds, what [is_dir()] does
    and what the loop records goes through filtering, sorting and the
    loop. *)
Section same_view.
Variable h : node → node.
Hypothesis h_name : ∀ n, node_name (h n) = node_name n.
Hypothesis h_is_dir : ∀ n, is_dir (h n) = is_dir n.
Hypothesis h_stat_error : ∀ n, stat_error (h n) = stat_error n.
Hypothesis h_scan_item : ∀ structure n sub,
  scan_item structure (h n) sub = scan_item structure n sub.

Lemma filter_on_item (P : string → bool) (l : list (node * dict data)) :
  filter (λ p, P (node_name p.1)) (on_item h <$> l)
  = on_item h <$> filter (λ p, P (node_name p.1)) l.
Proof.
  induction l as [|[item sub] l IH]; [done|].
  rewrite fmap_cons. unfold on_item at 1. simpl fst.
  destruct (decide (P (node_name item))) as [Hi|Hi].
  - rewrite !filter_cons_True by (simpl; by rewrite ?h_name).
    by rewrite fmap_cons, IH.
  - rewrite !filter_cons_False by (simpl; by rewrite ?h_name). done.
Qed.

Lemma sort_key_on_item p : sort_key (on_item h p).1 = sort_key p.1.
Proof. unfold sort_key. simpl. by rewrite h_name, h_is_dir. Qed.

Lemma insert_by_on_item x (l : list (node * dict data)) :
  insert_by (λ p, sort_key p.1) (on_item h x) (on_item h <$> l)
  = on_item h <$> insert_by (λ p, sort_key p.1) x l.
Proof.
  induction l as [|y l IH]; [done|].
  rewrite fmap_cons. cbn [insert_by]. rewrite !sort_key_on_item.
  destruct (key_le _ _); [done|]. by rewrite fmap_cons, IH.
Qed.

Lemma sort_by_on_item (l : list (node * dict data)) :
  sort_by (λ p, sort_key p.1) (on_item h <$> l)
  = on_item h <$> sort_by (λ p, sort_key p.1) l.
Proof.
  unfold sort_by. induction l as [|x l IH]; [done|].
  rewrite fmap_cons. cbn [foldr]. by rewrite IH, insert_by_on_item.
Qed.

Lemma sort_items_on_item (l : list (node * dict data)) :
  sort_items (on_item h <$> l)
  = match sort_items l with
    | Ok items => Ok (on_item h <$> items)
    | Raise e => Raise e
    end.
Proof.
  unfold sort_items. rewrite mapM_fmap, sort_by_on_item.
  rewrite (mapM_ext _ (λ p : node * dict data,
                         match stat_error p.1 with
                         | Some e => Raise e
                         | None => Ok (sort_key p.1)
                         end)).
  - by destruct (mapM _ l).
  - intros p. rewrite sort_key_on_item. simpl. by rewrite h_stat_error.
Qed.

Lemma foldl_scan_item_on_item (l : list (node * dict data)) structure :
  foldl (λ structure '(item, sub), scan_item structure item sub)
        structure (on_item h <$> l)
  = foldl (λ structure '(item, sub), scan_item structure item sub)
          structure l.
Proof.
  revert structure. induction l as [|[item sub] l IH]; intros st; [done|].
  rewrite fmap_cons. cbn [foldl on_item fst snd].
  by rewrite h_scan_item, IH.
Qed.

(** The sort and the loop of [_scan_directory] on the changed items. *)
Lemma scan_items_on_item (l : list (node * dict data)) :
  match sort_items (on_item h <$> l) with
  | Ok items =>
      foldl (λ structure '(item, sub), scan_item structure item sub) [] items
  | Raise _ => []
  end
  = match sort_items l with
    | Ok items =>
        foldl (λ structure '(item, sub), scan_item structure item sub) [] items
    | Raise _ => []
    end.
Proof.
  rewrite sort_items_on_item. destruct (sort_items l) as [items|e]; [|done].
  apply foldl_scan_item_on_item.
Qed.

End same_view.

Lemma prune_name k n : node_name (prune k n) = node_name n.
Proof. by destruct n. Qed.

Lemma prune_is_dir k n : is_dir (prune k n) = is_dir n.
Proof. by destruct n. Qed.

Lemma prune_stat_error k n : stat_error (prune k n) = stat_error n.
Proof. by destruct n. Qed.

Lemma scan_item_pruned k structure item sub :
  scan_item structure (prune k item) sub = scan_item structure item sub.
Proof. by destruct item. Qed.

(** Scanning with a depth limit is scanning the pruned tree without
    one. *)
Lemma scan_prune show_hidden D path :
  ∀ current_depth current_depth',
    _scan_directory (Some D) show_hidden path current_depth
    = _scan_directory None show_hidden (prune (D - current_depth) path)
        current_depth'.
Proof.
  induction path as [nm sz|nm f|nm entries IH] using node_ind'; intros cd cd'.
  - simpl. by destruct (D <=? cd).
  - simpl. by destruct (D <=? cd).
  - cbn [_scan_directory prune depth_reached].
    destruct (Z.leb_spec D cd) as [Hle|Hlt].
    + by destruct (Z.leb_spec (D - cd) 0); [|lia].
    + destruct (Z.leb_spec (D - cd) 0); [lia|].
      assert (Hmap :
        (λ item, (item, _scan_directory None show_hidden item (cd' + 1)))
          <$> (prune (D - cd - 1) <$> entries)
        = on_item (prune (D - cd - 1))
            <$> ((λ item, (item, _scan_directory (Some D) show_hidden item
                                   (cd + 1))) <$> entries)).
      { rewrite <- !list_fmap_compose. apply list_fmap_ext.
        intros i item Hitem. unfold on_item. simpl. f_equal.
        rewrite Forall_forall in IH. symmetry.
        replace (D - cd - 1) with (D - (cd + 1)) by lia.
        apply IH. by eapply list_elem_of_lookup_2. }
      rewrite Hmap.
      rewrite (filter_on_item _ (prune_name _) (_should_include show_hidden)).
      by rewrite (scan_items_on_item _ (prune_name _) (prune_is_dir _)
                    (prune_stat_error _) (scan_item_pruned _)).
Qed.

End tree.

(** C5. With [max_depth = d] every entry of the scanned structure has
    nesting depth between 1 and [d]; the body of the rendering has one line
    per such entry and no other line; the header counts are the counts of
    those entries.  The scan is the unlimited scan of the tree with
    everything below depth [d] removed, and so is the rendered text: a
    directory at the cut-off is shown as an empty one, without any marker
    of the entries left out. *)
Theorem depth_cutoff (folder_path : string) (root : FileManager.node)
    (show_hidden : bool) (d : Z) :
  let structure := FileManager._scan_directory (Some d) show_hidden root 0 in
  Forall (λ e, (1 ≤ FileManager.entry_depth e)%nat
               ∧ Z.of_nat (FileManager.entry_depth e) ≤ d)
         (FileManager.listing 1 structure)
  ∧ Forall2 FileManager.renders
            (FileManager._format_tree structure "" [])
            (FileManager.listing 1 structure)
  ∧ FileManager.count_items structure
    = Z.of_nat (length (FileManager.listing 1 structure))
  ∧ FileManager.count_types structure
    = (FileManager.dirs_in (FileManager.listing 1 structure),
       FileManager.files_in (FileManager.listing 1 structure))
  ∧ structure
    = FileManager._scan_directory None show_hidden (FileManager.prune d root) 0
  ∧ FileManager.get_tree folder_path (Some root) show_hidden (Some d)
    = FileManager.get_tree folder_path (Some (FileManager.prune d root))
        show_hidden None.
Proof.
  intros structure.
  assert (Hprune : structure
    = FileManager._scan_directory None show_hidden (FileManager.prune d root) 0).
  { unfold structure. rewrite (scan_prune show_hidden d root 0 0).
    by rewrite Z.sub_0_r. }
  split; [|split; [|split; [|split; [|split]]]].
  - eapply Forall_impl; [apply (scan_listing (Some d) show_hidden root 0 1); lia|].
    intros e (Hlo & Hhi & _). split; [done|]. by apply Hhi.
  - apply (format_tree_listing structure "" []).
  - apply count_items_listing.
  - apply count_types_listing.
  - done.
  - unfold FileManager.get_tree. fold structure. rewrite <- Hprune.
    by destruct root as [nm [sz| |f]|nm entries|nm f].
Qed.

(** C6. In the scanned structure every directory entry has size 0 and
    every file entry is a leaf.  The directory and file counts of the
    header are the numbers of directory and file entries of the structure,
    the total is their sum, and it is the number of lines of the tree body,
    each of which is the line of one entry.  The rendering of a non-empty
    directory is the header with these three numbers, an empty line and the
    tree body. *)
Theorem tree_sizes_and_counts (folder_path : string) (root : FileManager.node)
    (show_hidden : bool) (max_depth : option Z) :
  let structure := FileManager._scan_directory max_depth show_hidden root 0 in
  let tree_lines := FileManager._format_tree structure "" [] in
  Forall (λ e, FileManager.entry_ok (FileManager.entry_data e))
         (FileManager.listing 1 structure)
  ∧ Forall2 FileManager.renders tree_lines (FileManager.listing 1 structure)
  ∧ ∃ dir_count file_count,
      FileManager.count_types structure = (dir_count, file_count)
      ∧ dir_count = FileManager.dirs_in (FileManager.listing 1 structure)
      ∧ file_count = FileManager.files_in (FileManager.listing 1 structure)
      ∧ FileManager.count_items structure = dir_count + file_count
      ∧ FileManager.count_items structure = Z.of_nat (length tree_lines)
      ∧ (FileManager.is_dir root = true → structure ≠ [] →
         FileManager.get_tree folder_path (Some root) show_hidden max_depth
         = join nl
             ([ FileManager.node_name root +:+ "/";
                "├── Total items: " +:+ pretty (FileManager.count_items structure);
                "├── Directories: " +:+ pretty dir_count;
                "└── Files: " +:+ pretty file_count;
                "" ] ++ tree_lines)).
Proof.
  intros structure tree_lines.
  pose proof (format_tree_listing structure "" []) as Hlines.
  split; [|split; [done|]].
  - eapply Forall_impl;
      [apply (scan_listing max_depth show_hidden root 0 1); lia|].
    by intros e (_ & _ & Hok).
  - eexists _, _. split; [apply (count_types_listing structure 1)|].
    split; [done|]. split; [done|].
    rewrite (count_items_listing structure 1). split; [|split].
    + by rewrite dirs_files_total.
    + unfold tree_lines. by rewrite (Forall2_length _ _ _ Hlines).
    + intros Hdir Hne. unfold FileManager.get_tree. fold structure.
      rewrite (count_types_listing structure 1), (count_items_listing structure 1).
      destruct root as [nm [sz| |f]|nm entries|nm f]; try done;
        by destruct structure.
Qed.

(** ** The code on small inputs *)

Example chunks_ten_by_four :
  chunks "0123456789" 4 = Ok ["0123"; "4567"; "89"].
Proof. reflexivity. Qed.

Example chunks_zero_width :
  chunks "0123456789" 0
  = Raise (Exn ValueError "range() arg 3 must not be zero").
Proof. reflexivity. Qed.

Example chunks_negative_width : chunks "0123456789" (-3) = Ok [].
Proof. reflexivity. Qed.

Example slice_negative_index : slice "0123456789" (-3) 100 = "789".
Proof. reflexivity. Qed.

Example strip_blank : truthy (strip (" " +:+ nl +:+ " ")) = false.
Proof. reflexivity. Qed.

Example suffix_examples :
  suffix (MkPath "" ["a"; "b.tar.gz"]) = ".gz"
  ∧ suffix (MkPath "" [".bashrc"]) = ""
  ∧ suffix (MkPath "" ["x"; "Dockerfile"]) = "".
Proof. by repeat split. Qed.

Example str_examples :
  str (MkPath "" []) = "."
  ∧ str (MkPath "/" []) = "/"
  ∧ str (MkPath "/" ["r"; "a.py"]) = "/r/a.py"
  ∧ str (MkPath "//" ["r"; "a.py"]) = "//r/a.py"
  ∧ str (MkPath "" ["r"; "a.py"]) = "r/a.py"
  ∧ name (MkPath "//" []) = "".
Proof. by repeat split. Qed.

(** An absolute path is not relative to [Path(".")]; a relative one is. *)
Example relative_to_examples :
  relative_to (MkPath "" ["r"; "a.py"]) (MkPath "" [])
  = Ok (MkPath "" ["r"; "a.py"])
  ∧ relative_to (MkPath "/" ["r"; "a.py"]) (MkPath "/" ["r"])
    = Ok (MkPath "" ["a.py"])
  ∧ relative_to (MkPath "/" ["r"; "a.py"]) (MkPath "" [])
    = Raise (Exn ValueError
               ("'/r/a.py' is not in the subpath of '' OR one path is "
                  +:+ "relative and the other is absolute."))
  ∧ relative_to (MkPath "/" ["r"; "a.py"]) (MkPath "/" ["x"])
    = Raise (Exn ValueError
               ("'/r/a.py' is not in the subpath of '/x' OR one path is "
                  +:+ "relative and the other is absolute.")).
Proof. by repeat split. Qed.

Example batch_demo :
  Local.batch_summarize demo_world "m" demo_paths None
  = Ok [("a.py", "Error: [Errno 13] Permission denied: 'a.py'");
        ("b.py", "a summary")].
Proof. reflexivity. Qed.

Example main_demo :
  Simple.main_results demo_world "m" demo_paths
  = Ok ["## a.py" +:+ nl +:+ nl
          +:+ "Error: [Errno 13] Permission denied: 'a.py'" +:+ nl;
        "## b.py" +:+ nl +:+ nl +:+ "a summary" +:+ nl].
Proof. reflexivity. Qed.

(** Same key twice: the mapping keeps one entry, at its first position. *)
Example dict_set_twice :
  dict_set (dict_set (dict_set [] "a" 1) "b" 2) "a" 3 = [("a", 3); ("b", 2)].
Proof. reflexivity. Qed.

Example get_code_files_demo :
  FileManager.get_code_files (MkPath "/" ["r"]) demo_tree
    (λ rel, bool_decide (names rel = ["src"; "main.py"]))
  = Ok [MkPath "/" ["r"; "src"; "Dockerfile"]].
Proof. by vm_compute. Qed.

(** [os.walk] lists an entry it cannot examine with the files. *)
Example get_code_files_unexaminable :
  FileManager.get_code_files (MkPath "" ["d"])
    (FileManager.Dir "d"
       [FileManager.File "link.py"
          (FileManager.St_error
             (FileManager.OsFailure false "[Errno 36] File name too long"))])
    (λ _, false)
  = Ok [MkPath "" ["d"; "link.py"]].
Proof. by vm_compute. Qed.

Example format_size_examples :
  FileManager._format_size 0 = "0 B"
  ∧ FileManager._format_size 1023 = "1023 B"
  ∧ FileManager._format_size 1024 = "1.0 KB"
  ∧ FileManager._format_size 1536 = "1.5 KB"
  ∧ FileManager._format_size 1048575 = "1024.0 KB"
  ∧ FileManager._format_size (5 * 1024 ^ 3) = "5.0 GB"
  ∧ FileManager._format_size (1500 * 1024 ^ 4) = "1500.0 TB".
Proof. by repeat split. Qed.

(** The rendering example of the specification: [proj/] with the empty
    directory [docs/] and the file [x.txt] of 2048 bytes. *)
Example get_tree_proj :
  FileManager.get_tree "proj"
    (Some (FileManager.Dir "proj"
             [FileManager.File "x.txt" (FileManager.St_size 2048);
              FileManager.Dir "docs" []]))
    false None
  = join nl [ "proj/";
              "├── Total items: 2";
              "├── Directories: 1";
              "└── Files: 1";
              "";
              "├── docs/";
              "└── x.txt [2.0 KB]" ].
Proof. reflexivity. Qed.

(** Depth 1 of the example tree: [src/] is shown as if it were empty. *)
Example get_tree_depth_one :
  FileManager.get_tree "proj" (Some demo_tree) false (Some 1)
  = join nl [ "proj/";
              "├── Total items: 3";
              "├── Directories: 2";
              "└── Files: 1";
              "";
              "├── docs/";
              "├── src/";
              "└── x.txt [2.0 KB]" ].
Proof. reflexivity. Qed.

Example get_tree_depth_zero :
  FileManager.get_tree "proj" (Some demo_tree) false (Some 0)
  = "proj/" +:+ nl +:+ "└── (empty directory)".
Proof. reflexivity. Qed.

Example get_tree_missing :
  FileManager.get_tree "nowhere" None false None
  = "Error: Path 'nowhere' does not exist.".
Proof. reflexivity. Qed.

(** One entry that cannot be examined empties the scan of its directory:
    the sort raises before the loop has recorded anything.  Below, [sub/]
    is listed, and shown empty although it holds [a.py]. *)
Example get_tree_unexaminable_entry :
  FileManager.get_tree "d"
    (Some (FileManager.Dir "d"
             [FileManager.File "c.py" (FileManager.St_size 3);
              FileManager.Dir "sub"
                [FileManager.File "a.py" (FileManager.St_size 1);
                 FileManager.File "link"
                   (FileManager.St_error
                      (FileManager.OsFailure false
                         "[Errno 36] File name too long"))]]))
    true None
  = join nl [ "d/";
              "├── Total items: 2";
              "├── Directories: 1";
              "└── Files: 1";
              "";
              "├── sub/";
              "└── c.py [3 B]" ].
Proof. reflexivity. Qed.

(** ** The theorems at concrete inputs *)

Lemma demo_env_io_errors : FileManager.io_errors_only demo_env.
Proof.
  intros p e. unfold demo_env. simpl. case_decide; [discriminate|].
  by intros [= <-].
Defined.

Lemma demo_env_writes : FileManager.writes_succeed demo_env.
Proof. by intros p content. Defined.




Lemma demo_world_console : console_ok demo_world.
Proof. by intros text. Defined.

Lemma demo_tree_wf : FileManager.wf demo_tree.
Proof.
  repeat first
    [ apply FileManager.wf_File
    | apply FileManager.wf_Dir; [by apply (bool_decide_unpack _)|]
    | apply Forall_cons_2
    | apply Forall_nil_2 ].
Defined.


(** 5000 characters, default threshold: two chunks, of 3000 and 2000. *)
Lemma chunked_path_iff_over_threshold_witness :
  len x5000 = 5000
  ∧ ∃ c1 c2, chunks x5000 3000 = Ok [c1; c2] ∧ len c1 = 3000 ∧ len c2 = 2000.
Proof.
  assert (H : len x5000 = 5000) by (vm_compute; reflexivity).
  split; [done|].
  exact (proj2 (proj2 (proj2
           (chunked_path_iff_over_threshold x5000 "a.py" 4000))) H).
Defined.

(** In the example tree nothing the filter returns is a directory. *)
Lemma get_code_files_spec_witness :
  FileManager.wf demo_tree
  ∧ ∃ files,
      FileManager.get_code_files (MkPath "/" ["r"]) demo_tree (λ _, false)
      = Ok files
      ∧ ∀ file rel n,
          file ∈ files →
          file = descend (MkPath "/" ["r"]) rel →
          FileManager.resolves demo_tree rel n →
          FileManager.is_dir n = false.
Proof.
  split; [exact demo_tree_wf|].
  destruct (get_code_files_spec (MkPath "/" ["r"]) demo_tree (λ _, false))
    as (files & Hfiles & _ & Hnodir).
  exists files. split; [done|]. exact (Hnodir demo_tree_wf).
Defined.

(** The header of the example tree: five items, two directories, three
    files. *)
Lemma tree_sizes_and_counts_witness :
  FileManager.is_dir demo_tree = true
  ∧ FileManager._scan_directory None false demo_tree 0 ≠ []
  ∧ ∃ tree_lines,
      FileManager.get_tree "proj" (Some demo_tree) false None
      = join nl ([ "proj/"; "├── Total items: 5"; "├── Directories: 2";
                   "└── Files: 3"; "" ] ++ tree_lines).
Proof.
  assert (Hne : FileManager._scan_directory None false demo_tree 0 ≠ [])
    by (vm_compute; discriminate).
  split; [reflexivity|]. split; [exact Hne|].
  destruct (tree_sizes_and_counts "proj" demo_tree false None)
    as (_ & _ & dirs & files & _ & -> & -> & _ & _ & Htree).
  eexists. exact (Htree eq_refl Hne).
Defined.

(** 512 bytes are printed in bytes, 2048 bytes in KB with one decimal. *)
Lemma file_line_size_suffix_witness :
  (0 < 512 < 1024 ∧ FileManager._format_size 512 = pretty 512 +:+ " B")
  ∧ ((1 ≤ 1)%nat ∧ FileManager.size_names !! 1%nat = Some "KB"
     ∧ 1024 ^ Z.of_nat 1 ≤ 2048
     ∧ ∃ m tenths,
         FileManager.float_of_int 2048 = FileManager.Float m 0
         ∧ FileManager._format_size 2048
           = (pretty (tenths / 10) +:+ "." +:+ pretty (tenths mod 10))
               +:+ " " +:+ "KB").
Proof.
  split.
  - split; [lia|].
    apply (proj1 (proj2 (proj2 (file_line_size_suffix "x.txt" 512 [] true "" [])))).
    lia.
  - split; [lia|]. split; [reflexivity|]. split; [simpl; lia|].
    destruct (proj1 (proj2 (proj2 (proj2
                (file_line_size_suffix "x.txt" 2048 [] true "" []))))
                1%nat "KB" ltac:(lia) eq_refl ltac:(simpl; lia)
                ltac:(left; simpl; lia))
      as (m & tenths & Hm & _ & Hfmt & _).
    by exists m, tenths.
Defined.


(** The layout of the staged text of [/r/a.py]. *)
Lemma staged_content_layout_witness :
  FileManager.open_rb demo_env demo_file = Ok (String.list_byte_of_string "C")
  ∧ ∃ content,
      FileManager.read_file demo_env demo_file "T" true = Ok (demo_file, content)
      ∧ content = str demo_file +:+ nl +:+ "T" +:+ nl
                    +:+ FileManager.decode_utf8_ignore demo_env
                          (String.list_byte_of_string "C").
Proof.
  split; [reflexivity|].
  destruct (staged_content_layout demo_env demo_file "T"
              (String.list_byte_of_string "C") (MkPath "/" ["r"])
              (MkPath "/" ["tmp"; "out"]) ∅ ∅ eq_refl)
    as (content & Hread & Hcontent & _).
  by exists content.
Defined.

(** Reading a missing file gives the empty content, without the prefix;
    reading [/r/a.py] gives the prefix and the text. *)
Lemma read_file_catches_io_errors_only_witness :
  FileManager.read_file demo_env (MkPath "/" ["r"; "gone.py"]) "T" true
  = Ok (MkPath "/" ["r"; "gone.py"], "")
  ∧ FileManager.read_file demo_env demo_file "T" true
    = Ok (demo_file, "/r/a.py" +:+ nl +:+ "T" +:+ nl +:+ "C").
Proof.
  split.
  - exact (read_file_catches_io_errors_only demo_env (MkPath "/" ["r"; "gone.py"]) "T"
             true).
  - exact (read_file_catches_io_errors_only demo_env demo_file "T" true).
Defined.


(** * Further properties of the code *)

(** ** The chunk-and-merge path of the summarizers *)
Section merge.

Lemma mapM_Forall2 {A B} (f : A → exc B) (l : list A) (k : list B) :
  Forall2 (λ x y, f x = Ok y) l k → mapM f l = Ok k.
Proof.
  induction 1 as [|x y l k Hx _ IH]; simpl; [done|]. by rewrite Hx, IH.
Qed.

Lemma mapM_first_raise {A B} (f : A → exc B) (l1 l2 : list A) (x : A)
    (ys : list B) (e : exn) :
  Forall2 (λ x y, f x = Ok y) l1 ys → f x = Raise e →
  mapM f (l1 ++ x :: l2) = Raise e.
Proof.
  intros Hl1 Hx. induction Hl1 as [|x1 y1 l1 ys Hx1 _ IH]; simpl.
  - by rewrite Hx.
  - by rewrite Hx1, IH.
Qed.

Lemma mapM_Raise_inv {A B} (f : A → exc B) (l : list A) (e : exn) :
  mapM f l = Raise e → ∃ x, x ∈ l ∧ f x = Raise e.
Proof.
  induction l as [|x l IH]; simpl; [done|].
  destruct (f x) as [y|e'] eqn:Hx; simpl.
  - destruct (mapM f l) as [k|e'']; simpl; [done|]. intros [= ->].
    destruct IH as (x' & Hin & Hx'); [done|]. exists x'.
    split; [by apply list_elem_of_further | done].
  - intros [= ->]. exists x. split; [apply list_elem_of_here | done].
Qed.

Lemma chunks_nonpositive content W :
  W < 0 ∨ (content = "" ∧ W ≠ 0) → chunks content W = Ok [].
Proof.
  intros H. unfold chunks, range.
  destruct (Z.eqb_spec W 0) as [->|Hne]; [by destruct H as [?|[_ ?]]; lia|].
  simpl. unfold range_len. destruct H as [HW| [-> _]].
  - destruct (Z.ltb_spec 0 W); [lia|].
    destruct (Z.ltb_spec (len content) 0); [unfold len in *; lia | done].
  - change (len "") with 0. by destruct (0 <? W).
Qed.

(** An exception of a [print; request] step is one of the console or one
    of the backend. *)
Lemma print_then_Raise_inv {A} (w : world) text (r : exc A) e :
  (_ ← print w text; r) = Raise e → print w text = Raise e ∨ r = Raise e.
Proof.
  destruct (print w text) as [[]|e']; simpl; [by right|].
  intros [= ->]. by left.
Qed.

Lemma report_empty (results : dict string) :
  Local.report results = "" ↔ results = [].
Proof.
  split; [|by intros ->].
  destruct results as [|[k v] rest]; [done|]. intros H. exfalso.
  unfold Local.report in H. rewrite fmap_cons in H.
  destruct (_ <$> rest); discriminate H.
Qed.

End merge.

(** X1. The chunked path with a degenerate width.  A width of 0 makes
    [summarize_large_code] raise [ValueError] whatever the backend answers
    and before anything is printed; with a negative width, or with an empty
    content, there is no chunk at all: after the line announcing 0 chunks
    (and, in the simple summarizer, the line announcing the final summary)
    the result is the backend's answer to the merge request over zero
    sections, and the content never reaches the backend. *)
Theorem large_code_degenerate_width (w : world) (model content file_path : string)
    (W : Z) :
  W ≤ 0 ∨ content = "" →
  if decide (W = 0) then
    Simple.summarize_large_code w model content file_path W
    = Raise (Exn ValueError "range() arg 3 must not be zero")
    ∧ Local.summarize_large_code w model content file_path W
      = Raise (Exn ValueError "range() arg 3 must not be zero")
  else
    Simple.summarize_large_code w model content file_path W
    = (_ ← print w ("📄 Processing large file " +:+ file_path
                      +:+ " in 0 chunks...");
       _ ← print w "  Creating final summary...";
       generate w model
         ("Create a comprehensive summary from these sections of "
            +:+ file_path +:+ ":" +:+ nl +:+ nl)
         [("temperature", OFloat (2 # 10)); ("num_ctx", OInt 4096)])
    ∧ Local.summarize_large_code w model content file_path W
      = (_ ← print w ("📄 Processing " +:+ file_path +:+ " in 0 chunks...");
         generate w model
           ("Create a comprehensive summary from these sections of "
              +:+ file_path +:+ ":" +:+ nl +:+ nl)
           [("num_gpu", OInt 1)]).
Proof.
  intros H. destruct (decide (W = 0)) as [->|Hne].
  - done.
  - unfold Simple.summarize_large_code, Local.summarize_large_code.
    rewrite chunks_nonpositive by (destruct H; [left; lia | by right]).
    done.
Qed.

Lemma large_code_degenerate_width_witness :
  (-5 ≤ 0 ∨ "print(1)" = "")
  ∧ Simple.summarize_large_code demo_world "m" "print(1)" "a.py" (-5)
    = Ok "a summary".
Proof.
  assert (H : -5 ≤ 0 ∨ "print(1)" = "") by (left; lia).
  split; [exact H|].
  exact (proj1 (large_code_degenerate_width demo_world "m" "print(1)" "a.py"
                  (-5) H)).
Defined.

(** X2. The chunked path with a positive width.  The line announcing the
    number of chunks is printed first: when the console refuses it, its
    exception is the result and the backend is never asked.  On a console
    that takes every line: when the backend answers every chunk request,
    the result is its answer to the merge request over the chunk summaries
    in chunk order; when chunk [k] is the first whose request fails, the
    result is that failure, whatever the summaries of the chunks before it:
    completed chunks earn no partial result. *)
Theorem large_code_merge_or_first_failure (w : world)
    (model content file_path : string) (W : Z) :
  1 ≤ W →
  ∃ cs : list string,
    chunks content W = Ok cs
    ∧ (∀ e,
         print w ("📄 Processing large file " +:+ file_path +:+ " in "
                    +:+ pretty (Z.of_nat (length cs)) +:+ " chunks...")
         = Raise e →
         Simple.summarize_large_code w model content file_path W = Raise e)
    ∧ (∀ e,
         print w ("📄 Processing " +:+ file_path +:+ " in "
                    +:+ pretty (Z.of_nat (length cs)) +:+ " chunks...")
         = Raise e →
         Local.summarize_large_code w model content file_path W = Raise e)
    ∧ (console_ok w →
       (∀ summaries,
          Forall2 (λ chunk summary,
                     generate w model
                       ("Summarize this code section from " +:+ file_path
                          +:+ ":" +:+ nl +:+ nl +:+ chunk)
                       [("temperature", OFloat (2 # 10)); ("num_ctx", OInt 4096)]
                     = Ok summary) cs summaries →
          Simple.summarize_large_code w model content file_path W
          = generate w model (Simple.final_prompt file_path summaries)
              [("temperature", OFloat (2 # 10)); ("num_ctx", OInt 4096)])
       ∧ (∀ (k : nat) chunk summaries e,
            cs !! k = Some chunk →
            Forall2 (λ chunk summary,
                       generate w model
                         ("Summarize this code section from " +:+ file_path
                            +:+ ":" +:+ nl +:+ nl +:+ chunk)
                         [("temperature", OFloat (2 # 10));
                          ("num_ctx", OInt 4096)]
                       = Ok summary) (take k cs) summaries →
            generate w model
              ("Summarize this code section from " +:+ file_path
                 +:+ ":" +:+ nl +:+ nl +:+ chunk)
              [("temperature", OFloat (2 # 10)); ("num_ctx", OInt 4096)]
            = Raise e →
            Simple.summarize_large_code w model content file_path W = Raise e)
       ∧ (∀ summaries,
            Forall2 (λ chunk summary,
                       generate w model
                         ("Summarize this code section from " +:+ file_path
                            +:+ ":" +:+ nl +:+ nl +:+ chunk)
                         [("num_gpu", OInt 1); ("temperature", OFloat (2 # 10))]
                       = Ok summary) cs summaries →
            Local.summarize_large_code w model content file_path W
            = generate w model (Local.final_prompt file_path summaries)
                [("num_gpu", OInt 1)])
       ∧ (∀ (k : nat) chunk summaries e,
            cs !! k = Some chunk →
            Forall2 (λ chunk summary,
                       generate w model
                         ("Summarize this code section from " +:+ file_path
                            +:+ ":" +:+ nl +:+ nl +:+ chunk)
                         [("num_gpu", OInt 1); ("temperature", OFloat (2 # 10))]
                       = Ok summary) (take k cs) summaries →
            generate w model
              ("Summarize this code section from " +:+ file_path
                 +:+ ":" +:+ nl +:+ nl +:+ chunk)
              [("num_gpu", OInt 1); ("temperature", OFloat (2 # 10))]
            = Raise e →
            Local.summarize_large_code w model content file_path W = Raise e)).
Proof.
  intros HW. eexists. split; [by apply chunks_eq|].
  set (cs := _ <$> seq 0 _).
  split; [|split].
  - intros e He. unfold Simple.summarize_large_code.
    rewrite chunks_eq by done. fold cs. cbn [mbind exc_bind]. by rewrite He.
  - intros e He. unfold Local.summarize_large_code.
    rewrite chunks_eq by done. fold cs. cbn [mbind exc_bind]. by rewrite He.
  - intros Hout.
    rewrite simple_large_code_quiet, local_large_code_quiet by done.
    rewrite chunks_eq by done. fold cs. simpl.
    split; [|split; [|split]].
    + intros summaries Hall. by rewrite (mapM_Forall2 _ _ _ Hall).
    + intros k chunk summaries e Hk Hall He.
      rewrite <- (take_drop_middle cs k chunk Hk).
      by rewrite (mapM_first_raise _ _ _ _ _ _ Hall He).
    + intros summaries Hall. by rewrite (mapM_Forall2 _ _ _ Hall).
    + intros k chunk summaries e Hk Hall He.
      rewrite <- (take_drop_middle cs k chunk Hk).
      by rewrite (mapM_first_raise _ _ _ _ _ _ Hall He).
Qed.

(** 5000 characters and a backend that refuses every chunk request: the
    refusal of the first chunk is the result. *)
Lemma large_code_merge_or_first_failure_witness :
  1 ≤ 3000
  ∧ console_ok probe_world
  ∧ Simple.summarize_large_code probe_world "m" x5000 "a.py" 3000
    = Raise (Exn BackendError "refused").
Proof.
  assert (Hout : console_ok probe_world) by (by intros text).
  split; [lia|]. split; [exact Hout|].
  destruct (large_code_merge_or_first_failure probe_world "m" x5000 "a.py" 3000
              ltac:(lia)) as (cs & Hcs & _ & _ & Hquiet).
  destruct (Hquiet Hout) as (_ & Hfail & _).
  rewrite chunks_5000 in Hcs by (vm_compute; reflexivity).
  injection Hcs as <-.
  apply (Hfail 0%nat _ [] _ eq_refl); [constructor | reflexivity].
Defined.

(** X3. [summarize_code] raises nothing of its own: whenever it raises, in
    either summarizer and on either path, the exception is one the backend
    raised for some request or one the console raised for some line. *)
Theorem summarize_code_raises_nothing_of_its_own (w : world)
    (model content file_path : string) (max_tokens : Z) (e : exn) :
  Simple.summarize_code w model content file_path = Raise e
  ∨ Local.summarize_code w model content file_path max_tokens = Raise e →
  (∃ prompt options, generate w model prompt options = Raise e)
  ∨ (∃ text, print w text = Raise e).
Proof.
  assert (Hstep : ∀ {A} text (r : exc A) e',
    (_ ← print w text; r) = Raise e' →
    (∃ text, print w text = Raise e') ∨ r = Raise e').
  { intros A text r e' H. apply print_then_Raise_inv in H as [H|H]; eauto. }
  assert (Hhandler : ∀ (body : exc string),
    (∀ e', body = Raise e' →
           (∃ prompt options, generate w model prompt options = Raise e')
           ∨ (∃ text, print w text = Raise e')) →
    try_except body any_Exception
      (λ e', _ ← print w ("❌ Error generating summary: " +:+ exn_str e');
             Raise e') = Raise e →
    (∃ prompt options, generate w model prompt options = Raise e)
    ∨ (∃ text, print w text = Raise e)).
  { intros body Hbody. destruct body as [s|e']; simpl; [done|].
    intros H. apply Hstep in H as [H|H]; [by right|].
    injection H as ->. by apply Hbody. }
  assert (Hlarge : ∀ (p1 : list string → string)
                     (g1 : list string → Z * string → exc string)
                     (g2 : list string → exc string),
    (∀ cs ic e', g1 cs ic = Raise e' →
       (∃ prompt options, generate w model prompt options = Raise e')
       ∨ (∃ text, print w text = Raise e')) →
    (∀ ss e', g2 ss = Raise e' →
       (∃ prompt options, generate w model prompt options = Raise e')
       ∨ (∃ text, print w text = Raise e')) →
    (cs ← chunks content 3000; _ ← print w (p1 cs);
     ss ← mapM (g1 cs) (enumerate 1 (cs : list string)); g2 ss) = Raise e →
    (∃ prompt options, generate w model prompt options = Raise e)
    ∨ (∃ text, print w text = Raise e)).
  { intros p1 g1 g2 Hg1 Hg2. rewrite chunks_eq by lia.
    cbn [mbind exc_bind]. intros H. apply Hstep in H as [H|H]; [by right|].
    destruct (mapM _ _) as [ss|e'] eqn:Hm; simpl in H.
    - exact (Hg2 _ _ H).
    - injection H as ->. apply mapM_Raise_inv in Hm as (ic & _ & Hic).
      exact (Hg1 _ _ _ Hic). }
  intros [H|H].
  - unfold Simple.summarize_code in H. destruct (4000 <? len content).
    + unfold Simple.summarize_large_code in H.
      revert H. apply Hlarge.
      * intros cs ic e' H. apply Hstep in H as [H|H]; [by right|]. left; eauto.
      * intros ss e' H. apply Hstep in H as [H|H]; [by right|]. left; eauto.
    + revert H. apply Hhandler. intros e' H.
      apply Hstep in H as [H|H]; [by right|]. left; eauto.
  - unfold Local.summarize_code in H. destruct (max_tokens <? len content).
    + unfold Local.summarize_large_code in H.
      revert H. apply Hlarge.
      * intros cs ic e' H. apply Hstep in H as [H|H]; [by right|]. left; eauto.
      * intros ss e' H. left; eauto.
    + revert H. apply Hhandler. intros e' H.
      destruct (monitor_gpu w) as [g|].
      * apply Hstep in H as [H|H]; [by right|]. left; eauto.
      * left; eauto.
Qed.

Lemma summarize_code_raises_nothing_of_its_own_witness :
  Simple.summarize_code probe_world "m" x5000 "a.py"
  = Raise (Exn BackendError "refused")
  ∧ ((∃ prompt options,
        generate probe_world "m" prompt options
        = Raise (Exn BackendError "refused"))
     ∨ (∃ text, print probe_world text = Raise (Exn BackendError "refused"))).
Proof.
  assert (H : Simple.summarize_code probe_world "m" x5000 "a.py"
              = Raise (Exn BackendError "refused")) by (vm_compute; reflexivity).
  split; [done|].
  exact (summarize_code_raises_nothing_of_its_own probe_world "m" x5000 "a.py"
           4000 _ (or_introl H)).
Defined.

(** X4. [batch_summarize] with an output file, compared with the same call
    without one.  When the loop raises, so does the call with an output
    file.  When the loop ends with a mapping: an empty file name means no
    write and the mapping is returned; otherwise the report is written
    once, after the loop, and then the line naming the file is printed; an
    exception of the write or of that line leaves [batch_summarize] and the
    caller gets no mapping, and when both succeed the mapping is returned.
    The report is empty exactly when the mapping is, so a batch of blank
    files still writes an (empty) report.  On a console that takes the
    lines of the loop, the loop ends with a mapping. *)
Theorem batch_report_written (w : world) (model : string)
    (file_paths : list Path) (output_file : string) :
  match Local.batch_summarize w model file_paths None with
  | Raise e =>
      Local.batch_summarize w model file_paths (Some output_file) = Raise e
  | Ok results =>
      Local.batch_summarize w model file_paths (Some output_file)
      = (if decide (output_file = "") then Ok results
         else match open_write w output_file (Local.report results) with
              | Raise e => Raise e
              | Ok _ =>
                  match print w ("💾 Results saved to " +:+ output_file) with
                  | Raise e => Raise e
                  | Ok _ => Ok results
                  end
              end)
      ∧ (Local.report results = "" ↔ results = [])
      ∧ (loop_lines_ok w →
         results = foldl (Local.record w model) [] file_paths)
  end
  ∧ (loop_lines_ok w →
     ∃ results, Local.batch_summarize w model file_paths None = Ok results).
Proof.
  split.
  - unfold Local.batch_summarize.
    destruct (for_loop _ _ _) as [results|e] eqn:Hloop; simpl; [|done].
    split; [|split].
    + destruct output_file as [|c f]; simpl; [done|].
      destruct (open_write w _ _) as [[]|]; simpl; [|done].
      by destruct (print w _) as [[]|].
    + apply report_empty.
    + intros Hout. rewrite batch_loop_eq in Hloop by done. by injection Hloop.
  - intros Hout. unfold Local.batch_summarize.
    rewrite batch_loop_eq by done. by eexists.
Qed.

(** The batch of [demo_paths] with the report written to [out.md]. *)
Lemma batch_report_written_witness :
  loop_lines_ok demo_world
  ∧ Local.batch_summarize demo_world "m" demo_paths (Some "out.md")
    = Ok [("a.py", "Error: [Errno 13] Permission denied: 'a.py'");
          ("b.py", "a summary")]
  ∧ Local.batch_summarize readonly_world "m" demo_paths (Some "out.md")
    = Raise (Exn PermissionError "[Errno 13] Permission denied: 'out.md'").
Proof.
  split; [by intros text _|]. split.
  - pose proof (batch_report_written demo_world "m" demo_paths "out.md") as [H _].
    change (Local.batch_summarize demo_world "m" demo_paths None)
      with (Ok [("a.py", "Error: [Errno 13] Permission denied: 'a.py'");
                ("b.py", "a summary")] : exc (dict string)) in H.
    by destruct H as [-> _].
  - pose proof (batch_report_written readonly_world "m" demo_paths "out.md")
      as [H _].
    change (Local.batch_summarize readonly_world "m" demo_paths None)
      with (Ok [("a.py", "Error: [Errno 13] Permission denied: 'a.py'");
                ("b.py", "a summary")] : exc (dict string)) in H.
    by destruct H as [-> _].
Defined.

(** ** Walking the directory tree *)
Section walking.
Import FileManager Discovery.

Lemma flat_map_bind {A B} (f : A → list B) (l : list A) : flat_map f l = l ≫= f.
Proof. induction l as [|x l IH]; [done|]. simpl. by rewrite IH. Qed.

Lemma list_bind_ext_in {A B} (f g : A → list B) (l : list A) :
  (∀ x, x ∈ l → f x = g x) → l ≫= f = l ≫= g.
Proof.
  induction l as [|x l IH]; intros H; [done|]. csimpl.
  rewrite (H x) by apply list_elem_of_here.
  rewrite IH; [done|]. intros y Hy. by apply H, list_elem_of_further.
Qed.

Lemma fmap_bind_comm {A B C} (f : B → C) (g : A → list B) (l : list A) :
  f <$> (l ≫= g) = l ≫= λ x, f <$> g x.
Proof. induction l as [|x l IH]; [done|]. csimpl. by rewrite fmap_app, IH. Qed.

Lemma elem_of_rels P n rel :
  rel ∈ rels P n ↔ ∃ m, resolves n rel m ∧ P m.
Proof.
  revert rel. induction n as [nm sz|nm f|nm entries IH] using node_ind';
    intros rel.
  - split; [by intros ?%elem_of_nil|]. intros (m & H & _). inversion H.
  - split; [by intros ?%elem_of_nil|]. intros (m & H & _). inversion H.
  - rewrite Forall_forall in IH. simpl. rewrite elem_of_app. split.
    + intros [H|H].
      * apply list_elem_of_fmap in H as (e & -> & [HP Hin]%list_elem_of_filter).
        exists e. split; [by apply resolves_entry | done].
      * apply list_elem_of_bind in H as (child & H & Hin).
        destruct (is_dir child); [|by apply elem_of_nil in H].
        apply list_elem_of_fmap in H as (rel' & -> & H).
        apply (IH child Hin) in H as (m & Hres & HP).
        exists m. split; [by apply resolves_below | done].
    + intros (m & Hres & HP).
      inversion Hres as [? ? child Hin|? ? child rel' ? Hin Hres']; subst.
      * left. apply list_elem_of_fmap. exists m. split; [done|].
        by apply list_elem_of_filter.
      * right. apply list_elem_of_bind. exists child. split; [|done].
        rewrite (resolves_from_dir _ _ _ Hres').
        apply list_elem_of_fmap. exists rel'. split; [done|].
        apply (IH child Hin). eauto.
Qed.

Lemma rels_nonempty P n : [] ∉ rels P n.
Proof. intros (m & H & _)%elem_of_rels. inversion H. Qed.

(** In a well-formed tree no relative path is met twice. *)
Lemma rels_NoDup P n : wf n → NoDup (rels P n).
Proof.
  induction n as [nm sz|nm f|nm entries IH] using node_ind'; intros Hwf;
    [constructor..|].
  inversion Hwf as [| |? ? Hnames Hall]; subst.
  rewrite Forall_forall in IH, Hall. simpl.
  assert (Hent : NoDup entries) by by eapply NoDup_fmap_1.
  apply NoDup_app. split; [|split].
  - apply NoDup_fmap_2_strong; [|by apply NoDup_filter].
    intros x y [_ Hx]%list_elem_of_filter [_ Hy]%list_elem_of_filter [= Heq].
    by apply (NoDup_fmap_eq node_name entries).
  - intros rel (e & -> & _)%list_elem_of_fmap
      (child & H & Hin)%list_elem_of_bind.
    destruct (is_dir child); [|by apply elem_of_nil in H].
    apply list_elem_of_fmap in H as (rel' & [= _ <-] & H).
    by apply rels_nonempty in H.
  - apply NoDup_bind; [| |done].
    + intros x1 x2 rel Hx1 Hx2 H1 H2.
      destruct (is_dir x1); [|by apply elem_of_nil in H1].
      destruct (is_dir x2); [|by apply elem_of_nil in H2].
      apply list_elem_of_fmap in H1 as (r1 & -> & _).
      apply list_elem_of_fmap in H2 as (r2 & [= Heq _] & _).
      by apply (NoDup_fmap_eq node_name entries).
    + intros child Hin. destruct (is_dir child); [|constructor].
      apply NoDup_fmap_2; [by intros ?? [=]|]. apply IH; [done|]. by apply Hall.
Qed.

Lemma all_files_rels top n :
  all_files top n = descend top <$> rels (λ e, negb (is_dir e)) n.
Proof.
  revert top. induction n as [nm sz|nm f|nm entries IH] using node_ind';
    intros top; [done..|].
  rewrite Forall_forall in IH.
  rewrite all_files_Dir, flat_map_bind. simpl.
  rewrite fmap_app, <- !list_fmap_compose, fmap_bind_comm. f_equal.
  - rewrite (list_filter_iff (λ e, ¬ is_dir e) (λ e, negb (is_dir e))); [done|].
    intros e. destruct (is_dir e); simpl; tauto.
  - apply list_bind_ext_in. intros child Hin.
    destruct (is_dir child); [|done].
    rewrite (IH child Hin), <- list_fmap_compose.
    apply list_fmap_ext. intros _ rel _. simpl. apply descend_join.
Qed.

Lemma filter_spec_sublist match_file base_dir files kept :
  filter_spec match_file base_dir files = Ok kept → sublist kept files.
Proof.
  revert kept. induction files as [|f files IH]; intros kept; simpl.
  - by intros [= <-].
  - destruct (relative_to f base_dir) as [rel|]; simpl; [|done].
    destruct (filter_spec match_file base_dir files) as [kept'|]; simpl; [|done].
    intros [= <-]. destruct (match_file rel).
    + apply sublist_cons. by apply IH.
    + apply sublist_skip. by apply IH.
Qed.

End walking.

(** X5. In a tree whose directories have distinct entry names the file
    filter returns no path twice, and it returns the paths in the order the
    walk meets them: its result is a sublist of the walk's file list. *)
Theorem get_code_files_no_duplicates (base_dir : Path)
    (directory : FileManager.node) (match_file : Path → bool) :
  FileManager.wf directory →
  ∃ files,
    FileManager.get_code_files base_dir directory match_file = Ok files
    ∧ NoDup files
    ∧ sublist files (FileManager.all_files base_dir directory).
Proof.
  intros Hwf.
  destruct (get_code_files_under base_dir directory match_file)
    as (files & Hfiles & _).
  exists files. split; [done|].
  assert (Hsub : sublist files (FileManager.all_files base_dir directory)).
  { unfold FileManager.get_code_files in Hfiles.
    apply filter_spec_sublist in Hfiles.
    etrans; [exact Hfiles | apply sublist_filter]. }
  split; [|done]. eapply sublist_NoDup; [|exact Hsub].
  rewrite all_files_rels. apply NoDup_fmap_2; [apply descend_inj|].
  by apply rels_NoDup.
Qed.

Lemma get_code_files_no_duplicates_witness :
  FileManager.wf demo_tree
  ∧ ∃ files,
      FileManager.get_code_files (MkPath "/" ["r"]) demo_tree (λ _, false)
      = Ok files
      ∧ NoDup files.
Proof.
  split; [exact demo_tree_wf|].
  destruct (get_code_files_no_duplicates (MkPath "/" ["r"]) demo_tree
              (λ _, false) demo_tree_wf) as (files & Hfiles & Hnd & _).
  by exists files.
Defined.

(** ** File discovery *)
Section discovery.
Import FileManager Discovery.

(** No extension of the set ends with another one. *)
Lemma extensions_incomparable e1 e2 :
  e1 ∈ extensions → e2 ∈ extensions →
  chars e1 `suffix_of` chars e2 → e1 = e2.
Proof.
  assert (H : Forall (λ e1, Forall (λ e2,
                chars e1 `suffix_of` chars e2 → e1 = e2) extensions) extensions)
    by (by apply (bool_decide_unpack _)).
  intros H1 H2. rewrite Forall_forall in H. specialize (H e1 H1).
  rewrite Forall_forall in H. by apply H.
Qed.

Lemma endswith_unique s e1 e2 :
  e1 ∈ extensions → e2 ∈ extensions →
  endswith s e1 → endswith s e2 → e1 = e2.
Proof.
  intros H1 H2 Hs1%bool_decide_unpack Hs2%bool_decide_unpack.
  destruct (suffix_weak_total _ _ _ Hs1 Hs2).
  - by apply extensions_incomparable.
  - symmetry. by apply extensions_incomparable.
Qed.

Lemma extensions_NoDup : NoDup extensions.
Proof. by apply (bool_decide_unpack _). Qed.

Lemma mapM_app {A B} (f : A → exc B) (l1 l2 : list A) k1 k2 :
  mapM f l1 = Ok k1 → mapM f l2 = Ok k2 → mapM f (l1 ++ l2) = Ok (k1 ++ k2).
Proof.
  revert k1. induction l1 as [|x l1 IH]; intros k1; simpl.
  - by intros [= <-].
  - destruct (f x) as [y|]; simpl; [|done].
    destruct (mapM f l1) as [k|]; simpl; [|done].
    intros [= <-] H2. by rewrite (IH k eq_refl H2).
Qed.

(** On a searchable tree the directory iteration ends without an error,
    and the matches of the directories it yields are the matching entries
    in the order of a top-down walk. *)
Lemma iterate_searchable ext path n :
  searchable n = true →
  ∃ dirs found,
    iterate_directories path n = (dirs, None)
    ∧ mapM (λ d : Path * node, select_wildcard d.1 d.2 ext) dirs = Ok found
    ∧ concat found = descend path <$> rels (λ e, endswith (node_name e) ext) n.
Proof.
  revert path. induction n as [nm sz|nm f|nm entries IH] using node_ind';
    intros path Hs.
  - exists [(path, File nm sz)], [[]]. by destruct sz.
  - simpl in Hs. exists [(path, NoAccessDir nm f)], [[]]. simpl.
    by rewrite Hs.
  - simpl in Hs.
    assert (Hgo : ∃ dirs found,
      (fix go (entries : list node) : list (Path * node) * option exn :=
         match entries with
         | [] => ([], None)
         | entry :: rest =>
             match entry with
             | File _ (St_error f) =>
                 if denied f then ([], None) else ([], Some (os_error f))
             | File _ _ => go rest
             | Dir _ _ | NoAccessDir _ _ =>
                 let '(found, err) :=
                   iterate_directories
                     (path_join path (node_name entry)) entry in
                 match err with
                 | Some e => (found, Some e)
                 | None => let '(more, err') := go rest in (found ++ more, err')
                 end
             end
         end) entries = (dirs, None)
      ∧ mapM (λ d : Path * node, select_wildcard d.1 d.2 ext) dirs = Ok found
      ∧ concat found
        = descend path
            <$> (entries ≫= λ child,
                   if is_dir child
                   then (λ rel, node_name child :: rel)
                          <$> rels (λ e, endswith (node_name e) ext) child
                   else [])).
    { clear nm. induction entries as [|entry rest IHrest].
      - by exists [], [].
      - apply Forall_cons in IH as [IHentry IH].
        simpl in Hs. apply andb_prop in Hs as [Hentry Hrest].
        destruct (IHrest IH Hrest) as (more & found' & Hmore & Hsel' & Hcat').
        assert (Hdir : is_dir entry = true →
          ∃ dirs found,
            (let '(found, err) :=
               iterate_directories (path_join path (node_name entry)) entry in
             match err with
             | Some e => (found, Some e)
             | None => (found ++ more, None)
             end) = (dirs, None)
            ∧ mapM (λ d : Path * node, select_wildcard d.1 d.2 ext) dirs
              = Ok found
            ∧ concat found
              = descend path
                  <$> (((λ rel, node_name entry :: rel)
                          <$> rels (λ e, endswith (node_name e) ext) entry)
                       ++ (rest ≫= λ child,
                             if is_dir child
                             then (λ rel, node_name child :: rel)
                                    <$> rels (λ e, endswith (node_name e) ext)
                                          child
                             else []))).
        { intros _.
          destruct (IHentry (path_join path (node_name entry)) Hentry)
            as (dirs & found & Hit & Hsel & Hcat).
          exists (dirs ++ more), (found ++ found'). rewrite Hit.
          split; [done|]. split; [by apply mapM_app|].
          rewrite concat_app, Hcat, Hcat', fmap_app, <- list_fmap_compose.
          f_equal. apply list_fmap_ext. intros _ rel _. apply descend_join. }
        destruct entry as [cn [sz| |f]|cn centries|cn f].
        + exists more, found'. by rewrite <- Hmore.
        + exists more, found'. by rewrite <- Hmore.
        + done.
        + destruct (Hdir eq_refl) as (dirs & found & Hit & Hsel & Hcat).
          exists dirs, found. split; [|done]. rewrite <- Hit.
          cbn [iterate_directories]. fold iterate_directories.
          rewrite Hmore. reflexivity.
        + destruct (Hdir eq_refl) as (dirs & found & Hit & Hsel & Hcat).
          exists dirs, found. split; [|done]. rewrite <- Hit.
          rewrite Hmore. reflexivity. }
    destruct Hgo as (dirs & found & Hgo & Hsel & Hcat).
    exists ((path, Dir nm entries) :: dirs),
      (((λ e, path_join path (node_name e))
          <$> filter (λ e, endswith (node_name e) ext) entries) :: found).
    split; [|split].
    + cbn [iterate_directories]. by rewrite Hgo.
    + cbn [mapM]. rewrite Hsel. done.
    + simpl. rewrite Hcat, fmap_app, <- list_fmap_compose. done.
Qed.

Lemma first_occurrences_from (seen l : list Path) :
  let result :=
    foldl (λ seen p, if decide (p ∈ seen) then seen else seen ++ [p]) seen l in
  (∀ p, p ∈ result ↔ p ∈ seen ∨ p ∈ l)
  ∧ (NoDup seen → NoDup result)
  ∧ (NoDup (seen ++ l) → result = seen ++ l).
Proof.
  revert seen. induction l as [|x l IH]; intros seen; simpl.
  - split; [|split].
    + intros p. rewrite elem_of_nil. tauto.
    + done.
    + by rewrite app_nil_r.
  - destruct (IH (if decide (x ∈ seen) then seen else seen ++ [x]))
      as (Hin & Hnd & Hid).
    split; [|split].
    + intros p. rewrite Hin, elem_of_cons. case_decide.
      * split; [tauto|]. intros [?|[->|?]]; tauto.
      * rewrite elem_of_app, list_elem_of_singleton. tauto.
    + intros Hseen. apply Hnd. case_decide; [done|].
      apply NoDup_app. split; [done|]. split; [|apply NoDup_singleton].
      by intros y Hy ->%list_elem_of_singleton.
    + intros Hall. assert (Hx : x ∉ seen).
      { apply NoDup_app in Hall as (_ & Hdis & _). intros Hx.
        apply (Hdis x Hx), list_elem_of_here. }
      rewrite decide_False in Hid |- * by done.
      rewrite <- app_assoc in Hid. by apply Hid.
Qed.

Lemma elem_of_first_occurrences l p : p ∈ first_occurrences l ↔ p ∈ l.
Proof.
  destruct (first_occurrences_from [] l) as (H & _ & _).
  unfold first_occurrences. rewrite H, elem_of_nil. tauto.
Qed.

Lemma first_occurrences_NoDup l : NoDup (first_occurrences l).
Proof.
  destruct (first_occurrences_from [] l) as (_ & H & _).
  apply H. constructor.
Qed.

Lemma first_occurrences_id l : NoDup l → first_occurrences l = l.
Proof.
  destruct (first_occurrences_from [] l) as (_ & _ & H). apply H.
Qed.

(** On a searchable tree [rglob] raises nothing and finds the matching
    entries in the order of a top-down walk, each once. *)
Lemma rglob_rels path n ext :
  searchable n = true →
  rglob path n ext
  = Ok (first_occurrences
          (descend path <$> rels (λ e, endswith (node_name e) ext) n)).
Proof.
  intros Hs. unfold rglob, starts_from.
  destruct (iterate_searchable ext path n Hs) as (dirs & found & -> & Hsel & Hcat).
  rewrite Hsel. cbn [mbind exc_bind]. rewrite Hcat.
  by destruct n as [nm [sz| |f]|nm entries|nm f].
Qed.

Lemma glob_entries path n ext :
  searchable n = true →
  glob path n ext
  = Ok (match n with
        | Dir _ entries =>
            (λ e, path_join path (node_name e))
              <$> filter (λ e, endswith (node_name e) ext) entries
        | File _ _ | NoAccessDir _ _ => []
        end).
Proof.
  intros Hs. unfold glob, starts_from.
  destruct n as [nm [sz| |f]|nm entries|nm f]; try done.
  simpl in *. by rewrite Hs.
Qed.

Lemma resolves_name n rel m : resolves n rel m → last rel = Some (node_name m).
Proof.
  induction 1 as [nm entries e Hin|nm entries child rel m Hin Hres IH]; [done|].
  destruct rel; [inversion Hres|]. done.
Qed.

Lemma elem_of_rglob path n ext files p :
  searchable n = true → rglob path n ext = Ok files →
  p ∈ files
  ↔ ∃ rel m, p = descend path rel ∧ resolves n rel m
             ∧ endswith (node_name m) ext.
Proof.
  intros Hs. rewrite rglob_rels by done. intros [= <-].
  rewrite elem_of_first_occurrences, list_elem_of_fmap. split.
  - intros (rel & -> & (m & Hres & Hm)%elem_of_rels). eauto.
  - intros (rel & m & -> & Hres & Hm). exists rel. split; [done|].
    apply elem_of_rels. eauto.
Qed.

Lemma elem_of_glob path n ext files p :
  searchable n = true → glob path n ext = Ok files →
  p ∈ files
  ↔ ∃ m, p = path_join path (node_name m) ∧ resolves n [node_name m] m
         ∧ endswith (node_name m) ext.
Proof.
  intros Hs. rewrite glob_entries by done. intros [= <-].
  destruct n as [nm sz|nm entries|nm f].
  - split; [by intros ?%elem_of_nil|]. intros (m & _ & H & _). inversion H.
  - rewrite list_elem_of_fmap. split.
    + intros (e & -> & [He Hin]%list_elem_of_filter). exists e.
      split; [done|]. split; [by apply resolves_entry | done].
    + intros (m & -> & Hres & Hm). exists m. split; [done|].
      apply list_elem_of_filter. split; [done|].
      inversion Hres as [? ? child Hin Heq|? ? child rel' ? Hin Hres']; subst.
      * done.
      * inversion Hres'.
  - split; [by intros ?%elem_of_nil|]. intros (m & _ & H & _). inversion H.
Qed.

Lemma glob_NoDup path n ext files :
  searchable n = true → wf n → glob path n ext = Ok files → NoDup files.
Proof.
  intros Hs Hwf. rewrite glob_entries by done. intros [= <-].
  destruct n as [nm sz|nm entries|nm f]; [constructor| |constructor].
  inversion Hwf as [| |? ? Hnames Hall]; subst.
  apply NoDup_fmap_2_strong; [|apply NoDup_filter; by eapply NoDup_fmap_1].
  intros x y [_ Hx]%list_elem_of_filter [_ Hy]%list_elem_of_filter Heq.
  apply (NoDup_fmap_eq node_name entries); [done..|].
  rewrite !descend_one in Heq. by apply descend_inj in Heq as [= ?].
Qed.

Lemma concat_fmap_bind {A B} (f : A → list B) (l : list A) :
  concat (f <$> l) = l ≫= f.
Proof. induction l as [|x l IH]; [done|]. csimpl. by rewrite IH. Qed.

End discovery.

(** X6. File discovery in the directory branch of both [main]s, in
    whatever order the set of extensions is iterated, on a tree where the
    search meets no error of the file system other than the ones it
    swallows without loss (each entry can be examined, and a directory that
    cannot be listed refuses with [PermissionError]).  Both searches return
    a list.  With [--recursive] a path is found exactly when it leads to an
    entry below the directory, a file or a directory alike, whose name ends
    with one of the thirteen extensions, and nothing is found twice;
    without it, a path is found exactly when it is such an entry of the
    directory itself, and nothing is found twice when the entry names of
    the directory are distinct. *)
Theorem discover_spec (path : Path) (n : FileManager.node) (exts : list string) :
  exts ≡ₚ Discovery.extensions →
  Discovery.searchable n = true →
  ∃ deep shallow,
    Discovery.discover true path n exts = Ok deep
    ∧ Discovery.discover false path n exts = Ok shallow
    ∧ (∀ p, p ∈ deep
            ↔ ∃ rel m,
                p = descend path rel
                ∧ FileManager.resolves n rel m
                ∧ ∃ ext, ext ∈ Discovery.extensions
                         ∧ Discovery.endswith (FileManager.node_name m) ext)
    ∧ (∀ p, p ∈ shallow
            ↔ ∃ m,
                p = path_join path (FileManager.node_name m)
                ∧ FileManager.resolves n [FileManager.node_name m] m
                ∧ ∃ ext, ext ∈ Discovery.extensions
                         ∧ Discovery.endswith (FileManager.node_name m) ext)
    ∧ NoDup deep
    ∧ (FileManager.wf n → NoDup shallow).
Proof.
  intros Hperm Hs.
  destruct (Discovery.discover true path n exts) as [deep|e] eqn:Hdeep.
  2:{ exfalso. unfold Discovery.discover in Hdeep.
      rewrite (mapM_total _ (λ ext, Discovery.first_occurrences
                 (descend path
                    <$> Discovery.rels
                          (λ e, Discovery.endswith (FileManager.node_name e) ext)
                          n))) in Hdeep; [done|].
      intros ext _. by apply rglob_rels. }
  destruct (Discovery.discover false path n exts) as [shallow|e] eqn:Hshallow.
  2:{ exfalso. unfold Discovery.discover in Hshallow.
      erewrite mapM_total in Hshallow; [done|].
      intros ext _. by apply glob_entries. }
  exists deep, shallow. split; [done|]. split; [done|].
  unfold Discovery.discover in Hdeep, Hshallow.
  destruct (mapM _ exts) as [fdeep|] eqn:Hfdeep in Hdeep; [|done].
  destruct (mapM _ exts) as [fshallow|] eqn:Hfshallow in Hshallow; [|done].
  injection Hdeep as <-. injection Hshallow as <-.
  assert (Hdeep : fdeep
    = (λ ext, Discovery.first_occurrences
                (descend path
                   <$> Discovery.rels
                         (λ e, Discovery.endswith (FileManager.node_name e) ext)
                         n)) <$> exts).
  { rewrite (mapM_total _ (λ ext, Discovery.first_occurrences
               (descend path
                  <$> Discovery.rels
                        (λ e, Discovery.endswith (FileManager.node_name e) ext)
                        n))) in Hfdeep by (intros ext _; by apply rglob_rels).
    by injection Hfdeep. }
  assert (Hshallow : fshallow
    = (λ ext, match n with
              | FileManager.Dir _ entries =>
                  (λ e, path_join path (FileManager.node_name e))
                    <$> filter (λ e, Discovery.endswith
                                       (FileManager.node_name e) ext) entries
              | FileManager.File _ _ | FileManager.NoAccessDir _ _ => []
              end) <$> exts).
  { rewrite (mapM_total _ (λ ext, match n with
              | FileManager.Dir _ entries =>
                  (λ e, path_join path (FileManager.node_name e))
                    <$> filter (λ e, Discovery.endswith
                                       (FileManager.node_name e) ext) entries
              | FileManager.File _ _ | FileManager.NoAccessDir _ _ => []
              end)) in Hfshallow by (intros ext _; by apply glob_entries).
    by injection Hfshallow. }
  clear Hfdeep Hfshallow. subst fdeep fshallow. rewrite !concat_fmap_bind.
  assert (Hrg : ∀ ext p,
    p ∈ Discovery.first_occurrences
          (descend path
             <$> Discovery.rels
                   (λ e, Discovery.endswith (FileManager.node_name e) ext) n)
    ↔ ∃ rel m, p = descend path rel ∧ FileManager.resolves n rel m
               ∧ Discovery.endswith (FileManager.node_name m) ext).
  { intros ext p. apply (elem_of_rglob path n ext); [done|].
    by apply rglob_rels. }
  assert (Hg : ∀ ext p,
    p ∈ match n with
        | FileManager.Dir _ entries =>
            (λ e, path_join path (FileManager.node_name e))
              <$> filter (λ e, Discovery.endswith
                                 (FileManager.node_name e) ext) entries
        | FileManager.File _ _ | FileManager.NoAccessDir _ _ => []
        end
    ↔ ∃ m, p = path_join path (FileManager.node_name m)
           ∧ FileManager.resolves n [FileManager.node_name m] m
           ∧ Discovery.endswith (FileManager.node_name m) ext).
  { intros ext p. apply (elem_of_glob path n ext); [done|].
    by apply glob_entries. }
  split; [|split; [|split]].
  - intros p. rewrite list_elem_of_bind. split.
    + intros (ext & (rel & m & -> & Hres & Hm)%Hrg & Hext).
      exists rel, m. split; [done|]. split; [done|]. exists ext.
      split; [by rewrite <- Hperm | done].
    + intros (rel & m & -> & Hres & ext & Hext & Hm). exists ext.
      split; [|by rewrite Hperm]. apply Hrg. eauto.
  - intros p. rewrite list_elem_of_bind. split.
    + intros (ext & (m & -> & Hres & Hm)%Hg & Hext).
      exists m. split; [done|]. split; [done|]. exists ext.
      split; [by rewrite <- Hperm | done].
    + intros (m & -> & Hres & ext & Hext & Hm). exists ext.
      split; [|by rewrite Hperm]. apply Hg. eauto.
  - apply NoDup_bind.
    + intros e1 e2 p He1 He2 (rel1 & m1 & -> & Hres1 & Hm1)%Hrg
        (rel2 & m2 & Heq & Hres2 & Hm2)%Hrg.
      apply descend_inj in Heq as <-.
      apply resolves_name in Hres1, Hres2.
      rewrite Hres1 in Hres2. injection Hres2 as Hname.
      rewrite <- Hname in Hm2.
      rewrite Hperm in He1, He2. by eapply endswith_unique.
    + intros ext _. apply first_occurrences_NoDup.
    + rewrite Hperm. apply extensions_NoDup.
  - intros Hwf. apply NoDup_bind.
    + intros e1 e2 p He1 He2 (m1 & -> & Hres1 & Hm1)%Hg
        (m2 & Heq & Hres2 & Hm2)%Hg.
      rewrite !descend_one in Heq. apply descend_inj in Heq as [= Hname].
      rewrite Hname in Hm1.
      rewrite Hperm in He1, He2. by eapply endswith_unique.
    + intros ext _. apply (glob_NoDup path n ext); [done..|].
      by apply glob_entries.
    + rewrite Hperm. apply extensions_NoDup.
Qed.

Lemma discover_spec_witness :
  reverse Discovery.extensions ≡ₚ Discovery.extensions
  ∧ Discovery.searchable demo_tree = true
  ∧ ∃ deep,
      Discovery.discover true (MkPath "/" ["r"]) demo_tree
        (reverse Discovery.extensions) = Ok deep
      ∧ NoDup deep.
Proof.
  assert (H : reverse Discovery.extensions ≡ₚ Discovery.extensions)
    by apply reverse_Permutation.
  split; [exact H|]. split; [reflexivity|].
  destruct (discover_spec (MkPath "/" ["r"]) demo_tree _ H eq_refl)
    as (deep & shallow & Hdeep & _ & _ & _ & Hnd & _).
  by exists deep.
Defined.

Example discover_demo :
  Discovery.discover true (MkPath "/" ["r"]) demo_tree Discovery.extensions
  = Ok [MkPath "/" ["r"; "src"; "main.py"]].
Proof. by vm_compute. Qed.

(** An entry the search cannot examine ends the whole discovery with the
    error of the file system, although the entry matches no pattern. *)
Example discover_unexaminable_entry :
  Discovery.discover true (MkPath "" ["d"])
    (FileManager.Dir "d"
       [FileManager.File "a.py" (FileManager.St_size 1);
        FileManager.File "link"
          (FileManager.St_error
             (FileManager.OsFailure false "[Errno 36] File name too long"))])
    Discovery.extensions
  = Raise (Exn OSError "[Errno 36] File name too long").
Proof. by vm_compute. Qed.

(** An entry whose examination is refused ends the search of its directory
    silently: [sub/b.py], which comes after it, is not found. *)
Example discover_refused_entry :
  Discovery.discover true (MkPath "" ["d"])
    (FileManager.Dir "d"
       [FileManager.File "a.py" (FileManager.St_size 1);
        FileManager.File "locked"
          (FileManager.St_error
             (FileManager.OsFailure true "[Errno 13] Permission denied"));
        FileManager.Dir "sub"
          [FileManager.File "b.py" (FileManager.St_size 1)]])
    Discovery.extensions
  = Ok [MkPath "" ["d"; "a.py"]].
Proof. by vm_compute. Qed.

(** ** More on the file filter and the corpus writer *)
Section corpus.
Import FileManager.

Lemma substring_all s : substring 0 (String.length s) s = s.
Proof. induction s as [|c s IH]; simpl; [done|]. by rewrite IH. Qed.

(** The character at the position [rfind] reports is the one looked
    for. *)
Lemma rfind_substring c s i :
  rfind c s = Some i →
  ∃ rest,
    substring i (String.length s - i) s = String c rest
    ∧ (String.length rest = String.length s - i - 1)%nat.
Proof.
  revert i. induction s as [|c' s IH]; intros i; simpl; [done|].
  destruct (rfind c s) as [j|] eqn:Hj.
  - intros [= <-]. destruct (IH j eq_refl) as (rest & Hrest & Hlen).
    exists rest. simpl. split; [done | lia].
  - case_decide as Hc; [|done]. intros [= <-]. subst c'.
    exists s. rewrite Nat.sub_0_r, substring_all. split; [done | lia].
Qed.

(** A suffix is empty, or a dot followed by at least one character. *)
Lemma suffix_shape p :
  suffix p = "" ∨ ∃ c rest, suffix p = String "."%char (String c rest).
Proof.
  unfold suffix. destruct (rfind _ _) as [i|] eqn:Hi; [|by left].
  destruct (_ && _) eqn:Hb; [|by left]. right.
  apply andb_prop in Hb as [_ Hlt%Nat.ltb_lt].
  destruct (rfind_substring _ _ _ Hi) as (rest & -> & Hlen).
  destruct rest as [|c rest]; [simpl in Hlen; lia|]. eauto.
Qed.

Lemma for_loop_first_raise {St A} (body : St → A → exc St) (f : St → A → St)
    (s : St) (l1 l2 : list A) (x : A) (e : exn) :
  (∀ s y, y ∈ l1 → body s y = Ok (f s y)) →
  body (foldl f s l1) x = Raise e →
  for_loop body s (l1 ++ x :: l2) = Raise e.
Proof.
  revert s. induction l1 as [|y l1 IH]; intros s Hl1 Hx; simpl.
  - simpl in Hx. by rewrite Hx.
  - rewrite Hl1 by apply list_elem_of_here. simpl. apply IH; [|done].
    intros s' z Hz. by apply Hl1, list_elem_of_further.
Qed.

(** The corpus writer up to its loop of writes: the filter never raises
    and, with I/O errors only, neither does reading. *)
Lemma write_files_reads env directory tree_on_disk match_file base_dir
    output_dir tree staged :
  io_errors_only env →
  ∃ files,
    get_code_files directory tree_on_disk match_file = Ok files
    ∧ Forall (λ f, ∃ rel, f = descend directory rel ∧ rel ≠ []) files
    ∧ write_files_to_tmp_directory env directory tree_on_disk match_file
        base_dir output_dir tree staged
      = for_loop (λ staged file_info,
                    _write_file env file_info base_dir output_dir staged)
                 staged ((λ f, (f, staged_text env tree f)) <$> files).
Proof.
  intros Hio.
  destruct (get_code_files_under directory tree_on_disk match_file)
    as (files & Hfiles & Hunder).
  exists files. split; [done|]. split; [done|].
  unfold write_files_to_tmp_directory. rewrite Hfiles. simpl.
  by rewrite (mapM_total _ (λ f, (f, staged_text env tree f)))
    by (intros; by apply read_file_eq).
Qed.

Lemma foldl_insert_dom {A} (k v : A → string) (l : list A)
    (staged : gmap string string) :
  dom (foldl (λ st x, <[k x := v x]> st) staged l)
  = dom staged ∪ list_to_set (k <$> l).
Proof.
  revert staged. induction l as [|x l IH]; intros staged; simpl.
  - by rewrite (right_id_L ∅ (∪)).
  - rewrite IH, dom_insert_L, (comm_L (∪) {[k x]}), <- (assoc_L (∪)). done.
Qed.

End corpus.

(** X7. The registry entry ["Dockerfile"] never matches: a suffix is empty
    or a dot followed by something, never ["Dockerfile"].  A path is a code
    file exactly when its suffix is one of the fifteen dotted extensions, or
    its name is exactly ["Dockerfile"]; the comparison is exact, so neither
    letter case nor a longer name is tolerated. *)
Theorem is_code_file_dotted_suffix_or_exact_name (file : Path) :
  suffix file ≠ "Dockerfile"
  ∧ (FileManager._is_code_file file
     ↔ suffix file ∈ [".c"; ".cpp"; ".cs"; ".css"; ".default"; ".html";
                      ".java"; ".js"; ".jsx"; ".md"; ".py"; ".toml"; ".ts";
                      ".tsx"; ".yml"]
       ∨ name file = "Dockerfile").
Proof.
  assert (Hne : suffix file ≠ "Dockerfile").
  { destruct (suffix_shape file) as [->|(c & rest & ->)]; discriminate. }
  split; [done|].
  unfold FileManager._is_code_file, FileManager._CODE_EXTENSIONS.
  rewrite orb_True, !bool_decide_spec.
  rewrite !elem_of_union, !elem_of_singleton, !elem_of_cons, elem_of_nil.
  tauto.
Qed.

(** X8. Under the conditions of the corpus writer's success (the scanned
    directory is [base_dir] or lies under it, reading fails with I/O errors
    only, and no write fails, neither at opening nor at writing), the
    staging paths written are exactly those of the eligible files: every
    such path is there afterwards, every other path keeps what it had.  An
    eligible file that cannot be read is staged all the same, as an empty
    text, when it is the last one mapped to its path. *)
Theorem staging_writes_every_eligible_file (env : FileManager.os_env)
    (directory : Path) (tree_on_disk : FileManager.node)
    (match_file : Path → bool) (base_dir output_dir : Path) (tree : string)
    (staged : gmap string string) (d : list string) :
  directory = descend base_dir d →
  FileManager.io_errors_only env →
  FileManager.writes_succeed env →
  ∃ files staged',
    FileManager.get_code_files directory tree_on_disk match_file = Ok files
    ∧ FileManager.write_files_to_tmp_directory env directory tree_on_disk
        match_file base_dir output_dir tree staged = Ok staged'
    ∧ dom staged'
      = dom staged
        ∪ list_to_set (FileManager.staged_at base_dir output_dir <$> files)
    ∧ (∀ key, key ∉ FileManager.staged_at base_dir output_dir <$> files →
              staged' !! key = staged !! key)
    ∧ (∀ f e,
         last (filter (λ g, FileManager.staged_at base_dir output_dir g
                            = FileManager.staged_at base_dir output_dir f)
                      files) = Some f →
         FileManager.open_rb env f = Raise e →
         staged' !! FileManager.staged_at base_dir output_dir f = Some "").
Proof.
  intros -> Hio Hw.
  destruct (write_files_reads env (descend base_dir d) tree_on_disk match_file
              base_dir output_dir tree staged Hio)
    as (files & Hfiles & Hunder & Hrun).
  rewrite Forall_forall in Hunder.
  rewrite (for_loop_total_on _
             (λ st fi, <[FileManager.staged_at base_dir output_dir fi.1 := fi.2]> st))
    in Hrun.
  2:{ intros st [f c] (f' & [= -> ->] & Hf)%list_elem_of_fmap.
      destruct (Hunder _ Hf) as (rel & -> & _).
      rewrite (write_file_eq _ _ _ _ _ _ (d ++ rel))
        by (rewrite descend_descend; apply below_descend).
      by destruct (Hw (staging_path base_dir output_dir
                         (descend (descend base_dir d) rel))
                      (FileManager.staged_text env tree
                         (descend (descend base_dir d) rel))) as [-> ->]. }
  rewrite foldl_fmap in Hrun. simpl in Hrun.
  exists files. eexists. split; [done|]. split; [exact Hrun|].
  split; [|split].
  - apply foldl_insert_dom.
  - intros key Hkey. rewrite foldl_insert_last.
    destruct (last _) as [f|] eqn:Hlast; [|done]. exfalso. apply Hkey.
    apply last_Some_elem_of, list_elem_of_filter in Hlast as [<- Hf].
    by apply list_elem_of_fmap_2.
  - intros f e Hlast Hopen. rewrite foldl_insert_last, Hlast.
    unfold FileManager.staged_text. by rewrite Hopen.
Qed.

(** The example tree found at [/r], where no file can be read: both
    eligible files are staged, as empty texts. *)
Lemma staging_writes_every_eligible_file_witness :
  MkPath "/" ["r"] = descend (MkPath "/" ["r"]) []
  ∧ FileManager.io_errors_only demo_env
  ∧ FileManager.writes_succeed demo_env
  ∧ ∃ staged',
      FileManager.write_files_to_tmp_directory demo_env (MkPath "/" ["r"])
        demo_tree (λ _, false) (MkPath "/" ["r"]) (MkPath "/" ["tmp"; "out"])
        "T" ∅ = Ok staged'
      ∧ dom staged' = {["/tmp/out/main.py"; "/tmp/out/Dockerfile"]}
      ∧ staged' !! "/tmp/out/main.py" = Some "".
Proof.
  assert (Hfiles :
    FileManager.get_code_files (MkPath "/" ["r"]) demo_tree (λ _, false)
    = Ok [MkPath "/" ["r"; "src"; "main.py"];
          MkPath "/" ["r"; "src"; "Dockerfile"]]) by (by vm_compute).
  split; [reflexivity|]. split; [exact demo_env_io_errors|].
  split; [exact demo_env_writes|].
  destruct (staging_writes_every_eligible_file demo_env (MkPath "/" ["r"])
              demo_tree (λ _, false) (MkPath "/" ["r"])
              (MkPath "/" ["tmp"; "out"]) "T" ∅ [] eq_refl
              demo_env_io_errors demo_env_writes)
    as (files & staged' & Hfiles' & Hrun & Hdom & _ & Hunread).
  rewrite Hfiles in Hfiles'. injection Hfiles' as <-.
  exists staged'. split; [exact Hrun|]. split.
  - rewrite Hdom. set_solver.
  - apply (Hunread (MkPath "/" ["r"; "src"; "main.py"])
             (Exn OSError "[Errno 2] No such file or directory"));
      reflexivity.
Defined.

(** X9. When the first eligible file does not lie under [base_dir], the
    corpus writer raises the [ValueError] of [relative_to] for that file,
    whatever the staging directory allows: the directory scanned and
    [base_dir] are separate parameters, and nothing checks that they
    agree. *)
Theorem staging_rejects_foreign_base (env : FileManager.os_env)
    (directory : Path) (tree_on_disk : FileManager.node)
    (match_file : Path → bool) (base_dir output_dir : Path) (tree : string)
    (staged : gmap string string) (f : Path) (rest : list Path) :
  FileManager.io_errors_only env →
  FileManager.get_code_files directory tree_on_disk match_file = Ok (f :: rest) →
  below f base_dir = None →
  ∃ e,
    FileManager.write_files_to_tmp_directory env directory tree_on_disk
      match_file base_dir output_dir tree staged = Raise e
    ∧ relative_to f base_dir = Raise e
    ∧ exn_cls e = ValueError.
Proof.
  intros Hio Hfiles Hforeign.
  destruct (write_files_reads env directory tree_on_disk match_file base_dir
              output_dir tree staged Hio) as (files & Hfiles' & _ & Hrun).
  rewrite Hfiles in Hfiles'. injection Hfiles' as <-.
  eexists. split; [|split].
  - rewrite Hrun, fmap_cons. cbn [for_loop].
    unfold FileManager._write_file, relative_to. by rewrite Hforeign.
  - unfold relative_to. by rewrite Hforeign.
  - reflexivity.
Qed.

Lemma staging_rejects_foreign_base_witness :
  FileManager.io_errors_only demo_env
  ∧ FileManager.get_code_files (MkPath "/" ["r"]) demo_tree (λ _, false)
    = Ok [MkPath "/" ["r"; "src"; "main.py"];
          MkPath "/" ["r"; "src"; "Dockerfile"]]
  ∧ below (MkPath "/" ["r"; "src"; "main.py"]) (MkPath "/" ["elsewhere"]) = None
  ∧ ∃ e,
      FileManager.write_files_to_tmp_directory demo_env (MkPath "/" ["r"])
        demo_tree (λ _, false) (MkPath "/" ["elsewhere"])
        (MkPath "/" ["tmp"; "out"]) "T" ∅ = Raise e
      ∧ exn_cls e = ValueError.
Proof.
  assert (Hfiles :
    FileManager.get_code_files (MkPath "/" ["r"]) demo_tree (λ _, false)
    = Ok [MkPath "/" ["r"; "src"; "main.py"];
          MkPath "/" ["r"; "src"; "Dockerfile"]]) by (by vm_compute).
  split; [exact demo_env_io_errors|]. split; [exact Hfiles|].
  split; [reflexivity|].
  destruct (staging_rejects_foreign_base demo_env (MkPath "/" ["r"]) demo_tree
              (λ _, false) (MkPath "/" ["elsewhere"]) (MkPath "/" ["tmp"; "out"])
              "T" ∅ _ _ demo_env_io_errors Hfiles eq_refl)
    as (e & Hrun & _ & Hcls).
  by exists e.
Defined.

(** X10. A failing write makes the corpus writer raise: when the scanned
    directory is [base_dir] or lies under it, reading fails with I/O errors
    only, the files before [f] are written without error, and the staging
    path of [f] cannot be opened or its text cannot be written, then the
    corpus writer raises the exception of that write. *)
Theorem staging_stops_at_failing_write (env : FileManager.os_env)
    (directory : Path) (tree_on_disk : FileManager.node)
    (match_file : Path → bool) (base_dir output_dir : Path) (tree : string)
    (staged : gmap string string) (d : list string)
    (before after : list Path) (f : Path) (e : exn) :
  directory = descend base_dir d →
  FileManager.io_errors_only env →
  FileManager.get_code_files directory tree_on_disk match_file
  = Ok (before ++ f :: after) →
  (∀ g, g ∈ before →
        FileManager.open_w_error env (staging_path base_dir output_dir g) = None
        ∧ FileManager.write_error env (staging_path base_dir output_dir g)
            (FileManager.staged_text env tree g) = None) →
  FileManager.open_w_error env (staging_path base_dir output_dir f) = Some e
  ∨ (FileManager.open_w_error env (staging_path base_dir output_dir f) = None
     ∧ FileManager.write_error env (staging_path base_dir output_dir f)
         (FileManager.staged_text env tree f) = Some e) →
  FileManager.write_files_to_tmp_directory env directory tree_on_disk
    match_file base_dir output_dir tree staged = Raise e.
Proof.
  intros -> Hio Hfiles Hbefore Hf.
  destruct (write_files_reads env (descend base_dir d) tree_on_disk match_file
              base_dir output_dir tree staged Hio)
    as (files & Hfiles' & Hunder & Hrun).
  rewrite Hfiles in Hfiles'. injection Hfiles' as <-.
  rewrite Forall_forall in Hunder.
  assert (Hpre : ∀ g, g ∈ before ++ f :: after →
            ∃ rel, below g base_dir = Some rel).
  { intros g Hg. destruct (Hunder _ Hg) as (rel & -> & _).
    rewrite descend_descend, below_descend. eauto. }
  rewrite Hrun, fmap_app, fmap_cons.
  apply (for_loop_first_raise _
           (λ st fi, <[FileManager.staged_at base_dir output_dir fi.1 := fi.2]> st)).
  - intros st [g c] (g' & [= -> ->] & Hg)%list_elem_of_fmap.
    destruct (Hpre g') as [rel Hrel]; [apply elem_of_app; by left|].
    rewrite (write_file_eq _ _ _ _ _ _ _ Hrel).
    by destruct (Hbefore g' Hg) as [-> ->].
  - destruct (Hpre f) as [rel Hrel];
      [apply elem_of_app; right; apply list_elem_of_here|].
    rewrite (write_file_eq _ _ _ _ _ _ _ Hrel).
    by destruct Hf as [->|[-> ->]].
Qed.

(** The example tree found at [/r] with a disk that is full when the
    second file is written: [main.py] is written, then the write of
    [Dockerfile] fails and its exception leaves the corpus writer. *)
Lemma staging_stops_at_failing_write_witness :
  MkPath "/" ["r"] = descend (MkPath "/" ["r"]) []
  ∧ FileManager.io_errors_only full_disk_env
  ∧ FileManager.get_code_files (MkPath "/" ["r"]) demo_tree (λ _, false)
    = Ok ([MkPath "/" ["r"; "src"; "main.py"]]
            ++ MkPath "/" ["r"; "src"; "Dockerfile"] :: [])
  ∧ FileManager.write_files_to_tmp_directory full_disk_env (MkPath "/" ["r"])
      demo_tree (λ _, false) (MkPath "/" ["r"]) (MkPath "/" ["tmp"; "out"])
      "T" ∅
    = Raise (Exn OSError "[Errno 28] No space left on device").
Proof.
  assert (Hfiles :
    FileManager.get_code_files (MkPath "/" ["r"]) demo_tree (λ _, false)
    = Ok ([MkPath "/" ["r"; "src"; "main.py"]]
            ++ MkPath "/" ["r"; "src"; "Dockerfile"] :: []))
    by (by vm_compute).
  split; [reflexivity|]. split; [exact demo_env_io_errors|].
  split; [exact Hfiles|].
  apply (staging_stops_at_failing_write full_disk_env (MkPath "/" ["r"])
           demo_tree (λ _, false) (MkPath "/" ["r"]) (MkPath "/" ["tmp"; "out"])
           "T" ∅ [] [MkPath "/" ["r"; "src"; "main.py"]] []
           (MkPath "/" ["r"; "src"; "Dockerfile"])).
  - reflexivity.
  - exact demo_env_io_errors.
  - exact Hfiles.
  - intros g ->%list_elem_of_singleton. by split.
  - right. by split.
Defined.

(** ** More on the tree renderer *)
Section renderer.
Import FileManager.

Lemma filter_fmap_pairs {A} (f : node → A) (P : string → bool) (l : list node) :
  (λ item, (item, f item)) <$> filter (λ e, P (node_name e)) l
  = filter (λ p, P (node_name p.1)) ((λ item, (item, f item)) <$> l).
Proof.
  induction l as [|x l IH]; [done|]. rewrite fmap_cons.
  destruct (decide (P (node_name x))).
  - by rewrite !filter_cons_True, fmap_cons, IH by done.
  - by rewrite !filter_cons_False by done.
Qed.

Lemma filter_all {A} (P : A → Prop) `{∀ x, Decision (P x)} (l : list A) :
  (∀ x, P x) → filter P l = l.
Proof.
  intros HP. induction l as [|x l IH]; [done|].
  by rewrite filter_cons_True, IH by done.
Qed.

Lemma drop_hidden_name n : node_name (drop_hidden n) = node_name n.
Proof. by destruct n. Qed.

Lemma drop_hidden_is_dir n : is_dir (drop_hidden n) = is_dir n.
Proof. by destruct n. Qed.

Lemma drop_hidden_stat_error n : stat_error (drop_hidden n) = stat_error n.
Proof. by destruct n. Qed.

Lemma drop_hidden_scan_item structure n sub :
  scan_item structure (drop_hidden n) sub = scan_item structure n sub.
Proof. by destruct n. Qed.

(** Scanning without the hidden entries is scanning the tree they have
    been removed from. *)
Lemma scan_drop_hidden max_depth path :
  ∀ current_depth,
    _scan_directory max_depth false path current_depth
    = _scan_directory max_depth true (drop_hidden path) current_depth.
Proof.
  induction path as [nm sz|nm f|nm entries IH] using node_ind'; intros cd;
    [done..|].
  cbn [_scan_directory drop_hidden].
  destruct (depth_reached max_depth cd); [done|].
  assert (Hmap :
    (λ item, (item, _scan_directory max_depth true item (cd + 1)))
      <$> (drop_hidden <$> entries)
    = on_item drop_hidden
        <$> ((λ item, (item, _scan_directory max_depth false item (cd + 1)))
               <$> entries)).
  { rewrite <- !list_fmap_compose. apply list_fmap_ext.
    intros i item Hitem. unfold on_item. simpl. f_equal. symmetry.
    rewrite Forall_forall in IH. apply IH. by eapply list_elem_of_lookup_2. }
  rewrite (filter_all (λ p, _should_include true (node_name p.1))) by done.
  rewrite (filter_fmap_pairs _ (λ name, negb (startswith name "."))), Hmap.
  rewrite (filter_on_item _ drop_hidden_name
             (λ name, negb (startswith name "."))).
  by rewrite (scan_items_on_item _ drop_hidden_name drop_hidden_is_dir
                drop_hidden_stat_error drop_hidden_scan_item).
Qed.

Lemma as_empty_name n : node_name (as_empty n) = node_name n.
Proof. by destruct n. Qed.

Lemma as_empty_is_dir n : is_dir (as_empty n) = is_dir n.
Proof. by destruct n. Qed.

Lemma as_empty_stat_error n : stat_error (as_empty n) = stat_error n.
Proof. by destruct n. Qed.

Lemma as_empty_scan_item structure n sub :
  scan_item structure (as_empty n) sub = scan_item structure n sub.
Proof. by destruct n. Qed.

(** A directory that cannot be listed is scanned as an empty one. *)
Lemma scan_as_empty max_depth show_hidden path :
  ∀ current_depth,
    _scan_directory max_depth show_hidden path current_depth
    = _scan_directory max_depth show_hidden (as_empty path) current_depth.
Proof.
  induction path as [nm sz|nm f|nm entries IH] using node_ind'; intros cd.
  - done.
  - simpl. by destruct (depth_reached _ _).
  - cbn [_scan_directory as_empty].
    destruct (depth_reached max_depth cd); [done|].
    assert (Hmap :
      (λ item, (item, _scan_directory max_depth show_hidden item (cd + 1)))
        <$> (as_empty <$> entries)
      = on_item as_empty
          <$> ((λ item, (item, _scan_directory max_depth show_hidden item
                                 (cd + 1))) <$> entries)).
    { rewrite <- !list_fmap_compose. apply list_fmap_ext.
      intros i item Hitem. unfold on_item. simpl. f_equal. symmetry.
      rewrite Forall_forall in IH. apply IH. by eapply list_elem_of_lookup_2. }
    rewrite Hmap.
    rewrite (filter_on_item _ as_empty_name (_should_include show_hidden)).
    by rewrite (scan_items_on_item _ as_empty_name as_empty_is_dir
                  as_empty_stat_error as_empty_scan_item).
Qed.

(** Two trees of one name and one scan are rendered alike, when a root
    that is no directory is the same in both. *)
Lemma get_tree_same_scan folder_path n n' show_hidden show_hidden'
    max_depth max_depth' :
  node_name n = node_name n' →
  (is_dir n = false → n' = n) →
  (is_dir n = true → is_dir n' = true) →
  _scan_directory max_depth show_hidden n 0
  = _scan_directory max_depth' show_hidden' n' 0 →
  get_tree folder_path (Some n) show_hidden max_depth
  = get_tree folder_path (Some n') show_hidden' max_depth'.
Proof.
  intros Hname Hfile Hdir Hscan. unfold get_tree.
  destruct n as [nm st|nm entries|nm f].
  - rewrite (Hfile eq_refl). by destruct st.
  - specialize (Hdir eq_refl).
    destruct n' as [nm' st'|nm' entries'|nm' f']; [done| |];
      simpl in Hname; subst; by rewrite Hscan.
  - specialize (Hdir eq_refl).
    destruct n' as [nm' st'|nm' entries'|nm' f']; [done| |];
      simpl in Hname; subst; by rewrite Hscan.
Qed.

Lemma scan_no_hidden max_depth path :
  ∀ (current_depth : Z) (k : nat),
    Forall (λ e, startswith e.1.2 "." = false)
           (listing k (_scan_directory max_depth false path current_depth)).
Proof.
  induction path as [nm sz|nm f|nm entries IH] using node_ind';
    intros cd k.
  - simpl. destruct (depth_reached _ _); constructor.
  - simpl. destruct (depth_reached _ _); constructor.
  - destruct (depth_reached max_depth cd) eqn:Hreached.
    { cbn [_scan_directory]. rewrite Hreached. constructor. }
    destruct (scan_Dir max_depth false nm entries cd Hreached)
      as [[_ ->]|[_ ->]]; [|constructor].
    apply Forall_listing, foldl_scan_item_Forall; [constructor|].
    intros item sub structure Hin Hst.
    apply elem_of_sort_by, list_elem_of_filter in Hin as [Hvis Hin].
    apply list_elem_of_fmap in Hin as (item' & [= <- ->] & Hin).
    simpl in Hvis. apply negb_prop_elim, Is_true_false_1 in Hvis.
    rewrite Forall_forall in IH. specialize (IH item Hin (cd + 1) (S k)).
    assert (Hdir :
      Forall (λ e, startswith e.1.2 "." = false)
        (entries_of k (node_name item)
           (Data "directory" 0
              (_scan_directory max_depth false item (cd + 1))))).
    { simpl. by constructor. }
    destruct item as [name [sz| |f]|name sub|name f]; simpl in *.
    + apply dict_set_Forall; [done|]. simpl. by constructor.
    + done.
    + done.
    + by apply dict_set_Forall.
    + by apply dict_set_Forall.
Qed.

End renderer.

(** X11. Hidden entries.  With [show_hidden] false no entry whose name
    starts with a dot is listed, at any depth, and nothing else is lost:
    the scan and the rendered text are those obtained with [show_hidden]
    true from the tree without its dot entries (an entry below a hidden
    directory goes with it). *)
Theorem hidden_entries_left_out (folder_path : string)
    (root : FileManager.node) (max_depth : option Z) :
  Forall (λ e, startswith e.1.2 "." = false)
         (FileManager.listing 1
            (FileManager._scan_directory max_depth false root 0))
  ∧ FileManager._scan_directory max_depth false root 0
    = FileManager._scan_directory max_depth true (drop_hidden root) 0
  ∧ FileManager.get_tree folder_path (Some root) false max_depth
    = FileManager.get_tree folder_path (Some (drop_hidden root)) true max_depth.
Proof.
  split; [apply scan_no_hidden|]. split; [apply scan_drop_hidden|].
  apply get_tree_same_scan.
  - by rewrite drop_hidden_name.
  - by destruct root.
  - by rewrite drop_hidden_is_dir.
  - apply scan_drop_hidden.
Qed.

(** X12. A directory that cannot be listed is rendered as an empty
    directory: the scan and the rendered text are those of the tree in
    which every such directory is empty.  The failure leaves no trace in
    the output. *)
Theorem unreadable_directory_shown_empty (folder_path : string)
    (root : FileManager.node) (show_hidden : bool) (max_depth : option Z) :
  FileManager._scan_directory max_depth show_hidden root 0
  = FileManager._scan_directory max_depth show_hidden (as_empty root) 0
  ∧ FileManager.get_tree folder_path (Some root) show_hidden max_depth
    = FileManager.get_tree folder_path (Some (as_empty root)) show_hidden
        max_depth.
Proof.
  split; [apply scan_as_empty|]. apply get_tree_same_scan.
  - by rewrite as_empty_name.
  - by destruct root.
  - by rewrite as_empty_is_dir.
  - apply scan_as_empty.
Qed.

(** ** The order and the content of a scanned directory *)
Section scan_order.
Import FileManager.

Lemma key_le_total a b : key_le a b ∨ key_le b a.
Proof.
  unfold key_le.
  destruct a as [[] sa], b as [[] sb]; simpl; auto;
    destruct (String.leb_total sa sb) as [H|H]; rewrite H; simpl; auto.
Qed.

Lemma key_le_trans a b c : key_le a b → key_le b c → key_le a c.
Proof.
  unfold key_le.
  destruct a as [[] sa], b as [[] sb], c as [[] sc]; simpl; try done;
    intros H1 H2; change (String.le sa sc); by trans sb.
Qed.

Section sorting.
Context {A : Type} (key : A → bool * string).

Lemma insert_by_Permutation x (l : list A) : insert_by key x l ≡ₚ x :: l.
Proof.
  induction l as [|y l IH]; simpl; [done|].
  destruct (key_le _ _); [done|]. rewrite IH. apply Permutation_swap.
Qed.

Lemma sort_by_Permutation (l : list A) : sort_by key l ≡ₚ l.
Proof.
  unfold sort_by. induction l as [|x l IH]; simpl; [done|].
  by rewrite insert_by_Permutation, IH.
Qed.

Lemma insert_by_sorted x (l : list A) :
  StronglySorted (λ a b, key_le (key a) (key b)) l →
  StronglySorted (λ a b, key_le (key a) (key b)) (insert_by key x l).
Proof.
  induction 1 as [|y l Hl IH Hy]; simpl.
  - repeat constructor.
  - destruct (key_le (key x) (key y)) eqn:Hxy.
    + constructor; [by constructor|]. constructor; [by rewrite Hxy|].
      eapply Forall_impl; [exact Hy|]. intros z Hz. simpl in Hz.
      eapply key_le_trans; [|exact Hz]. by rewrite Hxy.
    + constructor; [done|].
      rewrite insert_by_Permutation. constructor; [|done].
      destruct (key_le_total (key x) (key y)) as [H|H]; [|done].
      by rewrite Hxy in H.
Qed.

Lemma sort_by_sorted (l : list A) :
  StronglySorted (λ a b, key_le (key a) (key b)) (sort_by key l).
Proof.
  unfold sort_by. induction l as [|x l IH]; simpl; [constructor|].
  by apply insert_by_sorted.
Qed.

End sorting.

Lemma StronglySorted_omap {A B} (R : relation A) (R' : relation B)
    (f : A → option B) (l : list A) :
  (∀ x y x' y', f x = Some x' → f y = Some y' → R x y → R' x' y') →
  StronglySorted R l → StronglySorted R' (omap f l).
Proof.
  intros Hf. induction 1 as [|x l Hl IH Hx]; simpl; [constructor|].
  destruct (f x) as [x'|] eqn:Hfx; [|done]. constructor; [done|].
  apply Forall_forall. intros y' (y & Hy & Hfy)%list_elem_of_omap.
  rewrite Forall_forall in Hx. eauto.
Qed.


Lemma scan_item_entry_of structure item sub :
  scan_item structure item sub
  = match entry_of item sub with
    | Some (k, v) => dict_set structure k v
    | None => structure
    end.
Proof. by destruct item as [? [| |]| |]. Qed.

Lemma entry_of_Some item sub k v :
  entry_of item sub = Some (k, v) →
  k = node_name item ∧ stat_ok item ∧ entry_key (k, v) = sort_key item.
Proof. destruct item as [? [| |]| |]; intros [= <- <-]; done. Qed.

Lemma entry_of_stat_ok item sub :
  stat_ok item → is_Some (entry_of item sub).
Proof. destruct item as [? [| |]| |]; by eauto. Qed.

(** With distinct names every recorded item is appended. *)
Lemma foldl_scan_item_fresh (items : list (node * dict data))
    (structure : dict data) :
  NoDup ((λ p, node_name p.1) <$> items) →
  (∀ p, p ∈ items → node_name p.1 ∉ dict_keys structure) →
  foldl (λ structure '(item, sub), scan_item structure item sub)
        structure items
  = structure ++ omap (λ p, entry_of p.1 p.2) items.
Proof.
  revert structure. induction items as [|[item sub] items IH];
    intros structure Hnd Hfresh; simpl.
  - by rewrite app_nil_r.
  - rewrite fmap_cons in Hnd. apply NoDup_cons in Hnd as [Hitem Hnd].
    rewrite scan_item_entry_of.
    destruct (entry_of item sub) as [[k v]|] eqn:Hentry.
    + apply entry_of_Some in Hentry as (-> & _ & _).
      rewrite dict_set_fresh by (apply (Hfresh (item, sub)), list_elem_of_here).
      rewrite IH; [by rewrite <- app_assoc|done|].
      intros p Hp. unfold dict_keys. rewrite fmap_app.
      intros [Hin| Heq%list_elem_of_singleton]%elem_of_app.
      * by eapply Hfresh; [apply list_elem_of_further|].
      * apply Hitem. simpl in Heq |- *. rewrite <- Heq.
        by apply (list_elem_of_fmap_2 (λ p, node_name p.1)).
    + apply IH; [done|]. intros p Hp. by apply Hfresh, list_elem_of_further.
Qed.

Lemma elem_of_scanned_items max_depth show_hidden (entries : list node)
    current_depth p :
  p ∈ filter (λ p, _should_include show_hidden (node_name p.1))
        ((λ item, (item, _scan_directory max_depth show_hidden item
                           (current_depth + 1))) <$> entries)
  ↔ p.1 ∈ entries
    ∧ p.2 = _scan_directory max_depth show_hidden p.1 (current_depth + 1)
    ∧ _should_include show_hidden (node_name p.1).
Proof.
  rewrite list_elem_of_filter, list_elem_of_fmap. split.
  - intros [Hvis (item & -> & Hin)]. done.
  - intros (Hin & Hsub & Hvis). split; [done|]. exists p.1.
    split; [|done]. destruct p as [item sub]. simpl in *. by subst.
Qed.

Lemma stat_raises_spec e : stat_raises e = true ↔ is_Some (stat_error e).
Proof. unfold stat_raises. by rewrite bool_decide_eq_true. Qed.

Lemma stat_raises_false e : stat_raises e = false ↔ stat_error e = None.
Proof.
  unfold stat_raises. rewrite bool_decide_eq_false.
  destruct (stat_error e) as [x|].
  - split; [|done]. intros H. exfalso. apply H. by exists x.
  - split; [done|]. by intros _ [? ?].
Qed.

(** The structure of a directory scanned above the depth limit: nothing
    when [is_dir()] raises for a visible entry; otherwise, with distinct
    entry names, what the loop records for the visible entries, in sorted
    order. *)
Lemma scan_Dir_sorted max_depth show_hidden nm entries current_depth :
  NoDup (node_name <$> entries) →
  depth_reached max_depth current_depth = false →
  (Forall (λ e, _should_include show_hidden (node_name e) →
                stat_raises e = false) entries
   ∧ _scan_directory max_depth show_hidden (Dir nm entries) current_depth
     = omap (λ p, entry_of p.1 p.2)
         (sort_by (λ p, sort_key p.1)
            (filter (λ p, _should_include show_hidden (node_name p.1))
               ((λ item, (item, _scan_directory max_depth show_hidden item
                                  (current_depth + 1))) <$> entries))))
  ∨ (Exists (λ e, _should_include show_hidden (node_name e)
                  ∧ stat_raises e = true) entries
     ∧ _scan_directory max_depth show_hidden (Dir nm entries) current_depth
       = []).
Proof.
  intros Hnd Hdepth.
  destruct (scan_Dir max_depth show_hidden nm entries current_depth Hdepth)
    as [[Hall ->]|[Hex ->]].
  - left. split.
    + rewrite Forall_forall in Hall. apply Forall_forall. intros e He Hvis.
      apply stat_raises_false.
      apply (Hall (e, _scan_directory max_depth show_hidden e
                        (current_depth + 1))).
      by apply elem_of_scanned_items.
    + rewrite foldl_scan_item_fresh; [done| |].
      * rewrite sort_by_Permutation.
        eapply sublist_NoDup; [|apply fmap_sublist, sublist_filter].
        by rewrite <- list_fmap_compose.
      * intros p _. apply not_elem_of_nil.
  - right. split; [|done]. apply Exists_exists in Hex as (p & Hp & Hraise).
    apply elem_of_scanned_items in Hp as (Hin & _ & Hvis).
    apply Exists_exists. exists p.1. split; [done|]. split; [done|].
    by apply stat_raises_spec.
Qed.

Lemma dict_get_elem_of {V} (d : dict V) k v :
  NoDup (dict_keys d) → (k, v) ∈ d → dict_get d k = Some v.
Proof.
  induction d as [|[k0 v0] d IH]; [by intros _ ?%elem_of_nil|].
  unfold dict_keys in *. rewrite fmap_cons, NoDup_cons. intros [Hk0 Hd].
  intros [[= -> ->]|Hin]%elem_of_cons; simpl.
  - by rewrite decide_True.
  - rewrite decide_False; [by apply IH|]. intros ->. apply Hk0.
    by apply (list_elem_of_fmap_2 fst) in Hin.
Qed.

Lemma foldl_scan_item_NoDup (items : list (node * dict data))
    (structure : dict data) :
  NoDup (dict_keys structure) →
  NoDup (dict_keys
           (foldl (λ structure '(item, sub), scan_item structure item sub)
                  structure items)).
Proof.
  revert structure. induction items as [|[item sub] items IH];
    intros structure Hnd; simpl; [done|].
  apply IH. rewrite scan_item_entry_of.
  destruct (entry_of item sub) as [[k v]|]; [|done].
  by apply dict_keys_set_NoDup.
Qed.

Lemma scan_keys_NoDup max_depth show_hidden path current_depth :
  NoDup (dict_keys (_scan_directory max_depth show_hidden path current_depth)).
Proof.
  destruct path as [nm st|nm entries|nm f]; simpl;
    destruct (depth_reached _ _); try constructor.
  destruct (sort_items _); [|constructor].
  apply foldl_scan_item_NoDup. constructor.
Qed.

Lemma Exists_not_Forall_stat (P : node → Prop) entries :
  Exists (λ e, P e ∧ stat_raises e = true) entries →
  Forall (λ e, P e → stat_raises e = false) entries → False.
Proof.
  intros (e & He & HP & Hraise)%Exists_exists Hall.
  rewrite Forall_forall in Hall. by rewrite (Hall e He HP) in Hraise.
Qed.

End scan_order.

(** X13. What a scanned directory lists.  Take a directory whose entries
    have distinct names, scanned above the depth limit.  When [is_dir()]
    raises for one of its visible entries (not hidden, or [show_hidden] is
    true), the sort raises and the structure is empty, whatever the other
    entries are.  When it raises for none of them, the keys of the
    structure are exactly the names of the visible entries for which
    [stat()] answers; a file is recorded with its size and no children, a
    directory with size 0 and the scan of its own entries one level deeper.
    In both cases no name comes twice. *)
Theorem scan_lists_visible_entries (max_depth : option Z) (show_hidden : bool)
    (nm : string) (entries : list FileManager.node) (current_depth : Z) :
  NoDup (FileManager.node_name <$> entries) →
  FileManager.depth_reached max_depth current_depth = false →
  let structure :=
    FileManager._scan_directory max_depth show_hidden
      (FileManager.Dir nm entries) current_depth in
  (Exists (λ e, FileManager._should_include show_hidden (FileManager.node_name e)
                ∧ stat_raises e = true) entries →
   structure = [])
  ∧ (Forall (λ e, FileManager._should_include show_hidden
                    (FileManager.node_name e) →
                  stat_raises e = false) entries →
     (∀ k, k ∈ dict_keys structure
           ↔ ∃ e, e ∈ entries ∧ FileManager.node_name e = k
                  ∧ FileManager._should_include show_hidden k ∧ stat_ok e)
     ∧ (∀ e, e ∈ entries →
             FileManager._should_include show_hidden (FileManager.node_name e) →
             dict_get structure (FileManager.node_name e)
             = snd <$> entry_of e (FileManager._scan_directory max_depth
                                     show_hidden e (current_depth + 1))))
  ∧ NoDup (dict_keys structure).
Proof.
  intros Hnd Hdepth structure.
  assert (Hkeys : NoDup (dict_keys structure)) by apply scan_keys_NoDup.
  split; [|split; [|done]].
  { intros Hex.
    destruct (scan_Dir_sorted max_depth show_hidden nm entries current_depth
                Hnd Hdepth) as [[Hall _]|[_ Hs]]; [|done].
    destruct (Exists_not_Forall_stat _ _ Hex Hall). }
  intros Hall.
  assert (Hs : structure = omap (λ p, entry_of p.1 p.2)
      (FileManager.sort_by (λ p, FileManager.sort_key p.1)
         (filter (λ p, FileManager._should_include show_hidden
                         (FileManager.node_name p.1))
            ((λ item, (item, FileManager._scan_directory max_depth show_hidden
                               item (current_depth + 1))) <$> entries)))).
  { destruct (scan_Dir_sorted max_depth show_hidden nm entries current_depth
                Hnd Hdepth) as [[_ Hs]|[Hex _]]; [done|].
    destruct (Exists_not_Forall_stat _ _ Hex Hall). }
  assert (Hin : ∀ k v, (k, v) ∈ structure
      ↔ ∃ e, e ∈ entries
             ∧ FileManager._should_include show_hidden (FileManager.node_name e)
             ∧ entry_of e (FileManager._scan_directory max_depth show_hidden e
                             (current_depth + 1)) = Some (k, v)).
  { intros k v. rewrite Hs, list_elem_of_omap. split.
    - intros ([e sub] & Hp & Hentry).
      apply elem_of_sort_by, elem_of_scanned_items in Hp as (He & Hsub & Hvis).
      simpl in *. subst sub. eauto.
    - intros (e & He & Hvis & Hentry). eexists (e, _). split; [|exact Hentry].
      by apply elem_of_sort_by, elem_of_scanned_items. }
  split.
  - intros k. unfold dict_keys. rewrite list_elem_of_fmap. split.
    + intros ([k' v] & -> & (e & He & Hvis & Hentry)%Hin). simpl.
      apply entry_of_Some in Hentry as (-> & Hstat & _). eauto.
    + intros (e & He & <- & Hvis & Hstat).
      destruct (entry_of_stat_ok e
                  (FileManager._scan_directory max_depth show_hidden e
                     (current_depth + 1)) Hstat) as [[k v] Hentry].
      exists (k, v). split; [by apply entry_of_Some in Hentry as (-> & _)|].
      apply Hin. eauto.
  - intros e He Hvis.
    destruct (entry_of e _) as [[k v]|] eqn:Hentry.
    + pose proof Hentry as (-> & _ & _)%entry_of_Some. simpl.
      apply dict_get_elem_of; [done|]. apply Hin. eauto.
    + simpl. apply dict_get_None. unfold dict_keys. rewrite list_elem_of_fmap.
      intros ([k v] & Hk & (e' & He' & _ & Hentry')%Hin). simpl in Hk.
      pose proof Hentry' as (-> & _ & _)%entry_of_Some.
      assert (e' = e) as -> by by apply (NoDup_fmap_eq FileManager.node_name entries).
      by rewrite Hentry in Hentry'.
Qed.

(** A directory with a hidden file, a dangling link, a file and a
    directory: the file and the directory are listed.  With an entry that
    cannot be examined added, nothing is. *)
Lemma scan_lists_visible_entries_witness :
  NoDup (FileManager.node_name
           <$> [FileManager.File ".env" (FileManager.St_size 9);
                FileManager.File "gone" FileManager.St_missing;
                FileManager.File "b.py" (FileManager.St_size 7);
                FileManager.Dir "A" []])
  ∧ FileManager.depth_reached None 0 = false
  ∧ (∀ k, k ∈ dict_keys
                (FileManager._scan_directory None false
                   (FileManager.Dir "proj"
                      [FileManager.File ".env" (FileManager.St_size 9);
                       FileManager.File "gone" FileManager.St_missing;
                       FileManager.File "b.py" (FileManager.St_size 7);
                       FileManager.Dir "A" []]) 0)
          ↔ ∃ e, e ∈ [FileManager.File ".env" (FileManager.St_size 9);
                      FileManager.File "gone" FileManager.St_missing;
                      FileManager.File "b.py" (FileManager.St_size 7);
                      FileManager.Dir "A" []]
                 ∧ FileManager.node_name e = k
                 ∧ FileManager._should_include false k ∧ stat_ok e)
  ∧ FileManager._scan_directory None false
      (FileManager.Dir "proj"
         [FileManager.File "b.py" (FileManager.St_size 7);
          FileManager.File "link"
            (FileManager.St_error
               (FileManager.OsFailure false "[Errno 36] File name too long"));
          FileManager.Dir "A" []]) 0
    = [].
Proof.
  assert (Hnd : NoDup (FileManager.node_name
           <$> [FileManager.File ".env" (FileManager.St_size 9);
                FileManager.File "gone" FileManager.St_missing;
                FileManager.File "b.py" (FileManager.St_size 7);
                FileManager.Dir "A" []]))
    by (by apply (bool_decide_unpack _)).
  assert (Hnd' : NoDup (FileManager.node_name
           <$> [FileManager.File "b.py" (FileManager.St_size 7);
                FileManager.File "link"
                  (FileManager.St_error
                     (FileManager.OsFailure false
                        "[Errno 36] File name too long"));
                FileManager.Dir "A" []]))
    by (by apply (bool_decide_unpack _)).
  split; [exact Hnd|]. split; [reflexivity|]. split.
  - apply (scan_lists_visible_entries None false "proj" _ 0 Hnd eq_refl).
    repeat constructor.
  - apply (scan_lists_visible_entries None false "proj" _ 0 Hnd' eq_refl).
    apply Exists_cons_tl, Exists_cons_hd. by split.
Defined.

(** X14. The order of a scanned directory.  For a directory whose entries
    have distinct names, every entry of the structure comes before all
    entries after it in the order of the sort key: directories before
    files, and within each kind by lower-cased name. *)
Theorem scan_sorted_directories_first (max_depth : option Z)
    (show_hidden : bool) (nm : string) (entries : list FileManager.node)
    (current_depth : Z) :
  NoDup (FileManager.node_name <$> entries) →
  StronglySorted
    (λ a b, FileManager.key_le (entry_key a) (entry_key b))
    (FileManager._scan_directory max_depth show_hidden
       (FileManager.Dir nm entries) current_depth).
Proof.
  intros Hnd.
  destruct (FileManager.depth_reached max_depth current_depth) eqn:Hdepth.
  - cbn [FileManager._scan_directory]. rewrite Hdepth. constructor.
  - destruct (scan_Dir_sorted max_depth show_hidden nm entries current_depth
                Hnd Hdepth) as [[_ ->]|[_ ->]]; [|constructor].
    eapply StronglySorted_omap; [|apply sort_by_sorted].
    intros [i1 s1] [i2 s2] [k1 v1] [k2 v2] H1 H2 Hle. simpl in *.
    apply entry_of_Some in H1 as (_ & _ & ->).
    by apply entry_of_Some in H2 as (_ & _ & ->).
Qed.

Lemma scan_sorted_directories_first_witness :
  NoDup (FileManager.node_name
           <$> [FileManager.File "b.py" (FileManager.St_size 7);
                FileManager.Dir "Zoo" [];
                FileManager.File "A.py" (FileManager.St_size 1);
                FileManager.Dir "app" []])
  ∧ FileManager._scan_directory None false
      (FileManager.Dir "proj"
         [FileManager.File "b.py" (FileManager.St_size 7);
          FileManager.Dir "Zoo" [];
          FileManager.File "A.py" (FileManager.St_size 1);
          FileManager.Dir "app" []]) 0
    = [("app", FileManager.Data "directory" 0 []);
       ("Zoo", FileManager.Data "directory" 0 []);
       ("A.py", FileManager.Data "file" 1 []);
       ("b.py", FileManager.Data "file" 7 [])]
  ∧ StronglySorted
      (λ a b, FileManager.key_le (entry_key a) (entry_key b))
      [("app", FileManager.Data "directory" 0 []);
       ("Zoo", FileManager.Data "directory" 0 []);
       ("A.py", FileManager.Data "file" 1 []);
       ("b.py", FileManager.Data "file" 7 [])].
Proof.
  assert (Hnd : NoDup (FileManager.node_name
           <$> [FileManager.File "b.py" (FileManager.St_size 7);
                FileManager.Dir "Zoo" [];
                FileManager.File "A.py" (FileManager.St_size 1);
                FileManager.Dir "app" []]))
    by (by apply (bool_decide_unpack _)).
  split; [exact Hnd|]. split; [reflexivity|].
  exact (scan_sorted_directories_first None false "proj" _ 0 Hnd).
Defined.

(** ** More on the lines of the tree *)
Section lines.
Import FileManager.

Lemma for_items_ext {A B} (f g : string → A → bool → list B)
    (items : list (string * A)) :
  Forall (λ p, ∀ name is_last, f name p.2 is_last = g name p.2 is_last) items →
  for_items f items = for_items g items.
Proof.
  induction 1 as [|[n x] rest Hx _ IH]; simpl; [done|]. by rewrite Hx, IH.
Qed.

Lemma format_item_prefix d :
  ∀ name is_last prefix prefix' is_last_list,
    format_item name d is_last prefix is_last_list
    = format_item name d is_last prefix' is_last_list.
Proof.
  induction d as [type size children IH] using data_ind'.
  intros name is_last prefix prefix' is_last_list. simpl.
  destruct (decide (type = "directory")); [|done]. f_equal.
  apply for_items_ext. eapply Forall_impl; [exact IH|].
  intros [n c] Hc name' is_last'. apply Hc.
Qed.

Lemma tenths_below_next_unit n D :
  0 < D → 20 * (1024 * D) - D ≤ 20 * n → n < 1024 * D →
  (10 * n) `div` D = 10239 ∧ D ≤ 2 * ((10 * n) `mod` D).
Proof.
  intros HD Hlo Hhi.
  assert (Hq : (10 * n) `div` D = 10239).
  { symmetry. apply Z.div_unique with (r := 10 * n - D * 10239); lia. }
  split; [done|].
  pose proof (Z.div_mod (10 * n) D ltac:(lia)) as Hdm. rewrite Hq in Hdm. lia.
Qed.

(** Just below the next unit the tenths round up to 1024.0. *)
Lemma format_1f_rollover n (i : Z) :
  1 ≤ i ≤ 3 →
  20 * 1024 ^ (i + 1) - 1024 ^ i ≤ 20 * n → n < 1024 ^ (i + 1) →
  format_1f (Float n (10 * i)) = "1024.0".
Proof.
  intros Hi Hlo Hhi. unfold format_1f. cbn [mant expo].
  assert (H2 : 2 ^ (10 * i) = 1024 ^ i).
  { rewrite Z.pow_mul_r by lia. done. }
  assert (Hstep : 1024 ^ (i + 1) = 1024 * 1024 ^ i)
    by (rewrite Z.pow_add_r by lia; lia).
  assert (HD : 0 < 1024 ^ i) by (apply Z.pow_pos_nonneg; lia).
  rewrite H2. rewrite Hstep in Hlo, Hhi.
  destruct (tenths_below_next_unit n (1024 ^ i) HD Hlo Hhi) as [Hq Hr].
  rewrite Hq.
  destruct (Z.ltb_spec (2 * ((10 * n) `mod` 1024 ^ i)) (1024 ^ i)); [lia|].
  by destruct (Z.ltb_spec (1024 ^ i) (2 * ((10 * n) `mod` 1024 ^ i))).
Qed.

End lines.

(** X15. The [prefix] argument of [_format_tree] has no effect: the lines
    are the same whatever prefix is passed; the indentation comes from
    [is_last_list] alone. *)
Theorem format_tree_ignores_prefix (structure : dict FileManager.data)
    (prefix prefix' : string) (is_last_list : list bool) :
  FileManager._format_tree structure prefix is_last_list
  = FileManager._format_tree structure prefix' is_last_list.
Proof.
  unfold FileManager._format_tree. apply for_items_ext, Forall_forall.
  intros [n d] _ name is_last. apply format_item_prefix.
Qed.

(** X16. The unit is chosen before the value is rounded: a size less than
    a twentieth of a unit below the next unit ([KB] to [GB]) is printed as
    ["1024.0"] of the smaller unit, not as ["1.0"] of the next one. *)
Theorem format_size_rolls_over_late (n : Z) (i : nat) (unit : string) :
  (1 ≤ i ≤ 3)%nat →
  FileManager.size_names !! i = Some unit →
  20 * 1024 ^ (Z.of_nat i + 1) - 1024 ^ Z.of_nat i ≤ 20 * n →
  n < 1024 ^ (Z.of_nat i + 1) →
  FileManager._format_size n = "1024.0 " +:+ unit.
Proof.
  intros Hi Hunit Hlo Hhi.
  assert (Hpow : 0 < 1024 ^ Z.of_nat i) by (apply Z.pow_pos_nonneg; lia).
  assert (Hstep : 1024 ^ (Z.of_nat i + 1) = 1024 * 1024 ^ Z.of_nat i)
    by (rewrite Z.pow_add_r by lia; lia).
  assert (Hn : 1024 ^ Z.of_nat i ≤ n) by lia.
  assert (Hsmall : n < 2 ^ 53).
  { assert (1024 ^ (Z.of_nat i + 1) ≤ 1024 ^ 4)
      by (apply Z.pow_le_mono_r; lia).
    assert (1024 ^ 4 ≤ 2 ^ 53) by done. lia. }
  rewrite (format_size_scaled n n i unit); try done; try lia.
  - by rewrite format_1f_rollover by lia.
  - apply float_of_int_exact. lia.
  - apply scale_unit; [lia | done | by left].
Qed.

Lemma format_size_rolls_over_late_witness :
  (1 ≤ 1 ≤ 3)%nat
  ∧ FileManager.size_names !! 1%nat = Some "KB"
  ∧ 1048575 < 1024 ^ (Z.of_nat 1 + 1)
  ∧ FileManager._format_size 1048575 = "1024.0 " +:+ "KB".
Proof.
  split; [lia|]. split; [reflexivity|]. split; [simpl; lia|].
  apply (format_size_rolls_over_late 1048575 1 "KB");
    [lia | reflexivity | simpl; lia | simpl; lia].
Defined.

(** ** The rendering of a directory with nothing to show *)
Section empty_marker.
Import FileManager.

Lemma dict_set_not_nil {V} (d : dict V) k v : dict_set d k v ≠ [].
Proof. destruct d as [|[k' v'] d]; simpl; [done|]. by destruct (decide (k' = k)). Qed.

Lemma foldl_scan_item_nil (items : list (node * dict data))
    (structure : dict data) :
  foldl (λ structure '(item, sub), scan_item structure item sub)
        structure items = []
  ↔ structure = [] ∧ Forall (λ p, stat_ok p.1 = false) items.
Proof.
  revert structure. induction items as [|[item sub] items IH];
    intros structure; simpl.
  - split; [by intros ->|by intros [-> _]].
  - rewrite IH, Forall_cons. simpl.
    destruct item as [name [st_size| |f]|name es|name f]; simpl.
    + split; [by intros [?%dict_set_not_nil _]|by intros [_ [[=] _]]].
    + split; [by intros [? ?]|by intros [? [_ ?]]].
    + split; [by intros [? ?]|by intros [? [_ ?]]].
    + split; [by intros [?%dict_set_not_nil _]|by intros [_ [[=] _]]].
    + split; [by intros [?%dict_set_not_nil _]|by intros [_ [[=] _]]].
Qed.

(** A scanned directory has nothing to show when the depth limit is
    reached, when [is_dir()] raises for a visible entry, or when no visible
    entry can be recorded. *)
Lemma scan_Dir_nil max_depth show_hidden nm entries current_depth :
  _scan_directory max_depth show_hidden (Dir nm entries) current_depth = []
  ↔ depth_reached max_depth current_depth = true
    ∨ Exists (λ e, _should_include show_hidden (node_name e)
                   ∧ stat_raises e = true) entries
    ∨ Forall (λ e, _should_include show_hidden (node_name e) && stat_ok e = false)
             entries.
Proof.
  destruct (depth_reached max_depth current_depth) eqn:Hdepth.
  { cbn [_scan_directory]. rewrite Hdepth. by split; [left|]. }
  destruct (scan_Dir max_depth show_hidden nm entries current_depth Hdepth)
    as [[Hall ->]|[Hex ->]].
  - rewrite foldl_scan_item_nil. rewrite Forall_forall in Hall. split.
    + intros [_ Hitems]. right. right. rewrite Forall_forall in Hitems.
      apply Forall_forall. intros e He.
      destruct (_should_include show_hidden (node_name e)) eqn:Hvis; [|done].
      apply (Hitems (e, _scan_directory max_depth show_hidden e (current_depth + 1))).
      apply elem_of_sort_by, elem_of_scanned_items. simpl. by rewrite Hvis.
    + intros [[=]|[Hex|Hentries]].
      * exfalso. apply Exists_exists in Hex as (e & He & Hvis & Hraise).
        apply stat_raises_spec in Hraise as [x Hx].
        specialize (Hall (e, _scan_directory max_depth show_hidden e
                               (current_depth + 1))).
        simpl in Hall. rewrite Hall in Hx; [done|].
        by apply elem_of_scanned_items.
      * split; [done|]. rewrite Forall_forall in Hentries.
        apply Forall_forall. intros p Hp.
        apply elem_of_sort_by, elem_of_scanned_items in Hp as (Hin & _ & Hvis).
        specialize (Hentries _ Hin). destruct (_should_include _ _); done.
  - split; [|done]. intros _. right. left.
    apply Exists_exists in Hex as (p & Hp & Hraise).
    apply elem_of_scanned_items in Hp as (Hin & _ & Hvis).
    apply Exists_exists. exists p.1. split; [done|]. split; [done|].
    by apply stat_raises_spec.
Qed.

Lemma string_app_inv_head (a x y : string) : a +:+ x = a +:+ y → x = y.
Proof. induction a as [|c a IH]; [done|]. intros [= H]. by apply IH. Qed.

End empty_marker.

(** X17. When the fixed leaf ["(empty directory)"] is shown.  For a root
    directory that can be listed, [get_tree] answers the root name and the
    ["(empty directory)"] leaf exactly when the depth limit is zero or
    negative, or [is_dir()] raises for a visible entry of the root (the
    sort then raises and nothing is recorded), or every entry of the root
    is hidden (with [show_hidden] off) or has no [stat()] answer; the
    directory need not be empty. *)
Theorem empty_directory_marker (folder_path nm : string)
    (entries : list FileManager.node) (show_hidden : bool)
    (max_depth : option Z) :
  FileManager.get_tree folder_path (Some (FileManager.Dir nm entries))
    show_hidden max_depth
  = nm +:+ "/" +:+ nl +:+ "└── (empty directory)"
  ↔ (∃ d, max_depth = Some d ∧ d ≤ 0)
    ∨ Exists (λ e, FileManager._should_include show_hidden
                     (FileManager.node_name e)
                   ∧ stat_raises e = true) entries
    ∨ Forall (λ e, FileManager._should_include show_hidden
                     (FileManager.node_name e) && stat_ok e = false)
             entries.
Proof.
  assert (Hdepth : FileManager.depth_reached max_depth 0 = true
                   ↔ ∃ d, max_depth = Some d ∧ d ≤ 0).
  { destruct max_depth as [d|]; simpl.
    - rewrite Z.leb_le. split; [by eauto|]. by intros (? & [= <-] & ?).
    - split; [done|]. by intros (? & [=] & _). }
  rewrite <- Hdepth, <- (scan_Dir_nil max_depth show_hidden nm entries 0).
  unfold FileManager.get_tree.
  destruct (FileManager._scan_directory max_depth show_hidden
              (FileManager.Dir nm entries) 0) as [|entry structure];
    [done|].
  split; [|done]. destruct (FileManager.count_types _) as [dir_count file_count].
  cbn [app join FileManager.node_name]. rewrite str_app_assoc.
  intros H%string_app_inv_head%string_app_inv_head%string_app_inv_head.
  by destruct (FileManager._format_tree _ _ _).
Qed.
